(** * Warrior ENS API: provider fallback, two-tier cache, lookup routes

    A shallow embedding of [src/index.ts]: the provider rotation controller
    ([ProviderManager]), the two-tier cache ([CacheManager]), the lookup
    routes built on them, the batch route, and the heartbeat of the
    WebSocket notifier.  Asynchronous functions are resumptions over the
    program state; everything the program does not own (the clock, the Redis
    server, the RPC endpoints, the string and JSON built-ins of the runtime)
    is a field of [Runtime]. *)

From Stdlib Require Import ZArith Lia Ascii String SpecFloat.
From stdpp Require Import gmap strings list fin_maps pretty.

Local Open Scope string_scope.
Local Open Scope Z_scope.

(** ** Values *)

(** A JavaScript [Error] object with the two optional fields of [ApiError]. *)
Record Error := mkError {
  message : string;
  statusCode : option Z;
  isOperational : bool;
}.

(** [new Error(message)] *)
Definition newError (msg : string) : Error :=
  {| message := msg; statusCode := None; isOperational := false |}.

(** The result of evaluating an expression that may throw, or of a settled
    promise: fulfilled with a value or rejected with an error. *)
Inductive Outcome (A : Type) : Type :=
| Returned (a : A)
| Thrown (e : Error).
Arguments Returned {A} a.
Arguments Thrown {A} e.

(** JSON-serialisable values; an object keeps its keys in insertion order. *)
#[warnings="-register-all"]
Inductive json : Type :=
| JNull
| JBool (b : bool)
| JNum (n : Z)
| JStr (s : string)
| JArr (items : list json)
| JObj (fields : list (string * json)).

(** ToBoolean, as used by [if (cached)] and [||]. *)
Definition truthy (v : json) : bool :=
  match v with
  | JNull => false
  | JBool b => b
  | JNum n => negb (n =? 0)
  | JStr s => negb (String.eqb s "")
  | JArr _ | JObj _ => true
  end.

(** Property write [obj[k] = v]: an existing key keeps its position. *)
Fixpoint setField (k : string) (v : json) (fields : list (string * json))
  : list (string * json) :=
  match fields with
  | [] => [(k, v)]
  | (k', v') :: rest =>
      if String.eqb k' k then (k, v) :: rest else (k', v') :: setField k v rest
  end.

Fixpoint getField (k : string) (fields : list (string * json)) : option json :=
  match fields with
  | [] => None
  | (k', v') :: rest => if String.eqb k' k then Some v' else getField k rest
  end.

(** A nullable string ([string | null]) as a JSON value. *)
Definition ofNullable (o : option string) : json :=
  match o with
  | Some s => JStr s
  | None => JNull
  end.

(** The indexed elements of a string or an array, as an object has them. *)
Fixpoint indexed {A} (f : A -> json) (i : nat) (l : list A)
  : list (string * json) :=
  match l with
  | [] => []
  | x :: rest => (pretty i, f x) :: indexed f (S i) rest
  end.

(** Object spread [{...v}]: the own enumerable properties of [v]: the
    fields of an object, the indexed elements of an array or a string, none
    for [null], numbers and booleans. *)
Definition spreadAll (v : json) : list (string * json) :=
  match v with
  | JObj fields => fields
  | JArr items => indexed (fun x => x) 0 items
  | JStr s => indexed (fun c => JStr (String c EmptyString)) 0 (String.list_ascii_of_string s)
  | _ => []
  end.

(** ** The runtime and the outside world *)

(** Commands the program sends to the Redis server. *)
Inductive RedisCmd : Type :=
| GET (key : string)
| SET (key value : string)
| SETEX (key : string) (seconds : Z) (value : string).

(** Calls the program makes on an ethers provider. *)
Inductive RpcCall : Type :=
| ResolveName (name : string)
| LookupAddress (address : string)
(** [getResolver(name)]: the address of the resolver, or [null] *)
| GetResolver (name : string)
(** [getAvatar()] and [getText(key)] on the resolver of [name] *)
| GetAvatar (name : string)
| GetText (name key : string).

(** What the program takes from its environment.  A call on the Redis
    client or on a provider is a transition of the world that settles with a
    nullable string or rejects; the string and JSON built-ins are functions. *)
Class Runtime := {
  World : Type;
(** [Date.now()], in milliseconds *)
Date_now : World -> Z;
(** [new Date(ms).toISOString()] *)
toISOString : Z -> string;
redis : RedisCmd -> World -> Outcome (option string) * World;
(** a call on the provider built from a URL *)
rpc : string -> RpcCall -> World -> Outcome (option string) * World;
(** [JSON.parse]; throws a SyntaxError on malformed text *)
JSON_parse : string -> Outcome json;
JSON_stringify : json -> string;
String_trim : string -> string;
String_toLowerCase : string -> string;
(** [s.length]: the number of UTF-16 code units of the string *)
String_length : string -> nat;
(** [ethers.isAddress] *)
isAddress : string -> bool;
}.

(** ** CONFIG *)
Module CONFIG.
Definition RPC_PROVIDERS : list string :=
  [ "https://eth.llamarpc.com"; "https://rpc.ankr.com/eth";
    "https://cloudflare-eth.com"; "https://ethereum.publicnode.com" ].
Definition CACHE_TTL : Z := 300.
Definition CACHE_CHECK_PERIOD : Z := 60.
Definition WS_HEARTBEAT_INTERVAL : Z := 30000.
Definition WS_MAX_CLIENTS : nat := 1000.
End CONFIG.

(** ** The node-cache package, as [CacheManager] configures and uses it

    [new NodeCache({stdTTL, checkperiod, useClones: false})]: a key maps to
    the stored value [v] and to the time [t] (milliseconds) after which it is
    expired, [0] for never.  [get] does not return an expired entry and
    deletes it.

    The package keeps the entries as the properties of one plain object
    and reads them with [this.data[key]]: under a key that has no entry but
    names a property of [Object.prototype], [get] finds that property, takes
    it for an entry without expiry time and without value, and returns
    [null] where it returns [undefined] for any other key without entry.
    ([set] gives every key an entry of its own, as an assignment does for
    every key but [__proto__].) *)
Module NodeCache.
Record entry := mkEntry { v : json; t : Z }.

(** The names of the properties of [Object.prototype] *)
Definition Object_prototype : list string :=
  [ "constructor"; "__defineGetter__"; "__defineSetter__"; "hasOwnProperty";
    "__lookupGetter__"; "__lookupSetter__"; "isPrototypeOf";
    "propertyIsEnumerable"; "toString"; "valueOf"; "__proto__";
    "toLocaleString" ].

Definition inherited (key : string) : bool :=
  existsb (String.eqb key) Object_prototype.

Record cache := mkCache {
  stdTTL : Z;
  data : gmap string entry;
}.

Definition create (stdTTL : Z) : cache :=
  {| stdTTL := stdTTL; data := ∅ |}.

(** The expiry time given to a value written at [now] with [ttl] seconds. *)
Definition livetime (now : Z) (c : cache) (ttl : option Z) : Z :=
  match ttl with
  | Some 0 => 0
  | Some n => now + n * 1000
  | None => if stdTTL c =? 0 then 0 else now + stdTTL c * 1000
  end.

Definition set (now : Z) (key : string) (value : json) (ttl : option Z)
    (c : cache) : cache :=
  {| stdTTL := stdTTL c;
     data := <[key := mkEntry value (livetime now c ttl)]> (data c) |}.

Definition expired (now : Z) (e : entry) : bool :=
  negb (t e =? 0) && (t e <? now).

Definition get (now : Z) (key : string) (c : cache) : option json * cache :=
  match data c !! key with
  | Some e =>
      if expired now e
      then (None, {| stdTTL := stdTTL c; data := delete key (data c) |})
      else (Some (v e), c)
  | None => if inherited key then (Some JNull, c) else (None, c)
  end.

Definition keys (c : cache) : list string := (map_to_list (data c)).*1.
End NodeCache.

(** ** Program state *)

Record ProviderManager := mkProviderManager {
  providers : list string;
  currentIndex : nat;
  failureCount : gmap nat nat;
}.

Record CacheStats := mkCacheStats {
  hits : nat;
  misses : nat;
  sets : nat;
}.

Record CacheManager := mkCacheManager {
  memoryCache : NodeCache.cache;
(** whether [redisClient] is a client ([true]) or [null] *)
redisClient : bool;
stats : CacheStats;
}.

(** What the program writes to the console and sends to Redis, in order. *)
Inductive Event : Type :=
| ProviderFailed (index : nat) (attempt maxRetries : Z) (msg : string)
| RedisGetError (e : Error)
| RedisSetError (e : Error)
| RedisSent (cmd : RedisCmd).

Section Program.
Context {R : Runtime}.

Record State := mkState {
  providerManager : ProviderManager;
  cache : CacheManager;
  world : World;
  trace : list Event;
}.

Definition withProviderManager (pm : ProviderManager) (s : State) : State :=
  {| providerManager := pm; cache := cache s; world := world s; trace := trace s |}.
Definition withCache (cm : CacheManager) (s : State) : State :=
  {| providerManager := providerManager s; cache := cm; world := world s; trace := trace s |}.
Definition withWorld (w : World) (s : State) : State :=
  {| providerManager := providerManager s; cache := cache s; world := w; trace := trace s |}.
Definition emit (ev : Event) (s : State) : State :=
  {| providerManager := providerManager s; cache := cache s; world := world s;
     trace := trace s ++ [ev] |}.

(** ** Asynchronous functions

    A call of an [async] function runs on the current state up to its first
    [await] and leaves a promise: settled ([Done]) or waiting ([Susp]) for a
    resumption, which runs again up to the next [await].  Between two
    resumptions of one function others may run. *)
#[warnings="-register-all"]
Inductive Co (A : Type) : Type :=
| Done (o : Outcome A)
| Susp (k : State -> State * Co A).
Arguments Done {A} o.
Arguments Susp {A} k.

Definition Async (A : Type) : Type := State -> State * Co A.

Definition ret {A} (a : A) : Async A := fun s => (s, Done (Returned a)).
Definition throw {A} (e : Error) : Async A := fun s => (s, Done (Thrown e)).

Fixpoint bindCo {A B} (c : Co A) (f : A -> Async B) (s : State) : State * Co B :=
  match c with
  | Done (Returned a) => f a s
  | Done (Thrown e) => (s, Done (Thrown e))
  | Susp k => (s, Susp (fun s1 => let '(s2, c') := k s1 in bindCo c' f s2))
  end.

Definition bind {A B} (m : Async A) (f : A -> Async B) : Async B :=
  fun s => let '(s1, c) := m s in bindCo c f s1.

(** [try { m } catch (e) { h e }] *)
Fixpoint catchCo {A} (c : Co A) (h : Error -> Async A) (s : State) : State * Co A :=
  match c with
  | Done (Returned a) => (s, Done (Returned a))
  | Done (Thrown e) => h e s
  | Susp k => (s, Susp (fun s1 => let '(s2, c') := k s1 in catchCo c' h s2))
  end.

Definition tryCatch {A} (m : Async A) (h : Error -> Async A) : Async A :=
  fun s => let '(s1, c) := m s in catchCo c h s1.

(** [await p] on the promise of an async call: the caller is suspended
    until the promise settles, also when it is settled already. *)
Fixpoint awaitCo {A} (c : Co A) : Co A :=
  match c with
  | Done o => Susp (fun s => (s, Done o))
  | Susp k => Susp (fun s1 => let '(s2, c') := k s1 in (s2, awaitCo c'))
  end.

Definition await {A} (m : Async A) : Async A :=
  fun s => let '(s1, c) := m s in (s1, awaitCo c).

(** Synchronous reads and writes of the state. *)
Definition gets {A} (f : State -> A) : Async A := fun s => (s, Done (Returned (f s))).
Definition modify (f : State -> State) : Async unit := fun s => (f s, Done (Returned tt)).

(** [await] on a call into the world: settled at the resumption. *)
Definition awaitWorld {A} (f : World -> Outcome A * World) : Async A :=
  fun s => (s, Susp (fun s1 =>
    let '(o, w) := f (world s1) in (withWorld w s1, Done o))).

(** Running a promise, and a call, to completion with nothing else
    scheduled in between. *)
Fixpoint complete {A} (c : Co A) (s : State) : State * Outcome A :=
  match c with
  | Done o => (s, o)
  | Susp k => let '(s', c') := k s in complete c' s'
  end.

Definition run {A} (m : Async A) (s : State) : State * Outcome A :=
  let '(s1, c) := m s in complete c s1.

End Program.
Arguments Done {R A} o.
Arguments Susp {R A} k.

Declare Scope async_scope.
Delimit Scope async_scope with async.
Notation "x <- m ;; k" := (bind m (fun x => k))
  (at level 100, m at next level, right associativity) : async_scope.
Notation "m ;; k" := (bind m (fun _ => k))
  (at level 100, right associativity) : async_scope.

(** ** Reasoning about promises *)
Section Promises.
Context {R : Runtime}.

(** Induction on a promise: the continuation may be assumed for the promise
    left by every resumption. *)
Fixpoint Co_induction {A} (P : Co A -> Prop)
    (HDone : forall o, P (Done o))
    (HSusp : forall k, (forall s, P (snd (k s))) -> P (Susp k))
    (c : Co A) : P c :=
  match c with
  | Done o => HDone o
  | Susp k => HSusp k (fun s => Co_induction P HDone HSusp (snd (k s)))
  end.

(** [reach c c']: the promise [c] becomes [c'] by resumptions of its own
    code, from whatever states the scheduler resumes it in. *)
Inductive reach {A} : Co A -> Co A -> Prop :=
| reach_here c : reach c c
| reach_resume k s c : reach (snd (k s)) c -> reach (Susp k) c.

(** [o] is an outcome of a call of [m]. *)
Definition settles {A} (m : Async A) (o : Outcome A) : Prop :=
  exists s, reach (snd (m s)) (Done o).

Definition startedFrom {A} (m : Async A) (c : Co A) : Prop :=
  exists s, reach (snd (m s)) c.

(** What a call does in one run of the program, as the list of its pieces:
    a piece is the state in which the call was made or resumed and the state
    it left when it next waited or settled. *)
Definition Piece : Type := State * State.

(** [progress c l c']: resumed in the first states of [l], one piece after
    the other, the promise [c] leaves their second states and is then
    [c']. *)
Inductive progress {A} : Co A -> list Piece -> Co A -> Prop :=
| progress_here c : progress c [] c
| progress_resume k s l c :
    progress (snd (k s)) l c -> progress (Susp k) ((s, fst (k s)) :: l) c.

(** The call [m] made in the first state of [l] and resumed in the first
    states of the other pieces has left the promise [c]. *)
Definition started {A} (m : Async A) (l : list Piece) (c : Co A) : Prop :=
  match l with
  | [] => False
  | (s, s') :: rest => fst (m s) = s' /\ progress (snd (m s)) rest c
  end.

(** ... and has settled with [o]: [l] is all the call ever ran. *)
Definition executes {A} (m : Async A) (l : list Piece) (o : Outcome A) : Prop :=
  started m l (Done o).

(** A run of several calls: the pieces in the order in which they ran,
    each with the position of its call; one piece starts in the state the
    piece before it left. *)
Fixpoint chained (s : State) (steps : list (nat * Piece)) (s' : State) : Prop :=
  match steps with
  | [] => s' = s
  | (_, (s1, s2)) :: rest => s1 = s /\ chained s2 rest s'
  end.

(** The pieces of the call at position [i] *)
Definition piecesOf (i : nat) (steps : list (nat * Piece)) : list Piece :=
  (filter (fun step => step.1 = i) steps).*2.

(** The calls [calls] are under way: after the pieces in [steps] the call
    at each position has left the promise at that position of [cs]. *)
Definition underWay {A} (calls : list (Async A)) (steps : list (nat * Piece))
    (cs : list (Co A)) : Prop :=
  length cs = length calls /\
  forall i m, calls !! i = Some m ->
    exists c, cs !! i = Some c /\ started m (piecesOf i steps) c.

(** [asyncInv P m]: every piece of [m] that runs without interruption takes
    a state in [P] to a state in [P], whatever ran before it was resumed,
    as long as that kept [P] too. *)
Section Invariant.
Variable P : State -> Prop.

Fixpoint coInv {A} (c : Co A) : Prop :=
  match c with
  | Done _ => True
  | Susp k => forall s, P s -> P (fst (k s)) /\ coInv (snd (k s))
  end.

Definition asyncInv {A} (m : Async A) : Prop :=
  forall s, P s -> P (fst (m s)) /\ coInv (snd (m s)).

End Invariant.
End Promises.

(** ** ProviderManager *)
Section Provider.
Context {R : Runtime}.
Local Open Scope async_scope.

(** The [operation] argument of [executeWithFallback]: given the provider
    read from [this.providers] ([None] for [undefined]), a call into the world
    that settles with a [T] or rejects. *)
Definition Operation (T : Type) : Type :=
  option string -> World -> Outcome T * World.

(** [this.providers[this.currentIndex]] *)
Definition getProvider (pm : ProviderManager) : option string :=
  providers pm !! currentIndex pm.

(** The [try] branch after the operation settled:
    [this.failureCount.set(this.currentIndex, 0)]. *)
Definition recordSuccess (pm : ProviderManager) : ProviderManager :=
  {| providers := providers pm;
     currentIndex := currentIndex pm;
     failureCount := <[currentIndex pm := 0%nat]> (failureCount pm) |}.

(** The [catch] branch: count the failure, then
    [this.currentIndex = (this.currentIndex + 1) % this.providers.length].
    (With an empty provider list JavaScript yields [NaN] here; the theorems
    below are about a manager with at least one provider.) *)
Definition recordFailure (pm : ProviderManager) : ProviderManager :=
  let failures := (default 0 (failureCount pm !! currentIndex pm) + 1)%nat in
  {| providers := providers pm;
     currentIndex := ((currentIndex pm + 1) mod length (providers pm))%nat;
     failureCount := <[currentIndex pm := failures]> (failureCount pm) |}.

(** One iteration of the [for] loop: [inl result] when the body returns,
    [inr lastError] when it falls through to the next iteration. *)
Definition attemptOnce {T} (operation : Operation T) (attempt maxRetries : Z)
  : Async (T + Error) :=
  provider <- gets (fun s => getProvider (providerManager s));;
  tryCatch
    (result <- awaitWorld (operation provider);;
     modify (fun s => withProviderManager (recordSuccess (providerManager s)) s);;
     ret (inl result))
    (fun error =>
       modify (fun s =>
         let pm := providerManager s in
         withProviderManager (recordFailure pm)
           (emit (ProviderFailed (currentIndex pm) (attempt + 1) maxRetries
                    (message error)) s));;
       ret (inr error)).

(** [`All providers failed after ${maxRetries} attempts: ${lastError?.message}`] *)
Definition exhaustedMessage (maxRetries : Z) (lastError : option Error) : string :=
  "All providers failed after " +:+ pretty maxRetries +:+ " attempts: " +:+
  match lastError with
  | Some e => message e
  | None => "undefined"
  end.

(** The loop [for (attempt; attempt < maxRetries; attempt++)] with [fuel]
    iterations left, and the [throw] after it. *)
Fixpoint attemptLoop {T} (operation : Operation T) (maxRetries : Z)
    (fuel : nat) (attempt : Z) (lastError : option Error) : Async T :=
  match fuel with
  | O => throw (newError (exhaustedMessage maxRetries lastError))
  | S fuel' =>
      r <- attemptOnce operation attempt maxRetries;;
      match r with
      | inl result => ret result
      | inr e => attemptLoop operation maxRetries fuel' (attempt + 1) (Some e)
      end
  end.

(** [maxRetries] is an integer; the loop runs [max 0 maxRetries] times. *)
Definition executeWithFallback {T} (operation : Operation T) (maxRetries : Z)
  : Async T :=
  attemptLoop operation maxRetries (Z.to_nat maxRetries) 0 None.

(** [getStats()] of the provider manager *)
Definition providerStats (pm : ProviderManager) : nat * nat * gmap nat nat :=
  (length (providers pm), currentIndex pm, failureCount pm).

End Provider.

(** ** Vocabulary for the properties of the provider manager *)
Section ProviderVocabulary.
Context {R : Runtime}.

(** The first [k] attempts of [operation], made from cursor [c] in world
    [w] over the providers [ps]: [Some] of the endpoint and the error of each
    attempt and of the world they leave when all of them fail, [None] when
    one of them succeeds. *)
Fixpoint failures {T} (operation : Operation T) (ps : list string)
    (c : nat) (w : World) (k : nat) : option (list (nat * Error) * World) :=
  match k with
  | O => Some ([], w)
  | S k' =>
      match operation (ps !! c) w with
      | (Thrown e, w') =>
          match failures operation ps ((c + 1) mod length ps)%nat w' k' with
          | Some (l, w'') => Some ((c, e) :: l, w'')
          | None => None
          end
      | (Returned _, _) => None
      end
  end.

(** An operation that fails whatever the provider and the world. *)
Definition alwaysFails {T} (operation : Operation T) : Prop :=
  forall p w, exists e, fst (operation p w) = Thrown e.

(** How many of [k] attempts made from cursor [c] over [n] endpoints are
    made on endpoint [i]. *)
Definition attemptsOn (n c k i : nat) : nat :=
  length (List.filter (fun j => ((c + j) mod n =? i)%nat) (seq 0 k)).

(** The warnings of the failed attempts [l], the first of them numbered
    [attempt + 1]. *)
Fixpoint warnings (attempt maxRetries : Z) (l : list (nat * Error)) : list Event :=
  match l with
  | [] => []
  | (i, e) :: rest =>
      ProviderFailed i (attempt + 1) maxRetries (message e)
      :: warnings (attempt + 1) maxRetries rest
  end.

Fixpoint failN (k : nat) (pm : ProviderManager) : ProviderManager :=
  match k with
  | O => pm
  | S k' => failN k' (recordFailure pm)
  end.

Definition count (pm : ProviderManager) (i : nat) : nat :=
  default 0%nat (failureCount pm !! i).

End ProviderVocabulary.

(** ** CacheManager *)
Section Cache.
Context {R : Runtime}.
Local Open Scope async_scope.

Definition withMemoryCache (mc : NodeCache.cache) (cm : CacheManager) : CacheManager :=
  {| memoryCache := mc; redisClient := redisClient cm; stats := stats cm |}.
Definition withStats (st : CacheStats) (cm : CacheManager) : CacheManager :=
  {| memoryCache := memoryCache cm; redisClient := redisClient cm; stats := st |}.

Definition hitsIncr (cm : CacheManager) : CacheManager :=
  withStats {| hits := S (hits (stats cm)); misses := misses (stats cm);
               sets := sets (stats cm) |} cm.
Definition missesIncr (cm : CacheManager) : CacheManager :=
  withStats {| hits := hits (stats cm); misses := S (misses (stats cm));
               sets := sets (stats cm) |} cm.
Definition setsIncr (cm : CacheManager) : CacheManager :=
  withStats {| hits := hits (stats cm); misses := misses (stats cm);
               sets := S (sets (stats cm)) |} cm.

(** The constructor, with [CONFIG.USE_REDIS && CONFIG.REDIS_URL] decided. *)
Definition newCacheManager (useRedis : bool) : CacheManager :=
  {| memoryCache := NodeCache.create CONFIG.CACHE_TTL;
     redisClient := useRedis;
     stats := {| hits := 0; misses := 0; sets := 0 |} |}.

(** [await this.redisClient.<cmd>(...)]: the command is sent at the call
    and answered at the resumption. *)
Definition awaitRedis (cmd : RedisCmd) : Async (option string) :=
  modify (emit (RedisSent cmd));;
  awaitWorld (redis cmd).

(** [this.memoryCache.get(key)], [undefined] as [None] *)
Definition memoryGet (key : string) : Async (option json) :=
  fun s =>
    let '(o, mc) := NodeCache.get (Date_now (world s)) key (memoryCache (cache s)) in
    (withCache (withMemoryCache mc (cache s)) s, Done (Returned o)).

(** [this.memoryCache.set(key, value, ttl)] *)
Definition memorySet (key : string) (value : json) (ttl : option Z) : Async unit :=
  modify (fun s =>
    withCache (withMemoryCache
      (NodeCache.set (Date_now (world s)) key value ttl (memoryCache (cache s)))
      (cache s)) s).

(** [if (redisValue)]: a non-empty string *)
Definition nonEmpty (o : option string) : option string :=
  match o with
  | Some s => if String.eqb s "" then None else Some s
  | None => None
  end.

(** The [try] block of [get]: [Some parsed] when it returns from inside,
    [None] when control leaves the block normally. *)
Definition redisLookup (key : string) : Async (option json) :=
  tryCatch
    (redisValue <- awaitRedis (GET key);;
     match nonEmpty redisValue with
     | Some text =>
         match JSON_parse text with
         | Returned parsed =>
             memorySet key parsed None;;
             modify (fun s => withCache (hitsIncr (cache s)) s);;
             ret (Some parsed)
         | Thrown e => throw e
         end
     | None => ret None
     end)
    (fun error => modify (emit (RedisGetError error));; ret None).

(** [async get<T>(key): Promise<T | null>] *)
Definition CacheManager_get (key : string) : Async json :=
  memoryValue <- memoryGet key;;
  match memoryValue with
  | Some value =>
      modify (fun s => withCache (hitsIncr (cache s)) s);;
      ret value
  | None =>
      hasRedis <- gets (fun s => redisClient (cache s));;
      found <- (if hasRedis : bool then redisLookup key else ret None);;
      match found with
      | Some parsed => ret parsed
      | None =>
          modify (fun s => withCache (missesIncr (cache s)) s);;
          ret JNull
      end
  end.

(** [if (ttl)]: a given, non-zero number *)
Definition givenTtl (ttl : option Z) : option Z :=
  match ttl with
  | Some n => if n =? 0 then None else Some n
  | None => None
  end.

(** [async set<T>(key, value, ttl?): Promise<void>] *)
Definition CacheManager_set (key : string) (value : json) (ttl : option Z)
  : Async unit :=
  memorySet key value ttl;;
  hasRedis <- gets (fun s => redisClient (cache s));;
  (if hasRedis : bool then
     tryCatch
       (let serialized := JSON_stringify value in
        match givenTtl ttl with
        | Some n => awaitRedis (SETEX key n serialized);; ret tt
        | None => awaitRedis (SET key serialized);; ret tt
        end)
       (fun error => modify (emit (RedisSetError error)))
   else ret tt);;
  modify (fun s => withCache (setsIncr (cache s)) s).

(** The command [set] sends to Redis. *)
Definition setCommand (key : string) (value : json) (ttl : option Z) : RedisCmd :=
  match givenTtl ttl with
  | Some n => SETEX key n (JSON_stringify value)
  | None => SET key (JSON_stringify value)
  end.

(** The state [set] leaves. *)
Definition afterSet (key : string) (value : json) (ttl : option Z) (s : State) : State :=
  let s1 := withCache (withMemoryCache
              (NodeCache.set (Date_now (world s)) key value ttl (memoryCache (cache s)))
              (cache s)) s in
  let s3 :=
    if redisClient (cache s) then
      let cmd := setCommand key value ttl in
      let s2 := withWorld (snd (redis cmd (world s))) (emit (RedisSent cmd) s1) in
      match fst (redis cmd (world s)) with
      | Returned _ => s2
      | Thrown e => emit (RedisSetError e) s2
      end
    else s1 in
  withCache (setsIncr (cache s3)) s3.

End Cache.

(** ** Utility functions and the error handler *)
Section Routes.
Context {R : Runtime}.
Local Open Scope async_scope.

(** The character class [[a-z0-9-]] *)
Definition isLabelChar (c : ascii) : bool :=
  let n := nat_of_ascii c in
  ((97 <=? n) && (n <=? 122) || (48 <=? n) && (n <=? 57) || (n =? 45))%nat.

(** [/^[a-z0-9-]+\.eth$/.test(s)]: the longest run of label characters,
    not empty ([seen]), and then exactly [.eth]. *)
Fixpoint matchesEnsName (seen : bool) (s : string) : bool :=
  match s with
  | EmptyString => false
  | String c rest =>
      if isLabelChar c then matchesEnsName true rest
      else seen && String.eqb s ".eth"
  end.

Definition isValidENSName (name : string) : bool :=
  matchesEnsName false (String_toLowerCase name).

Definition isValidAddress (address : string) : bool := isAddress address.

Definition sanitizeInput (input : string) : string :=
  String_toLowerCase (String_trim input).

(** [createError(message, statusCode = 500)] *)
Definition createError (msg : string) (code : Z) : Error :=
  {| message := msg; statusCode := Some code; isOperational := true |}.

Record HttpResponse := mkResponse {
  status : Z;
  body : json;
}.

(** [errorHandler]: the response to [next(err)]. *)
Definition errorHandler (err : Error) (requestId : string) (now : Z) : HttpResponse :=
  let code := match statusCode err with
              | Some c => if c =? 0 then 500 else c
              | None => 500
              end in
  let msg := if isOperational err then message err else "Internal server error" in
  {| status := code;
     body := JObj [("error", JStr msg); ("requestId", JStr requestId);
                   ("timestamp", JStr (toISOString now))] |}.

(** A route handler settles with the body it passes to [res.json] (status
    200) or with the error it passes to [next]. *)
Definition respond (o : Outcome json) (requestId : string) (now : Z) : HttpResponse :=
  match o with
  | Returned b => {| status := 200; body := b |}
  | Thrown err => errorHandler err requestId now
  end.

(** [new Date().toISOString()] *)
Definition timestamp : Async string :=
  gets (fun s => toISOString (Date_now (world s))).

Definition typeError (msg : string) : Error := newError msg.

(** [(provider) => provider.resolveName(name)] *)
Definition resolveNameOp (name : string) : Operation (option string) :=
  fun provider w =>
    match provider with
    | Some url => rpc url (ResolveName name) w
    | None =>
        (Thrown (typeError "Cannot read properties of undefined (reading 'resolveName')"), w)
    end.

(** [(provider) => provider.lookupAddress(address)] *)
Definition lookupAddressOp (address : string) : Operation (option string) :=
  fun provider w =>
    match provider with
    | Some url => rpc url (LookupAddress address) w
    | None =>
        (Thrown (typeError "Cannot read properties of undefined (reading 'lookupAddress')"), w)
    end.

(** [{ ...v, cached: b }] *)
Definition withCachedFlag (b : bool) (v : json) : json :=
  JObj (setField "cached" (JBool b) (spreadAll v)).

(** [name || null] on a nullable string *)
Definition orNull (o : option string) : json :=
  if truthy (ofNullable o) then ofNullable o else JNull.

(** [app.get("/resolve/:name", ...)] *)
Definition resolveRoute (param : string) : Async json :=
  let name := sanitizeInput param in
  if negb (isValidENSName name) then throw (createError "Invalid ENS name format" 400)
  else
    let cacheKey := "resolve:" +:+ name in
    cached <- await (CacheManager_get cacheKey);;
    if truthy cached then ret (withCachedFlag true cached)
    else
      address <- await (executeWithFallback (resolveNameOp name) 3);;
      if negb (truthy (ofNullable address))
      then throw (createError "ENS name not found" 404)
      else
        ts <- timestamp;;
        let result := JObj [("name", JStr name); ("address", ofNullable address);
                            ("timestamp", JStr ts)] in
        await (CacheManager_set cacheKey result None);;
        ret (withCachedFlag false result).

(** [app.get("/reverse/:address", ...)] *)
Definition reverseRoute (param : string) : Async json :=
  let address := sanitizeInput param in
  if negb (isValidAddress address) then throw (createError "Invalid Ethereum address" 400)
  else
    let cacheKey := "reverse:" +:+ address in
    cached <- await (CacheManager_get cacheKey);;
    if truthy cached then ret (withCachedFlag true cached)
    else
      name <- await (executeWithFallback (lookupAddressOp address) 3);;
      ts <- timestamp;;
      let result := JObj [("address", JStr address); ("name", orNull name);
                          ("timestamp", JStr ts)] in
      await (CacheManager_set cacheKey result None);;
      ret (withCachedFlag false result).

(** [async (provider) => (await provider.getResolver(name))?.getAvatar()] *)
Definition avatarOp (name : string) : Operation (option string) :=
  fun provider w =>
    match provider with
    | Some url =>
        match rpc url (GetResolver name) w with
        | (Returned (Some _), w1) => rpc url (GetAvatar name) w1
        | (Returned None, w1) => (Returned None, w1)
        | (Thrown e, w1) => (Thrown e, w1)
        end
    | None =>
        (Thrown (typeError "Cannot read properties of undefined (reading 'getResolver')"), w)
    end.

(** [app.get("/avatar/:name", ...)] *)
Definition avatarRoute (param : string) : Async json :=
  let name := sanitizeInput param in
  if negb (isValidENSName name) then throw (createError "Invalid ENS name format" 400)
  else
    let cacheKey := "avatar:" +:+ name in
    cached <- await (CacheManager_get cacheKey);;
    if truthy cached then ret (withCachedFlag true cached)
    else
      avatar <- await (executeWithFallback (avatarOp name) 3);;
      ts <- timestamp;;
      let result := JObj [("name", JStr name); ("avatar", orNull avatar);
                          ("timestamp", JStr ts)] in
      await (CacheManager_set cacheKey result None);;
      ret (withCachedFlag false result).

Definition recordKeys : list string :=
  [ "email"; "url"; "avatar"; "description"; "com.twitter"; "com.github";
    "com.discord"; "com.telegram" ].

(** [keys.map(async (key) => ...)] and [Promise.all]: one [getText] per
    key, a failed one read as [null]. *)
Fixpoint textRecords (url name : string) (keys : list string) (w : World)
  : list (string * json) * World :=
  match keys with
  | [] => ([], w)
  | key :: rest =>
      let '(o, w1) := rpc url (GetText name key) w in
      let value := match o with
                   | Returned x => orNull x
                   | Thrown _ => JNull
                   end in
      let '(entries, w2) := textRecords url name rest w1 in
      ((key, value) :: entries, w2)
  end.

(** The operation of the records route. *)
Definition recordsOp (name : string) : Operation json :=
  fun provider w =>
    match provider with
    | Some url =>
        match rpc url (GetResolver name) w with
        | (Returned (Some _), w1) =>
            let '(entries, w2) := textRecords url name recordKeys w1 in
            (Returned (JObj entries), w2)
        | (Returned None, w1) => (Thrown (createError "ENS resolver not found" 404), w1)
        | (Thrown e, w1) => (Thrown e, w1)
        end
    | None =>
        (Thrown (typeError "Cannot read properties of undefined (reading 'getResolver')"), w)
    end.

(** [app.get("/records/:name", ...)] *)
Definition recordsRoute (param : string) : Async json :=
  let name := sanitizeInput param in
  if negb (isValidENSName name) then throw (createError "Invalid ENS name format" 400)
  else
    let cacheKey := "records:" +:+ name in
    cached <- await (CacheManager_get cacheKey);;
    if truthy cached then ret (withCachedFlag true cached)
    else
      records <- await (executeWithFallback (recordsOp name) 3);;
      ts <- timestamp;;
      let result := JObj [("name", JStr name); ("records", records);
                          ("timestamp", JStr ts)] in
      await (CacheManager_set cacheKey result None);;
      ret (withCachedFlag false result).

(** ** The batch route *)

Definition liftOutcome {A} (o : Outcome A) : Async A := fun s => (s, Done o).

(** [op.<k>] on a value parsed from the request body: reading a property
    of [null] throws, a value that is no object has no such property. *)
Definition property (k : string) (op : json) : Outcome (option json) :=
  match op with
  | JNull => Thrown (typeError ("Cannot read properties of null (reading '" +:+ k +:+ "')"))
  | JObj fields => Returned (getField k fields)
  | _ => Returned None
  end.

(** [sanitizeInput(x)] on an untyped argument: only a string has [trim]. *)
Definition sanitizeAny (x : option json) : Outcome string :=
  match x with
  | Some (JStr s) => Returned (sanitizeInput s)
  | Some JNull => Thrown (typeError "Cannot read properties of null (reading 'trim')")
  | None => Thrown (typeError "Cannot read properties of undefined (reading 'trim')")
  | Some _ => Thrown (typeError "input.trim is not a function")
  end.

Definition isString (expected : string) (x : option json) : bool :=
  match x with
  | Some (JStr s) => String.eqb s expected
  | _ => false
  end.

(** The callback of [operations.map(async (op) => ...)] *)
Definition batchOperation (op : json) : Async json :=
  ty <- liftOutcome (property "type" op);;
  if isString "resolve" ty then
    x <- liftOutcome (property "name" op);;
    name <- liftOutcome (sanitizeAny x);;
    let cacheKey := "resolve:" +:+ name in
    cached <- await (CacheManager_get cacheKey);;
    if truthy cached then ret cached
    else
      address <- await (executeWithFallback (resolveNameOp name) 3);;
      let result := JObj [("name", JStr name); ("address", ofNullable address)] in
      await (CacheManager_set cacheKey result None);;
      ret result
  else if isString "reverse" ty then
    x <- liftOutcome (property "address" op);;
    address <- liftOutcome (sanitizeAny x);;
    let cacheKey := "reverse:" +:+ address in
    cached <- await (CacheManager_get cacheKey);;
    if truthy cached then ret cached
    else
      name <- await (executeWithFallback (lookupAddressOp address) 3);;
      let result := JObj [("address", JStr address); ("name", ofNullable name)] in
      await (CacheManager_set cacheKey result None);;
      ret result
  else throw (newError "Invalid operation type").

(** [Promise.allSettled(tasks.map(call))]: every call runs to its first
    [await] in list order ([spawn]); then the waiting promises are resumed
    one at a time in an order the program does not choose, given here as
    the list [sched] of positions ([interleave]); what still waits when
    [sched] ends is run to completion in list order ([drain]). *)
Fixpoint spawn {A} (calls : list (Async A)) (s : State) : State * list (Co A) :=
  match calls with
  | [] => (s, [])
  | m :: rest =>
      let '(s1, c) := m s in
      let '(s2, cs) := spawn rest s1 in
      (s2, c :: cs)
  end.

Definition resume {A} (i : nat) (cs : list (Co A)) (s : State) : State * list (Co A) :=
  match cs !! i with
  | Some (Susp k) => let '(s', c') := k s in (s', <[i := c']> cs)
  | _ => (s, cs)
  end.

Fixpoint interleave {A} (sched : list nat) (cs : list (Co A)) (s : State)
  : State * list (Co A) :=
  match sched with
  | [] => (s, cs)
  | i :: rest => let '(s', cs') := resume i cs s in interleave rest cs' s'
  end.

Fixpoint drain {A} (cs : list (Co A)) (s : State) : State * list (Outcome A) :=
  match cs with
  | [] => (s, [])
  | c :: rest =>
      let '(s1, o) := complete c s in
      let '(s2, os) := drain rest s1 in
      (s2, o :: os)
  end.

Definition allSettled {A} (sched : list nat) (calls : list (Async A)) (s : State)
  : State * list (Outcome A) :=
  let '(s1, cs) := spawn calls s in
  let '(s2, cs') := interleave sched cs s1 in
  drain cs' s2.

(** [results.map((r, i) => ({ index, status, data, error }))] *)
Definition settledEntry (i : nat) (r : Outcome json) : json :=
  match r with
  | Returned value =>
      JObj [("index", JNum (Z.of_nat i)); ("status", JStr "fulfilled");
            ("data", value); ("error", JNull)]
  | Thrown reason =>
      JObj [("index", JNum (Z.of_nat i)); ("status", JStr "rejected");
            ("data", JNull); ("error", JStr (message reason))]
  end.

(** [const { operations } = req.body] *)
Definition bodyOperations (reqBody : json) : option json :=
  match reqBody with
  | JObj fields => getField "operations" fields
  | _ => None
  end.

(** [app.post("/batch", ...)], run with nothing but its own sub-operations
    scheduled while it waits for them. *)
Definition batchRoute (sched : list nat) (reqBody : json) (s : State)
  : State * Outcome json :=
  match bodyOperations reqBody with
  | Some (JArr (op :: ops)) =>
      let operations := op :: ops in
      if (10 <? length operations)%nat
      then (s, Thrown (createError "Batch size limit exceeded (max 10)" 400))
      else
        let '(s', results) := allSettled sched (map batchOperation operations) s in
        (s', Returned (JObj [("results", JArr (imap settledEntry results))]))
  | _ => (s, Thrown (createError "Invalid batch request format" 400))
  end.

End Routes.

(** ** Vocabulary for the properties of the trace *)
(** No route ever sends [SETEX]. *)
Definition notSetex (ev : Event) : Prop :=
  match ev with
  | RedisSent (SETEX _ _ _) => False
  | _ => True
  end.

(** A warning of [executeWithFallback]. *)
Definition isWarning (ev : Event) : Prop :=
  match ev with
  | ProviderFailed _ _ _ _ => True
  | _ => False
  end.

(** From [s] to [s'] the program logged or sent nothing but [l], and no
    [SETEX] is among it. *)
Definition sentNoSetex {R : Runtime} (s s' : State) : Prop :=
  exists l, trace s' = (trace s ++ l)%list /\ Forall notSetex l.

(** ** A reference runtime

    One concrete world to run the program in: a manual clock, a Redis
    server that keeps strings with an optional expiry and can be down, RPC
    endpoints that are dead or answer from two tables of records, and the
    built-ins on ASCII text. *)
Module Reference.

Definition dquote : ascii := ascii_of_nat 34.

(** JSON text without white space; strings are written unescaped. *)
Fixpoint stringify (v : json) : string :=
  match v with
  | JNull => "null"
  | JBool true => "true"
  | JBool false => "false"
  | JNum n => pretty n
  | JStr s => String dquote (s +:+ String dquote EmptyString)
  | JArr items =>
      "[" +:+
      (fix go (l : list json) : string :=
         match l with
         | [] => ""
         | x :: rest =>
             stringify x +:+ match rest with [] => "" | _ => "," +:+ go rest end
         end) items +:+ "]"
  | JObj fields =>
      "{" +:+
      (fix go (l : list (string * json)) : string :=
         match l with
         | [] => ""
         | (k, x) :: rest =>
             String dquote (k +:+ String dquote EmptyString) +:+ ":" +:+ stringify x +:+
             match rest with [] => "" | _ => "," +:+ go rest end
         end) fields +:+ "}"
  end.

Definition isDigit (c : ascii) : bool :=
  let n := nat_of_ascii c in ((48 <=? n) && (n <=? 57))%nat.

Fixpoint readString (cs : list ascii) : option (string * list ascii) :=
  match cs with
  | [] => None
  | c :: rest =>
      if Ascii.eqb c dquote then Some (EmptyString, rest)
      else match readString rest with
           | Some (s, rest') => Some (String c s, rest')
           | None => None
           end
  end.

Fixpoint readDigits (acc : Z) (cs : list ascii) : Z * list ascii :=
  match cs with
  | c :: rest =>
      if isDigit c then readDigits (acc * 10 + Z.of_nat (nat_of_ascii c - 48)) rest
      else (acc, cs)
  | [] => (acc, [])
  end.

Section Parser.
Context (value : list ascii -> option (json * list ascii)).

Fixpoint parseItems (n : nat) (cs : list ascii) : option (list json * list ascii) :=
  match n with
  | O => None
  | S n' =>
      match value cs with
      | Some (x, ","%char :: rest) =>
          match parseItems n' rest with
          | Some (xs, rest') => Some (x :: xs, rest')
          | None => None
          end
      | Some (x, "]"%char :: rest) => Some ([x], rest)
      | _ => None
      end
  end.

Fixpoint parseFields (n : nat) (cs : list ascii)
  : option (list (string * json) * list ascii) :=
  match n with
  | O => None
  | S n' =>
      match cs with
      | q :: cs1 =>
          if Ascii.eqb q dquote then
            match readString cs1 with
            | Some (k, ":"%char :: cs2) =>
                match value cs2 with
                | Some (x, ","%char :: rest) =>
                    match parseFields n' rest with
                    | Some (xs, rest') => Some ((k, x) :: xs, rest')
                    | None => None
                    end
                | Some (x, "}"%char :: rest) => Some ([(k, x)], rest)
                | _ => None
                end
            | _ => None
            end
          else None
      | [] => None
      end
  end.
End Parser.

Fixpoint parseValue (fuel : nat) (cs : list ascii) : option (json * list ascii) :=
  match fuel with
  | O => None
  | S fuel' =>
      match cs with
      | "n"%char :: "u"%char :: "l"%char :: "l"%char :: rest => Some (JNull, rest)
      | "t"%char :: "r"%char :: "u"%char :: "e"%char :: rest => Some (JBool true, rest)
      | "f"%char :: "a"%char :: "l"%char :: "s"%char :: "e"%char :: rest =>
          Some (JBool false, rest)
      | "["%char :: "]"%char :: rest => Some (JArr [], rest)
      | "["%char :: rest =>
          match parseItems (parseValue fuel') (length rest) rest with
          | Some (xs, rest') => Some (JArr xs, rest')
          | None => None
          end
      | "{"%char :: "}"%char :: rest => Some (JObj [], rest)
      | "{"%char :: rest =>
          match parseFields (parseValue fuel') (length rest) rest with
          | Some (xs, rest') => Some (JObj xs, rest')
          | None => None
          end
      | "-"%char :: c :: rest =>
          if isDigit c then
            let '(n, rest') := readDigits 0 (c :: rest) in Some (JNum (- n), rest')
          else None
      | c :: rest =>
          if Ascii.eqb c dquote then
            match readString rest with
            | Some (s, rest') => Some (JStr s, rest')
            | None => None
            end
          else if isDigit c then
            let '(n, rest') := readDigits 0 cs in Some (JNum n, rest')
          else None
      | [] => None
      end
  end.

Definition parse (text : string) : Outcome json :=
  match parseValue (S (String.length text)) (String.list_ascii_of_string text) with
  | Some (v, []) => Returned v
  | _ => Thrown (newError "Unexpected token in JSON")
  end.

Definition isSpace (c : ascii) : bool :=
  let n := nat_of_ascii c in ((n =? 32) || (9 <=? n) && (n <=? 13))%nat.

Fixpoint trimStart (s : string) : string :=
  match s with
  | String c rest => if isSpace c then trimStart rest else s
  | EmptyString => EmptyString
  end.

Fixpoint trimEnd (s : string) : string :=
  match s with
  | String c rest =>
      match trimEnd rest with
      | EmptyString => if isSpace c then EmptyString else String c EmptyString
      | rest' => String c rest'
      end
  | EmptyString => EmptyString
  end.

Definition trim (s : string) : string := trimEnd (trimStart s).

Definition lowerChar (c : ascii) : ascii :=
  let n := nat_of_ascii c in
  if ((65 <=? n) && (n <=? 90))%nat then ascii_of_nat (n + 32) else c.

Fixpoint toLowerCase (s : string) : string :=
  match s with
  | String c rest => String (lowerChar c) (toLowerCase rest)
  | EmptyString => EmptyString
  end.

Definition isHex (c : ascii) : bool :=
  let n := nat_of_ascii c in
  (isDigit c || (97 <=? n) && (n <=? 102) || (65 <=? n) && (n <=? 70))%nat.

(** [0x] and forty hexadecimal digits (the checksum of a mixed-case
    address is not examined). *)
Definition isHexAddress (s : string) : bool :=
  match s with
  | String "0" (String "x" digits) =>
      (String.length digits =? 40)%nat && forallb isHex (String.list_ascii_of_string digits)
  | _ => false
  end.

(** [s.length] of the text whose UTF-8 encoding is [s]: one code unit for
    a character of up to three bytes, two for one of four bytes. *)
Definition codeUnits (c : ascii) : nat :=
  let n := nat_of_ascii c in
  if (n <? 128)%nat then 1%nat
  else if (n <? 192)%nat then 0%nat
  else if (n <? 240)%nat then 1%nat
  else 2%nat.

Fixpoint utf16Length (s : string) : nat :=
  match s with
  | String c rest => (codeUnits c + utf16Length rest)%nat
  | EmptyString => 0%nat
  end.

Record server := mkServer {
  now : Z;
  redisDown : bool;
(** a stored string and its expiry time, if it has one *)
redisData : gmap string (string * option Z);
deadEndpoints : list string;
addressOf : list (string * string);
nameOf : list (string * string);
}.

Definition withRedisData (d : gmap string (string * option Z)) (w : server) : server :=
  {| now := now w; redisDown := redisDown w; redisData := d;
     deadEndpoints := deadEndpoints w; addressOf := addressOf w; nameOf := nameOf w |}.

(** The clock moves on by [dt] milliseconds. *)
Definition elapse (dt : Z) (w : server) : server :=
  {| now := now w + dt; redisDown := redisDown w; redisData := redisData w;
     deadEndpoints := deadEndpoints w; addressOf := addressOf w; nameOf := nameOf w |}.

Definition redisServer (cmd : RedisCmd) (w : server) : Outcome (option string) * server :=
  if redisDown w then (Thrown (newError "Connection is closed."), w)
  else
    match cmd with
    | GET key =>
        match redisData w !! key with
        | Some (value, Some expiry) =>
            if expiry <=? now w
            then (Returned None, withRedisData (delete key (redisData w)) w)
            else (Returned (Some value), w)
        | Some (value, None) => (Returned (Some value), w)
        | None => (Returned None, w)
        end
    | SET key value =>
        (Returned (Some "OK"), withRedisData (<[key := (value, None)]> (redisData w)) w)
    | SETEX key seconds value =>
        if seconds <=? 0
        then (Thrown (newError "ERR invalid expire time in 'setex' command"), w)
        else (Returned (Some "OK"),
              withRedisData (<[key := (value, Some (now w + seconds * 1000))]> (redisData w)) w)
    end.

Fixpoint assoc (k : string) (l : list (string * string)) : option string :=
  match l with
  | [] => None
  | (k', x) :: rest => if String.eqb k' k then Some x else assoc k rest
  end.

Definition resolverAddress : string := "0x231b0ee14048e9dccd1d247744d114a4eb5e8e63".

Definition endpoint (url : string) (call : RpcCall) (w : server)
  : Outcome (option string) * server :=
  if existsb (String.eqb url) (deadEndpoints w)
  then (Thrown (newError ("could not detect network: " +:+ url)), w)
  else
    match call with
    | ResolveName name => (Returned (assoc name (addressOf w)), w)
    | LookupAddress address => (Returned (assoc address (nameOf w)), w)
    | GetResolver name =>
        (Returned (match assoc name (addressOf w) with
                   | Some _ => Some resolverAddress
                   | None => None
                   end), w)
    | GetAvatar name => (Returned None, w)
    | GetText name key => (Returned None, w)
    end.

Definition isoString (ms : Z) : string := "T+" +:+ pretty ms +:+ "ms".

#[export] Instance runtime : Runtime := {|
  World := server;
  Date_now := now;
  toISOString := isoString;
  redis := redisServer;
  rpc := endpoint;
  JSON_parse := parse;
  JSON_stringify := stringify;
  String_trim := trim;
  String_toLowerCase := toLowerCase;
  String_length := utf16Length;
  isAddress := isHexAddress;
|}.

Definition vitalik : string := "0xd8da6bf26964af9d7eed9e03e53415d37aa96045".

(** Redis up and empty, the first two configured endpoints dead. *)
Definition world0 : server :=
  {| now := 1000; redisDown := false; redisData := ∅;
     deadEndpoints := take 2 CONFIG.RPC_PROVIDERS;
     addressOf := [("vitalik.eth", vitalik)];
     nameOf := [(vitalik, "vitalik.eth")] |}.

(** Every configured endpoint dead. *)
Definition blackout : server :=
  {| now := 1000; redisDown := false; redisData := ∅;
     deadEndpoints := CONFIG.RPC_PROVIDERS;
     addressOf := [("vitalik.eth", vitalik)];
     nameOf := [(vitalik, "vitalik.eth")] |}.

(** Redis unreachable. *)
Definition redisLost : server :=
  {| now := 1000; redisDown := true; redisData := ∅;
     deadEndpoints := [];
     addressOf := [("vitalik.eth", vitalik)];
     nameOf := [(vitalik, "vitalik.eth")] |}.

Definition state0 (useRedis : bool) (w : server) : State :=
  {| providerManager :=
       {| providers := CONFIG.RPC_PROVIDERS; currentIndex := 0; failureCount := ∅ |};
     cache := newCacheManager useRedis;
     world := w;
     trace := [] |}.

(** A process restarted on a Redis server that holds the result of an
    earlier lookup: the memory cache is empty again. *)
Definition restarted : State :=
  let earlier := fst (run (resolveRoute "vitalik.eth") (state0 true world0)) in
  withCache (newCacheManager true) earlier.

Definition nobody : string := "0x00000000000000000000000000000000000000aa".

End Reference.

(** ** Cache statistics

    The counters are JavaScript numbers: IEEE 754 binary64, here the
    arithmetic of [SpecFloat] at precision 53. *)
Module Stats.

(** The binary64 format: 53 bits of precision, exponents below 1024. *)
Definition prec : Z := 53.
Definition emax : Z := 1024.

Definition Number_add := SFadd prec emax.
Definition Number_mul := SFmul prec emax.
Definition Number_div := SFdiv prec emax.
Definition Number_gt (x y : spec_float) : bool := SFltb y x.

(** The number a counter holds after [n] increments from zero, for [n] up
    to [2^53] (where [++] stops changing a JavaScript number). *)
Definition number (n : nat) : spec_float :=
  binary_normalize prec emax (Z.of_nat n) 0 false.

Definition twoDigits (n : Z) : string :=
  pretty (n / 10) +:+ pretty (n mod 10).

(** [x.toFixed(2)]: the integer [n] nearest to [x * 100], the larger one
    of two equally near, written with the point before its last two
    digits.  (For [|x| >= 1e21] JavaScript switches to exponent notation;
    only smaller values are modelled.) *)
Definition toFixed2 (x : spec_float) : string :=
  match x with
  | S754_nan => "NaN"
  | S754_infinity false => "Infinity"
  | S754_infinity true => "-Infinity"
  | S754_zero _ => "0.00"
  | S754_finite s m e =>
      let n := match e with
               | Zneg p => (200 * Zpos m + 2 ^ Zpos p) / (2 * 2 ^ Zpos p)
               | _ => 100 * Zpos m * 2 ^ e
               end in
      (if s then "-" else "") +:+ pretty (n / 100) +:+ "." +:+ twoDigits (n mod 100)
  end.

(** [getStats().hitRate] *)
Definition hitRate (st : CacheStats) : string :=
  let h := number (hits st) in
  let m := number (misses st) in
  (if Number_gt (Number_add h m) (number 0)
   then toFixed2 (Number_mul (Number_div h (Number_add h m)) (number 100))
   else "0.00") +:+ "%".

(** [getStats()]: the counters, the hit rate and the number of keys *)
Definition getStats (cm : CacheManager) : json :=
  JObj [("hits", JNum (Z.of_nat (hits (stats cm))));
        ("misses", JNum (Z.of_nat (misses (stats cm))));
        ("sets", JNum (Z.of_nat (sets (stats cm))));
        ("hitRate", JStr (hitRate (stats cm)));
        ("memoryKeys", JNum (Z.of_nat (length (NodeCache.keys (memoryCache cm)))))].

(** Vocabulary for the properties of the hit rate: the magnitude
    [digits + exponent] of a finite number [m * 2^e], which lies in
    [[2^(magnitude - 1), 2^magnitude)], its exponent and its sign. *)
Definition magnitude (x : spec_float) : Z :=
  match x with
  | S754_finite _ m e => Z.pos (digits2_pos m) + e
  | _ => 0
  end.

Definition exponent (x : spec_float) : Z :=
  match x with
  | S754_finite _ _ e => e
  | _ => 0
  end.

Definition isPositive (x : spec_float) : Prop :=
  match x with
  | S754_finite s _ _ => s = false
  | _ => False
  end.

Definition isZeroOrPositive (x : spec_float) : Prop :=
  match x with
  | S754_zero _ => True
  | S754_finite s _ _ => s = false
  | _ => False
  end.

(** What a counter between 1 and [2^53 - 1] is as a number. *)
Definition counterLike (x : spec_float) : Prop :=
  isPositive x /\ -52 <= exponent x /\ 1 <= magnitude x <= 54.

(** [100] as a number *)
Definition hundred : spec_float := S754_finite false 7036874417766400 (-46).

Definition isDecimalDigit (c : ascii) : bool :=
  let n := nat_of_ascii c in ((48 <=? n) && (n <=? 57))%nat.

End Stats.

(** ** The live block notifier

    The WebSocket server is driven by events; each handler of the program
    is one step on the connection table and the set [connectedClients].  A
    connection is known by the number of its socket object. *)
Module Notifier.

(** [ws.readyState] *)
Inductive ReadyState : Type := CONNECTING | OPEN | CLOSING | CLOSED.

Inductive Message : Type :=
| Welcome (now : Z)
| Subscribed (channel : option json) (now : Z)
| BlockEvent (blockNumber : Z) (now : Z).

Record Connection := mkConnection {
  readyState : ReadyState;
(** the handlers and the interval of the [connection] callback exist *)
registered : bool;
isAlive : bool;
(** [heartbeatInterval] is set and not cleared *)
heartbeat : bool;
(** what [ws.send] handed to the socket while it was open *)
sent : list Message;
pings : nat;
}.

Record Server := mkServer {
  connections : gmap nat Connection;
  connectedClients : list nat;
}.

Inductive Event : Type :=
(** the server accepted a new socket *)
| Connect (c : nat) (now : Z)
(** the peer answered a ping *)
| Pong (c : nat)
(** the interval of the connection fired *)
| Tick (c : nat)
(** a text frame arrived; [parsed] is [JSON.parse] of it, if it parses *)
| Frame (c : nat) (parsed : option json) (now : Z)
(** the peer started the closing handshake *)
| PeerClose (c : nat)
(** the socket is gone: the library emits [close] *)
| Closed (c : nat)
(** the provider reports a new block *)
| Block (blockNumber : Z) (now : Z).

Definition update (c : nat) (f : Connection -> Connection) (sv : Server) : Server :=
  {| connections := alter f c (connections sv);
     connectedClients := connectedClients sv |}.

(** [ws.send(msg)]: handed to the socket when it is open, dropped when it
    is closing or closed. *)
Definition send (msg : Message) (k : Connection) : Connection :=
  match readyState k with
  | OPEN => {| readyState := readyState k; registered := registered k;
               isAlive := isAlive k; heartbeat := heartbeat k;
               sent := sent k ++ [msg]; pings := pings k |}
  | _ => k
  end.

Definition withReadyState (r : ReadyState) (k : Connection) : Connection :=
  {| readyState := r; registered := registered k; isAlive := isAlive k;
     heartbeat := heartbeat k; sent := sent k; pings := pings k |}.

(** [ws.terminate()] and [ws.close()]: an open socket is closing from
    then on; its [close] event comes later. *)
Definition terminate (k : Connection) : Connection :=
  match readyState k with
  | CLOSED => k
  | _ => withReadyState CLOSING k
  end.

(** The body of the [setInterval] callback. *)
Definition onHeartbeat (k : Connection) : Connection :=
  if negb (isAlive k) then
    terminate {| readyState := readyState k; registered := registered k;
                 isAlive := isAlive k; heartbeat := false;
                 sent := sent k; pings := pings k |}
  else
    {| readyState := readyState k; registered := registered k;
       isAlive := false; heartbeat := heartbeat k;
       sent := sent k;
       pings := match readyState k with OPEN => S (pings k) | _ => pings k end |}.

Definition onPong (k : Connection) : Connection :=
  {| readyState := readyState k; registered := registered k; isAlive := true;
     heartbeat := heartbeat k; sent := sent k; pings := pings k |}.

(** [message.type === "subscribe"] on the parsed frame *)
Definition subscribeChannel (parsed : option json) : option (option json) :=
  match parsed with
  | Some (JObj fields) =>
      match getField "type" fields with
      | Some (JStr "subscribe") => Some (getField "channel" fields)
      | _ => None
      end
  | _ => None
  end.

Definition onMessage (parsed : option json) (now : Z) (k : Connection) : Connection :=
  match subscribeChannel parsed with
  | Some channel => send (Subscribed channel now) k
  | None => k
  end.

(** The [close] handler: [clearInterval], [connectedClients.delete(ws)]. *)
Definition onClose (k : Connection) : Connection :=
  {| readyState := CLOSED; registered := registered k; isAlive := isAlive k;
     heartbeat := false; sent := sent k; pings := pings k |}.

Definition whenRegistered (f : Connection -> Connection) (k : Connection) : Connection :=
  if registered k then f k else k.

(** [wss.on("connection", ...)] for a socket not seen before *)
Definition onConnection (c : nat) (now : Z) (sv : Server) : Server :=
  match connections sv !! c with
  | Some _ => sv
  | None =>
      if (CONFIG.WS_MAX_CLIENTS <=? length (connectedClients sv))%nat then
        {| connections :=
             <[c := {| readyState := CLOSING; registered := false; isAlive := false;
                       heartbeat := false; sent := []; pings := 0 |}]> (connections sv);
           connectedClients := connectedClients sv |}
      else
        {| connections :=
             <[c := {| readyState := OPEN; registered := true; isAlive := true;
                       heartbeat := true; sent := [Welcome now]; pings := 0 |}]>
               (connections sv);
           connectedClients := connectedClients sv ++ [c] |}
  end.

(** [provider.on("block", ...)]: one [send] for every member of
    [connectedClients] whose socket is open. *)
Definition broadcast (blockNumber now : Z) (sv : Server) : Server :=
  foldl (fun acc c => update c (send (BlockEvent blockNumber now)) acc)
        sv (connectedClients sv).

Definition step (sv : Server) (ev : Event) : Server :=
  match ev with
  | Connect c now => onConnection c now sv
  | Pong c => update c (whenRegistered onPong) sv
  | Tick c => update c (fun k => if registered k && heartbeat k then onHeartbeat k else k) sv
  | Frame c parsed now => update c (whenRegistered (onMessage parsed now)) sv
  | PeerClose c =>
      update c (fun k => match readyState k with
                         | OPEN => withReadyState CLOSING k
                         | _ => k
                         end) sv
  | Closed c =>
      match connections sv !! c with
      | Some k =>
          if registered k then
            {| connections := <[c := onClose k]> (connections sv);
               connectedClients := filter (fun c' => c' ≠ c) (connectedClients sv) |}
          else update c (withReadyState CLOSED) sv
      | None => sv
      end
  | Block blockNumber now => broadcast blockNumber now sv
  end.

Definition steps (sv : Server) (evs : list Event) : Server := foldl step sv evs.

(** The block events handed to the socket of [c] so far. *)
Definition isBlock (m : Message) : bool :=
  match m with BlockEvent _ _ => true | _ => false end.

Definition blocksSent (c : nat) (sv : Server) : list Message :=
  match connections sv !! c with
  | Some k => List.filter isBlock (sent k)
  | None => []
  end.

Definition empty : Server := {| connections := ∅; connectedClients := [] |}.

(** The connection [c] exists and satisfies [Q]. *)
Definition holds (Q : Connection -> Prop) (c : nat) (sv : Server) : Prop :=
  exists k, connections sv !! c = Some k /\ Q k.

(** The probe is out and unanswered, or the connection is already shut. *)
Definition unanswered (k : Connection) : Prop :=
  registered k = true /\
  ((isAlive k = false /\ heartbeat k = true) \/
   (readyState k <> OPEN /\ heartbeat k = false)).

(** Shut for good, with the blocks [l] sent before. *)
Definition shut (l : list Message) (k : Connection) : Prop :=
  registered k = true /\ readyState k <> OPEN /\ heartbeat k = false /\
  List.filter isBlock (sent k) = l.

(** Once its [close] event is handled a connection is out of
    [connectedClients] for good. *)
Definition removed (c : nat) (sv : Server) : Prop :=
  is_Some (connections sv !! c) /\ ~ In c (connectedClients sv).

End Notifier.

(** ** Example inputs *)
Module Examples.
Import Reference.

Definition threeOperations : list json :=
  [ JObj [("type", JStr "resolve"); ("name", JStr " Vitalik.eth")];
    JObj [("type", JStr "transfer")];
    JObj [("type", JStr "reverse"); ("address", JStr vitalik)] ].

Definition oneSubscriber : Notifier.Server :=
  Notifier.steps Notifier.empty [Notifier.Connect 7 0; Notifier.Block 100 1].

End Examples.

(** * Further parts of the program

    The search route, cache invalidation and the health check, and the
    vocabulary of the further properties below. *)

(** ** What a call can settle with

    [coPost Q c]: whatever runs between its resumptions, the promise [c]
    settles only with an outcome in [Q]. *)
Section Postcondition.
Context {R : Runtime}.

Fixpoint coPost {A} (Q : Outcome A -> Prop) (c : Co A) : Prop :=
  match c with
  | Done o => Q o
  | Susp k => forall s, coPost Q (snd (k s))
  end.

Definition asyncPost {A} (Q : Outcome A -> Prop) (m : Async A) : Prop :=
  forall s, coPost Q (snd (m s)).

Definition isReturned {A} (o : Outcome A) : Prop :=
  match o with
  | Returned _ => True
  | Thrown _ => False
  end.

End Postcondition.

(** ** The search route *)
Section Search.
Context {R : Runtime}.
Local Open Scope async_scope.

(** The three names tried for a query *)
Definition suggestions (query : string) : list string :=
  [ query +:+ ".eth"; query +:+ "-dao.eth"; query +:+ "-nft.eth" ].

(** The callback of [suggestions.map(async (name) => ...)] *)
Definition searchOne (name : string) : Async json :=
  tryCatch
    (address <- await (executeWithFallback (resolveNameOp name) 3);;
     ret (if truthy (ofNullable address)
          then JObj [("name", JStr name); ("address", ofNullable address);
                     ("available", JBool false)]
          else JNull))
    (fun _ => ret JNull).

(** [r.status === "fulfilled" && r.value !== null], then [r.value] *)
Definition foundValue (r : Outcome json) : option json :=
  match r with
  | Returned JNull => None
  | Returned value => Some value
  | Thrown _ => None
  end.

(** [app.get("/search/:query", ...)], run with nothing but its own three
    lookups scheduled while it waits for them. *)
Definition searchRoute (sched : list nat) (param : string) (s : State)
  : State * Outcome json :=
  let query := sanitizeInput param in
  if (String_length query <? 3)%nat
  then (s, Thrown (createError "Query must be at least 3 characters" 400))
  else
    let '(s', results) := allSettled sched (map searchOne (suggestions query)) s in
    (s', Returned (JObj [("query", JStr query);
                         ("suggestions", JArr (map JStr (suggestions query)));
                         ("found", JArr (omap foundValue results))])).

End Search.

(** ** Vocabulary for the properties of the provider manager's state *)

(** The cursor points into the provider list, and so does every index that
    has a failure counter. *)
Definition cursorValid (ps : list string) (pm : ProviderManager) : Prop :=
  providers pm = ps /\
  (currentIndex pm < length ps)%nat /\
  forall i, is_Some (failureCount pm !! i) -> (i < length ps)%nat.

(** ** Vocabulary for the responses of the routes *)

(** The response of [errorHandler] to an error without a status code that
    is not operational. *)
Definition internalServerError {R : Runtime} (requestId : string) (now : Z)
  : HttpResponse :=
  {| status := 500;
     body := JObj [("error", JStr "Internal server error");
                   ("requestId", JStr requestId);
                   ("timestamp", JStr (toISOString now))] |}.

(** What a lookup route settles with: a body, a validation error with the
    given message, [notFound] where the route has it, or the error of
    [executeWithFallback]. *)
Definition routeOutcome (invalid : string) (notFound : bool) (o : Outcome json) : Prop :=
  match o with
  | Returned _ => True
  | Thrown e =>
      e = {| message := invalid; statusCode := Some 400; isOperational := true |} \/
      (notFound = true /\
       e = {| message := "ENS name not found"; statusCode := Some 404;
              isOperational := true |}) \/
      exists last, e = newError (exhaustedMessage 3 last)
  end.

(** ** Vocabulary for the properties of the notifier's bookkeeping *)
Module Bookkeeping.
Import Notifier.

(** An accepted connection was sent the welcome message first and only
    once; a refused one was sent nothing, is not open and has no
    interval. *)
Definition greeted (k : Connection) : Prop :=
  if registered k
  then exists now rest, sent k = Welcome now :: rest /\
         Forall (fun m => forall t, m <> Welcome t) rest
  else sent k = [] /\ readyState k <> OPEN /\ heartbeat k = false /\ pings k = 0%nat.

(** [connectedClients] is a set of at most [WS_MAX_CLIENTS] sockets: the
    accepted connections whose [close] event has not been handled. *)
Definition wellFormed (sv : Server) : Prop :=
  NoDup (connectedClients sv) /\
  (length (connectedClients sv) <= CONFIG.WS_MAX_CLIENTS)%nat /\
  (forall c, In c (connectedClients sv) <->
             holds (fun k => registered k = true /\ readyState k <> CLOSED) c sv) /\
  (forall c k, connections sv !! c = Some k -> greeted k).

(** In [evs] the interval of [c] never fires while its last probe is
    unanswered ([alive] is the flag at the start), and [c] is not closed. *)
Fixpoint probesAnswered (c : nat) (alive : bool) (evs : list Event) : Prop :=
  match evs with
  | [] => True
  | Tick c' :: rest =>
      if decide (c' = c) then alive = true /\ probesAnswered c false rest
      else probesAnswered c alive rest
  | Pong c' :: rest => probesAnswered c (if decide (c' = c) then true else alive) rest
  | PeerClose c' :: rest => c' <> c /\ probesAnswered c alive rest
  | Closed c' :: rest => c' <> c /\ probesAnswered c alive rest
  | _ :: rest => probesAnswered c alive rest
  end.

(** The block messages of the [Block] events in [evs], in order *)
Definition blockMessages (evs : list Event) : list Message :=
  omap (fun ev => match ev with
                  | Block blockNumber now => Some (BlockEvent blockNumber now)
                  | _ => None
                  end) evs.

End Bookkeeping.

(** ** [CacheManager.invalidate] *)
Section Invalidate.
Context {R : Runtime}.
Local Open Scope async_scope.

(** The two Redis commands that only [invalidate] sends: [KEYS glob]
    settles with the keys that match, [DEL key ...] with the number of keys
    it removed. *)
Variable redisKeys : string -> World -> Outcome (list string) * World.
Variable redisDel : list string -> World -> Outcome Z * World.

(** [key.includes(pattern)]: [pattern] occurs in [key] *)
Fixpoint includes (key pattern : string) : bool :=
  String.prefix pattern key ||
  match key with
  | String _ rest => includes rest pattern
  | EmptyString => false
  end.

(** [this.memoryCache.del(key)] *)
Definition NodeCache_del (key : string) (c : NodeCache.cache) : NodeCache.cache :=
  {| NodeCache.stdTTL := NodeCache.stdTTL c;
     NodeCache.data := delete key (NodeCache.data c) |}.

(** [keys.forEach(key => { if (key.includes(pattern)) this.memoryCache.del(key) })] *)
Definition memoryInvalidate (pattern : string) (c : NodeCache.cache) : NodeCache.cache :=
  foldl (fun acc key => if includes key pattern then NodeCache_del key acc else acc)
        c (NodeCache.keys c).

(** [async invalidate(pattern)].  The promise is fulfilled with nothing;
    here it carries what the call wrote to the console: the error of the
    Redis commands, if they failed. *)
Definition CacheManager_invalidate (pattern : string) : Async (option Error) :=
  modify (fun s =>
    withCache (withMemoryCache (memoryInvalidate pattern (memoryCache (cache s)))
                               (cache s)) s);;
  hasRedis <- gets (fun s => redisClient (cache s));;
  if hasRedis : bool then
    tryCatch
      (keys <- awaitWorld (redisKeys ("*" +:+ pattern +:+ "*"));;
       match keys with
       | [] => ret None
       | _ :: _ => awaitWorld (redisDel keys);; ret None
       end)
      (fun error => ret (Some error))
  else ret None.

End Invalidate.

(** ** The health check *)
Section Health.
Context {R : Runtime}.
Local Open Scope async_scope.

(** The two provider calls that only the health check makes
    ([getBlockNumber()] and [getNetwork().then(n => n.name)]), and
    [process.uptime()]. *)
Variable getBlockNumber : string -> World -> Outcome Z * World.
Variable getNetworkName : string -> World -> Outcome string * World.
Variable process_uptime : World -> json.

(** What the route sends: the body of the 200 answer, field by field, or
    the error text of the 503 answer. *)
Inductive HealthAnswer : Type :=
| Healthy (uptime : json) (timestamp : string) (blockNumber : Z) (network : string)
    (cacheStats : json) (provider : nat * nat * gmap nat nat)
| Unhealthy (error : string).

Definition healthStatus (a : HealthAnswer) : Z :=
  match a with
  | Healthy _ _ _ _ _ _ => 200
  | Unhealthy _ => 503
  end.

(** [provider.<method>()] on the provider read from the list *)
Definition onProvider {A} (provider : option string) (method : string)
    (call : string -> World -> Outcome A * World) : World -> Outcome A * World :=
  match provider with
  | Some url => call url
  | None =>
      fun w => (Thrown (typeError ("Cannot read properties of undefined (reading '"
                                   +:+ method +:+ "')")), w)
  end.

(** [app.get("/health", ...)] *)
Definition healthRoute : Async HealthAnswer :=
  tryCatch
    (provider <- gets (fun s => getProvider (providerManager s));;
     blockNumber <- awaitWorld (onProvider provider "getBlockNumber" getBlockNumber);;
     uptime <- gets (fun s => process_uptime (world s));;
     ts <- timestamp;;
     network <- awaitWorld (onProvider provider "getNetwork" getNetworkName);;
     cacheStats <- gets (fun s => Stats.getStats (cache s));;
     provider <- gets (fun s => providerStats (providerManager s));;
     ret (Healthy uptime ts blockNumber network cacheStats provider))
    (fun error => ret (Unhealthy (message error))).

End Health.

(** * Properties *)

(** ** Running asynchronous code in isolation *)
Section RunLemmas.
Context {R : Runtime}.

Lemma complete_bindCo {A B} (c : Co A) (f : A -> Async B) (s : State) :
  (let '(s1, c1) := bindCo c f s in complete c1 s1) =
  match complete c s with
  | (s1, Returned a) => run (f a) s1
  | (s1, Thrown e) => (s1, Thrown e)
  end.
Proof.
  revert s. induction c as [o|k IH] using Co_induction; intros s.
  - destruct o; reflexivity.
  - simpl. specialize (IH s). destruct (k s) as [s2 c']. apply IH.
Qed.

Lemma run_bind {A B} (m : Async A) (f : A -> Async B) (s : State) :
  run (bind m f) s =
  match run m s with
  | (s1, Returned a) => run (f a) s1
  | (s1, Thrown e) => (s1, Thrown e)
  end.
Proof.
  unfold run at 1 2, bind. destruct (m s) as [s1 c]. apply complete_bindCo.
Qed.

Lemma complete_catchCo {A} (c : Co A) (h : Error -> Async A) (s : State) :
  (let '(s1, c1) := catchCo c h s in complete c1 s1) =
  match complete c s with
  | (s1, Returned a) => (s1, Returned a)
  | (s1, Thrown e) => run (h e) s1
  end.
Proof.
  revert s. induction c as [o|k IH] using Co_induction; intros s.
  - destruct o; reflexivity.
  - simpl. specialize (IH s). destruct (k s) as [s2 c']. apply IH.
Qed.

Lemma run_tryCatch {A} (m : Async A) (h : Error -> Async A) (s : State) :
  run (tryCatch m h) s =
  match run m s with
  | (s1, Returned a) => (s1, Returned a)
  | (s1, Thrown e) => run (h e) s1
  end.
Proof.
  unfold run at 1 2, tryCatch. destruct (m s) as [s1 c]. apply complete_catchCo.
Qed.

Lemma complete_awaitCo {A} (c : Co A) (s : State) :
  complete (awaitCo c) s = complete c s.
Proof.
  revert s. induction c as [o|k IH] using Co_induction; intros s.
  - reflexivity.
  - simpl. specialize (IH s). destruct (k s) as [s2 c']. apply IH.
Qed.

Lemma run_await {A} (m : Async A) (s : State) : run (await m) s = run m s.
Proof.
  unfold run, await. destruct (m s) as [s1 c]. apply complete_awaitCo.
Qed.

Lemma run_ret {A} (a : A) (s : State) : run (ret a) s = (s, Returned a).
Proof. reflexivity. Qed.

Lemma run_throw {A} (e : Error) (s : State) : run (throw (A:=A) e) s = (s, Thrown e).
Proof. reflexivity. Qed.

Lemma run_gets {A} (f : State -> A) (s : State) : run (gets f) s = (s, Returned (f s)).
Proof. reflexivity. Qed.

Lemma run_modify (f : State -> State) (s : State) : run (modify f) s = (f s, Returned tt).
Proof. reflexivity. Qed.

Lemma run_liftOutcome {A} (o : Outcome A) (s : State) : run (liftOutcome o) s = (s, o).
Proof. reflexivity. Qed.

Lemma run_awaitWorld {A} (f : World -> Outcome A * World) (s : State) :
  run (awaitWorld f) s = (withWorld (snd (f (world s))) s, fst (f (world s))).
Proof.
  unfold run, awaitWorld. simpl. destruct (f (world s)); reflexivity.
Qed.

End RunLemmas.


(** ** Provider rotation *)
Section ProviderProperties.
Context {R : Runtime}.

Lemma run_attemptOnce {T} (operation : Operation T) attempt maxRetries s :
  run (attemptOnce operation attempt maxRetries) s =
  let pm := providerManager s in
  match operation (getProvider pm) (world s) with
  | (Returned r, w) =>
      (withProviderManager (recordSuccess pm) (withWorld w s), Returned (inl r))
  | (Thrown e, w) =>
      (withProviderManager (recordFailure pm)
         (emit (ProviderFailed (currentIndex pm) (attempt + 1) maxRetries (message e))
               (withWorld w s)),
       Returned (inr e))
  end.
Proof.
  unfold attemptOnce.
  rewrite run_bind, run_gets. cbn iota.
  rewrite run_tryCatch, run_bind, run_awaitWorld.
  destruct (operation _ _) as [[r|e] w]; cbn [fst snd].
  - rewrite run_bind, run_modify. cbn iota. rewrite run_ret. reflexivity.
  - cbn iota. rewrite run_bind, run_modify. cbn iota. rewrite run_ret. reflexivity.
Qed.

Lemma failN_providers k pm : providers (failN k pm) = providers pm.
Proof. revert pm. induction k as [|k IH]; intros pm; [done|]. simpl. by rewrite IH. Qed.

Lemma failN_currentIndex k pm :
  (currentIndex pm < length (providers pm))%nat ->
  currentIndex (failN k pm) = ((currentIndex pm + k) mod length (providers pm))%nat.
Proof.
  revert pm. induction k as [|k IH]; intros pm Hc; simpl.
  - rewrite Nat.add_0_r, Nat.mod_small; done.
  - rewrite IH; simpl.
    + rewrite Nat.Div0.add_mod_idemp_l. f_equal. lia.
    + apply Nat.mod_upper_bound. lia.
Qed.

Lemma length_filter_map {A B} (f : B -> bool) (g : A -> B) (l : list A) :
  length (List.filter f (map g l)) = length (List.filter (fun x => f (g x)) l).
Proof.
  induction l as [|x l IH]; simpl; [done|]. destruct (f (g x)); simpl; by rewrite IH.
Qed.

Lemma attemptsOn_S n c k i :
  (c < n)%nat ->
  attemptsOn n c (S k) i =
  ((if (c =? i)%nat then 1 else 0) + attemptsOn n ((c + 1) mod n) k i)%nat.
Proof.
  intros Hc. unfold attemptsOn.
  change (seq 0 (S k)) with (0%nat :: seq 1 k). rewrite <- seq_shift.
  assert (Hext : forall j, (((c + S j) mod n =? i) = (((c + 1) mod n + j) mod n =? i))%nat).
  { intros j. rewrite Nat.Div0.add_mod_idemp_l. do 2 f_equal. lia. }
  rewrite <- (List.filter_ext _ _ Hext).
  rewrite <- (length_filter_map (fun j => ((c + j) mod n =? i)%nat) S).
  cbn [List.filter]. rewrite Nat.add_0_r, (Nat.mod_small c n) by done.
  destruct (c =? i)%nat; reflexivity.
Qed.

Lemma failN_count k pm i :
  (currentIndex pm < length (providers pm))%nat ->
  count (failN k pm) i =
  (count pm i + attemptsOn (length (providers pm)) (currentIndex pm) k i)%nat.
Proof.
  revert pm. induction k as [|k IH]; intros pm Hc.
  - unfold attemptsOn. simpl. lia.
  - simpl. rewrite IH; simpl.
    2:{ apply Nat.mod_upper_bound. lia. }
    rewrite attemptsOn_S by done.
    unfold count at 1. simpl.
    destruct (Nat.eqb_spec (currentIndex pm) i) as [->|Hne].
    + rewrite lookup_insert_eq. simpl. unfold count. lia.
    + rewrite lookup_insert_ne by done. unfold count. lia.
Qed.

(** After [k] failed attempts the loop goes on from the rotated state. *)
Lemma attemptLoop_failures {T} (operation : Operation T) maxRetries k :
  forall fuel attempt lastError s l w,
  failures operation (providers (providerManager s))
           (currentIndex (providerManager s)) (world s) k = Some (l, w) ->
  run (attemptLoop operation maxRetries (k + fuel) attempt lastError) s =
  run (attemptLoop operation maxRetries fuel (attempt + Z.of_nat k)
         (match last l with Some (_, e) => Some e | None => lastError end))
      {| providerManager := failN k (providerManager s);
         cache := cache s;
         world := w;
         trace := trace s ++ warnings attempt maxRetries l |}.
Proof.
  induction k as [|k IH]; intros fuel attempt lastError s l w Hf.
  - simpl in Hf. injection Hf as <- <-. simpl.
    rewrite Z.add_0_r, app_nil_r. by destruct s.
  - simpl in Hf.
    destruct (operation _ _) as [[r|e] w1] eqn:Hop; [done|].
    destruct (failures _ _ _ _ _) as [[l1 w2]|] eqn:Hrest; [|done].
    injection Hf as <- <-.
    change (S k + fuel)%nat with (S (k + fuel)). cbn [attemptLoop].
    rewrite run_bind, run_attemptOnce. unfold getProvider. rewrite Hop.
    rewrite (IH fuel (attempt + 1) (Some e) _ l1 w2) by exact Hrest.
    simpl. rewrite failN_providers || idtac.
    replace (attempt + 1 + Z.of_nat k) with (attempt + Z.of_nat (S k)) by lia.
    rewrite <- app_assoc. simpl.
    destruct l1 as [|[i1 e1] l1]; [reflexivity|].
    change (last ((currentIndex (providerManager s), e) :: (i1, e1) :: l1))
      with (last ((i1, e1) :: l1)).
    destruct (last ((i1, e1) :: l1)) as [[? ?]|] eqn:Hl; [reflexivity|].
    by apply last_None in Hl.
Qed.

Lemma failures_length {T} (operation : Operation T) ps k :
  forall c w l w', failures operation ps c w k = Some (l, w') -> length l = k.
Proof.
  induction k as [|k IH]; intros c w l w' Hf; simpl in Hf.
  - by injection Hf as <- <-.
  - destruct (operation _ _) as [[r|e] w1]; [done|].
    destruct (failures _ _ _ _ _) as [[l1 w2]|] eqn:Hrest; [|done].
    injection Hf as <- <-. simpl. f_equal. by eapply IH.
Qed.

Lemma alwaysFails_failures {T} (operation : Operation T) ps k :
  alwaysFails operation ->
  forall c w, is_Some (failures operation ps c w k).
Proof.
  intros Hfail. induction k as [|k IH]; intros c w; simpl; [by eexists|].
  destruct (Hfail (ps !! c) w) as [e He].
  destruct (operation _ _) as [o w1]. simpl in He. subst o.
  destruct (IH ((c + 1) mod length ps)%nat w1) as [[l w2] ->]. by eexists.
Qed.

Lemma executeWithFallback_after_failures {T} (operation : Operation T)
    maxRetries s k l w1 r w2 :
  let pm := providerManager s in
  Z.of_nat k < maxRetries ->
  failures operation (providers pm) (currentIndex pm) (world s) k = Some (l, w1) ->
  operation (providers pm !! currentIndex (failN k pm)) w1 = (Returned r, w2) ->
  run (executeWithFallback operation maxRetries) s =
  ({| providerManager := recordSuccess (failN k pm);
      cache := cache s;
      world := w2;
      trace := trace s ++ warnings 0 maxRetries l |}, Returned r).
Proof.
  intros pm Hk Hf Hop. unfold executeWithFallback.
  replace (Z.to_nat maxRetries) with (k + S (Z.to_nat maxRetries - S k))%nat by lia.
  rewrite (attemptLoop_failures _ _ _ _ _ _ _ l w1) by exact Hf.
  cbn [attemptLoop]. rewrite run_bind, run_attemptOnce.
  unfold getProvider. cbn [providerManager world].
  rewrite failN_providers. fold pm. rewrite Hop. reflexivity.
Qed.

(** [k] failed attempts and then a successful one. *)
Lemma executeWithFallback_general {T} (operation : Operation T)
    maxRetries s k l w1 r w2 :
  let pm := providerManager s in
  let n := length (providers pm) in
  let final := ((currentIndex pm + k) mod n)%nat in
  (currentIndex pm < n)%nat ->
  Z.of_nat k < maxRetries ->
  failures operation (providers pm) (currentIndex pm) (world s) k = Some (l, w1) ->
  operation (providers pm !! final) w1 = (Returned r, w2) ->
  exists s',
    run (executeWithFallback operation maxRetries) s = (s', Returned r) /\
    currentIndex (providerManager s') = final /\
    failureCount (providerManager s') !! final = Some 0%nat /\
    (forall i, i <> final ->
       count (providerManager s') i = (count pm i + attemptsOn n (currentIndex pm) k i)%nat) /\
    providers (providerManager s') = providers pm /\
    trace s' = (trace s ++ warnings 0 maxRetries l)%list /\
    length l = k /\
    world s' = w2 /\
    cache s' = cache s.
Proof.
  intros pm n final Hc Hk Hf Hop.
  assert (Hfinal : currentIndex (failN k pm) = final) by by apply failN_currentIndex.
  eexists. split.
  { eapply executeWithFallback_after_failures; [exact Hk|exact Hf|].
    fold pm. rewrite Hfinal. exact Hop. }
  cbn [providerManager trace world cache recordSuccess currentIndex failureCount providers].
  fold pm. rewrite Hfinal. repeat split.
  - apply lookup_insert_eq.
  - intros i Hi. unfold count at 1. cbn [failureCount recordSuccess].
    rewrite Hfinal, lookup_insert_ne by done. by apply failN_count.
  - apply failN_providers.
  - by eapply failures_length.
Qed.

(** X25: in a call of [executeWithFallback] that runs with no other call
    resumed between its attempts, every failed attempt adds one to the
    failure counter of its endpoint and moves the cursor to the next
    endpoint, modulo their number; the first successful attempt sets the
    counter of its endpoint to zero and returns the result, and the cursor
    stays on that endpoint.  With four endpoints, the cursor on endpoint 0,
    endpoints 0 and 1 failing and endpoint 2 succeeding (and a budget of at
    least three attempts), the call returns after exactly two warnings with
    the cursor on 2, counter 2 at zero, counters 0 and 1 one higher and
    counter 3 as it was. *)
Theorem executeWithFallback_rotation :
  (forall T (operation : Operation T) maxRetries s k l w1 r w2,
     let pm := providerManager s in
     let n := length (providers pm) in
     let final := ((currentIndex pm + k) mod n)%nat in
     (currentIndex pm < n)%nat ->
     Z.of_nat k < maxRetries ->
     failures operation (providers pm) (currentIndex pm) (world s) k = Some (l, w1) ->
     operation (providers pm !! final) w1 = (Returned r, w2) ->
     exists s',
       run (executeWithFallback operation maxRetries) s = (s', Returned r) /\
       currentIndex (providerManager s') = final /\
       failureCount (providerManager s') !! final = Some 0%nat /\
       (forall i, i <> final ->
          count (providerManager s') i =
          (count pm i + attemptsOn n (currentIndex pm) k i)%nat) /\
       providers (providerManager s') = providers pm /\
       trace s' = (trace s ++ warnings 0 maxRetries l)%list /\
       length l = k /\
       world s' = w2 /\
       cache s' = cache s) /\
  (forall T (operation : Operation T) maxRetries s e0 e1 r w1 w2 w3,
     let pm := providerManager s in
     length (providers pm) = 4%nat ->
     currentIndex pm = 0%nat ->
     3 <= maxRetries ->
     operation (providers pm !! 0%nat) (world s) = (Thrown e0, w1) ->
     operation (providers pm !! 1%nat) w1 = (Thrown e1, w2) ->
     operation (providers pm !! 2%nat) w2 = (Returned r, w3) ->
     exists s',
       run (executeWithFallback operation maxRetries) s = (s', Returned r) /\
       currentIndex (providerManager s') = 2%nat /\
       failureCount (providerManager s') !! 2%nat = Some 0%nat /\
       count (providerManager s') 0 = S (count pm 0) /\
       count (providerManager s') 1 = S (count pm 1) /\
       count (providerManager s') 3 = count pm 3 /\
       trace s' = (trace s ++ [ProviderFailed 0 1 maxRetries (message e0);
                               ProviderFailed 1 2 maxRetries (message e1)])%list).
Proof.
  split.
  - intros. by eapply executeWithFallback_general.
  - intros T operation maxRetries s e0 e1 r w1 w2 w3 pm Hn Hc Hmax H0 H1 H2.
    pose proof (executeWithFallback_general operation maxRetries s 2
                  [(0%nat, e0); (1%nat, e1)] w2 r w3) as H.
    cbv zeta in H. fold pm in H. rewrite Hc, Hn in H.
    change ((0 + 2) mod 4)%nat with 2%nat in H.
    destruct H as (s' & Hrun & Hcur & Hzero & Hcount & _ & Htrace & _).
    + lia.
    + lia.
    + cbn [failures]. rewrite H0, Hn. change ((0 + 1) mod 4)%nat with 1%nat.
      rewrite H1. reflexivity.
    + exact H2.
    + exists s'. repeat split; try done.
      * rewrite (Hcount 0%nat) by done. vm_compute attemptsOn. lia.
      * rewrite (Hcount 1%nat) by done. vm_compute attemptsOn. lia.
      * rewrite (Hcount 3%nat) by done. vm_compute attemptsOn. lia.
Qed.

(** C1: when each of the [maxRetries] attempts fails, [executeWithFallback]
    makes exactly these attempts, one warning each, and throws an error whose
    message names [maxRetries] and ends with the message of the error of the
    last attempt. *)
Theorem executeWithFallback_exhausted {T} (operation : Operation T)
    (maxRetries : Z) (s : State) l w1 :
  let pm := providerManager s in
  (0 < length (providers pm))%nat ->
  0 <= maxRetries ->
  failures operation (providers pm) (currentIndex pm) (world s)
           (Z.to_nat maxRetries) = Some (l, w1) ->
  exists s',
    run (executeWithFallback operation maxRetries) s =
      (s', Thrown (newError (exhaustedMessage maxRetries (snd <$> last l)))) /\
    Z.of_nat (length l) = maxRetries /\
    trace s' = (trace s ++ warnings 0 maxRetries l)%list /\
    world s' = w1 /\
    cache s' = cache s /\
    (1 <= maxRetries ->
     exists i e, last l = Some (i, e) /\
       exhaustedMessage maxRetries (snd <$> last l) =
       "All providers failed after " +:+ pretty maxRetries +:+ " attempts: "
         +:+ message e).
Proof.
  intros pm _ Hmax Hf.
  pose proof (failures_length _ _ _ _ _ _ _ Hf) as Hlen.
  assert (Hrun : run (executeWithFallback operation maxRetries) s =
    ({| providerManager := failN (Z.to_nat maxRetries) pm; cache := cache s;
        world := w1; trace := trace s ++ warnings 0 maxRetries l |},
     Thrown (newError (exhaustedMessage maxRetries (snd <$> last l))))).
  { unfold executeWithFallback.
    replace (Z.to_nat maxRetries) with (Z.to_nat maxRetries + 0)%nat at 1 by lia.
    rewrite (attemptLoop_failures _ _ _ _ _ _ _ l w1) by exact Hf.
    cbn [attemptLoop]. rewrite run_throw. fold pm.
    do 4 f_equal. by destruct (last l) as [[? ?]|]. }
  eexists. split; [exact Hrun|].
  cbn [trace world cache]. repeat split; try done; [lia|].
  intros H1. destruct (last l) as [[i e]|] eqn:Hl.
  - by exists i, e.
  - apply last_None in Hl. subst l. simpl in Hlen. lia.
Qed.

End ProviderProperties.

(** ** The two-tier cache *)
Section CacheProperties.
Context {R : Runtime}.

Lemma run_memoryGet key s :
  run (memoryGet key) s =
  let r := NodeCache.get (Date_now (world s)) key (memoryCache (cache s)) in
  (withCache (withMemoryCache (snd r) (cache s)) s, Returned (fst r)).
Proof. unfold run, memoryGet. destruct (NodeCache.get _ _ _). reflexivity. Qed.

Lemma run_memorySet key value ttl s :
  run (memorySet key value ttl) s =
  (withCache (withMemoryCache
     (NodeCache.set (Date_now (world s)) key value ttl (memoryCache (cache s)))
     (cache s)) s, Returned tt).
Proof. reflexivity. Qed.

Lemma run_awaitRedis cmd s :
  run (awaitRedis cmd) s =
  (withWorld (snd (redis cmd (world s))) (emit (RedisSent cmd) s),
   fst (redis cmd (world s))).
Proof.
  unfold awaitRedis. rewrite run_bind, run_modify. cbn iota.
  rewrite run_awaitWorld. reflexivity.
Qed.

(** What [NodeCache.get] returns it leaves in place. *)
Lemma NodeCache_get_Some now key c value :
  fst (NodeCache.get now key c) = Some value -> snd (NodeCache.get now key c) = c.
Proof.
  unfold NodeCache.get. destruct (NodeCache.data c !! key) as [e|].
  - by destruct (NodeCache.expired now e).
  - by destruct (NodeCache.inherited key).
Qed.

Lemma NodeCache_get_set now key value ttl c :
  NodeCache.data (NodeCache.set now key value ttl c) !! key =
  Some (NodeCache.mkEntry value (NodeCache.livetime now c ttl)).
Proof. unfold NodeCache.set. simpl. apply lookup_insert_eq. Qed.

(** After a miss the key has no entry: there was none, or [get] deleted
    the expired one. *)
Lemma NodeCache_get_miss now key c :
  fst (NodeCache.get now key c) = None ->
  NodeCache.data (snd (NodeCache.get now key c)) !! key = None.
Proof.
  unfold NodeCache.get. destruct (NodeCache.data c !! key) as [e|] eqn:He.
  - destruct (NodeCache.expired now e); [|done]. intros _. apply lookup_delete_eq.
  - by destruct (NodeCache.inherited key).
Qed.

(** [NodeCache.get] changes neither the default TTL nor the entries under
    other keys. *)
Lemma NodeCache_get_stdTTL now key c :
  NodeCache.stdTTL (snd (NodeCache.get now key c)) = NodeCache.stdTTL c.
Proof.
  unfold NodeCache.get. destruct (NodeCache.data c !! key) as [e|].
  - by destruct (NodeCache.expired now e).
  - by destruct (NodeCache.inherited key).
Qed.

Lemma NodeCache_get_other now key key' c :
  key' <> key ->
  NodeCache.data (snd (NodeCache.get now key c)) !! key' = NodeCache.data c !! key'.
Proof.
  intros Hne. unfold NodeCache.get. destruct (NodeCache.data c !! key) as [e|].
  - destruct (NodeCache.expired now e); [|done]. simpl. by rewrite lookup_delete_ne.
  - by destruct (NodeCache.inherited key).
Qed.

(** X26: [get], by what the memory cache answers.  A value found there is
    returned and counted as one hit, and nothing is sent to Redis.  When the
    memory cache answers [undefined] and Redis answers [GET] with a JSON
    text, the parsed value is first stored in the memory cache under the
    default TTL, then counted as one hit and returned.  When the memory
    cache answers [undefined] and there is no Redis client, or Redis has
    nothing under the key, one miss is counted, [null] is returned and the
    memory cache has no entry under the key. *)
Theorem CacheManager_get_tiers (key : string) (s : State) :
  let now := Date_now (world s) in
  let local := NodeCache.get now key (memoryCache (cache s)) in
  (forall value,
     fst local = Some value ->
     exists s',
       run (CacheManager_get key) s = (s', Returned value) /\
       hits (stats (cache s')) = S (hits (stats (cache s))) /\
       misses (stats (cache s')) = misses (stats (cache s)) /\
       sets (stats (cache s')) = sets (stats (cache s)) /\
       memoryCache (cache s') = memoryCache (cache s) /\
       trace s' = trace s /\
       world s' = world s /\
       providerManager s' = providerManager s) /\
  (forall text parsed w,
     fst local = None ->
     redisClient (cache s) = true ->
     redis (GET key) (world s) = (Returned (Some text), w) ->
     text <> "" ->
     JSON_parse text = Returned parsed ->
     exists s',
       run (CacheManager_get key) s = (s', Returned parsed) /\
       memoryCache (cache s') = NodeCache.set (Date_now w) key parsed None (snd local) /\
       NodeCache.data (memoryCache (cache s')) !! key =
         Some (NodeCache.mkEntry parsed
                 (if NodeCache.stdTTL (memoryCache (cache s)) =? 0 then 0
                  else Date_now w + NodeCache.stdTTL (memoryCache (cache s)) * 1000)) /\
       (forall key', key' <> key ->
          NodeCache.data (memoryCache (cache s')) !! key' =
          NodeCache.data (memoryCache (cache s)) !! key') /\
       hits (stats (cache s')) = S (hits (stats (cache s))) /\
       misses (stats (cache s')) = misses (stats (cache s)) /\
       sets (stats (cache s')) = sets (stats (cache s)) /\
       trace s' = (trace s ++ [RedisSent (GET key)])%list /\
       world s' = w) /\
  (forall w,
     fst local = None ->
     redisClient (cache s) = false \/
       redis (GET key) (world s) = (Returned None, w) ->
     exists s',
       run (CacheManager_get key) s = (s', Returned JNull) /\
       memoryCache (cache s') = snd local /\
       NodeCache.data (memoryCache (cache s')) !! key = None /\
       misses (stats (cache s')) = S (misses (stats (cache s))) /\
       hits (stats (cache s')) = hits (stats (cache s)) /\
       sets (stats (cache s')) = sets (stats (cache s))).
Proof.
  intros now local. repeat split.
  - intros value Hlocal. unfold CacheManager_get.
    rewrite run_bind, run_memoryGet. cbn zeta iota. fold now local.
    pose proof (NodeCache_get_Some _ _ _ _ Hlocal) as Hsnd. fold now local in Hsnd.
    rewrite Hlocal, Hsnd.
    rewrite run_bind, run_modify. cbn iota. rewrite run_ret.
    eexists. split; [reflexivity|]. by destruct s as [pm [mc rc st] w tr].
  - intros text parsed w Hlocal Hredis Hget Htext Hparse. unfold CacheManager_get.
    rewrite run_bind, run_memoryGet. cbn zeta iota. fold now local. rewrite Hlocal.
    rewrite run_bind, run_gets. cbn iota. cbn [cache withCache redisClient withMemoryCache].
    rewrite Hredis, run_bind. unfold redisLookup.
    rewrite run_tryCatch, run_bind, run_awaitRedis.
    cbn [world withCache]. rewrite Hget. cbn [fst snd].
    assert (Hne : nonEmpty (Some text) = Some text).
    { simpl. destruct (String.eqb_spec text ""); done. }
    rewrite Hne, Hparse, run_bind, run_memorySet. cbn iota.
    rewrite run_bind, run_modify. cbn iota. rewrite !run_ret.
    eexists. split; [reflexivity|].
    cbn [cache withCache withWorld emit memoryCache hitsIncr withStats withMemoryCache
         world trace stats hits misses sets]. fold now.
    split_and!; try done.
    + rewrite NodeCache_get_set. unfold NodeCache.livetime.
      unfold local. by rewrite NodeCache_get_stdTTL.
    + intros key' Hkey. unfold NodeCache.set. cbn [NodeCache.data].
      rewrite lookup_insert_ne by done. unfold local. by apply NodeCache_get_other.
  - intros w Hlocal Habsent. unfold CacheManager_get.
    rewrite run_bind, run_memoryGet. cbn zeta iota. fold now local. rewrite Hlocal.
    rewrite run_bind, run_gets. cbn iota. cbn [cache withCache redisClient withMemoryCache].
    pose proof (NodeCache_get_miss _ _ _ Hlocal) as Hgone. fold now local in Hgone.
    assert (Hnone : redisClient (cache s) = false ->
      exists s',
        run (found <- ret None;;
             match found with
             | Some parsed => ret parsed
             | None => modify (fun s => withCache (missesIncr (cache s)) s);; ret JNull
             end)%async
            (withCache (withMemoryCache (snd local) (cache s)) s) = (s', Returned JNull) /\
        memoryCache (cache s') = snd local /\
        NodeCache.data (memoryCache (cache s')) !! key = None /\
        misses (stats (cache s')) = S (misses (stats (cache s))) /\
        hits (stats (cache s')) = hits (stats (cache s)) /\
        sets (stats (cache s')) = sets (stats (cache s))).
    { intros _. rewrite run_bind, run_ret. cbn iota.
      rewrite run_bind, run_modify. cbn iota. rewrite run_ret.
      eexists. split; [reflexivity|].
      cbn [cache withCache memoryCache missesIncr withStats withMemoryCache stats
           hits misses sets].
      by repeat split. }
    destruct (redisClient (cache s)) eqn:Hredis; [|by apply Hnone].
    destruct Habsent as [Hno|Hnil]; [done|].
    rewrite run_bind. unfold redisLookup.
    rewrite run_tryCatch, run_bind, run_awaitRedis.
    cbn [world withCache]. rewrite Hnil. cbn [fst snd nonEmpty].
    rewrite !run_ret. cbn iota. rewrite run_bind, run_modify. cbn iota. rewrite run_ret.
    eexists. split; [reflexivity|].
    cbn [cache withCache withWorld emit memoryCache missesIncr withStats
         withMemoryCache stats hits misses sets].
    by repeat split.
Qed.


Lemma run_CacheManager_set key value ttl s :
  run (CacheManager_set key value ttl) s = (afterSet key value ttl s, Returned tt).
Proof.
  unfold CacheManager_set, afterSet, setCommand.
  rewrite run_bind, run_memorySet. cbn iota.
  rewrite run_bind, run_gets. cbn iota. cbn [cache withCache redisClient withMemoryCache].
  destruct (redisClient (cache s)).
  - rewrite run_bind, run_tryCatch.
    destruct (givenTtl ttl) as [n|];
      rewrite run_bind, run_awaitRedis; cbn [world withCache];
      destruct (redis _ (world s)) as [[reply|e] w]; cbn [fst snd].
      all: cbn iota; rewrite ?run_ret, ?run_modify; cbn iota; reflexivity.
  - rewrite run_bind, run_ret. cbn iota. rewrite run_modify. reflexivity.
Qed.

(** [set] leaves the value in the memory cache, with the expiry time of
    the moment of the call. *)
Lemma afterSet_entry key value ttl s :
  NodeCache.data (memoryCache (cache (afterSet key value ttl s))) !! key =
  Some (NodeCache.mkEntry value
          (NodeCache.livetime (Date_now (world s)) (memoryCache (cache s)) ttl)).
Proof.
  unfold afterSet. destruct (redisClient (cache s)); [|apply NodeCache_get_set].
  destruct (fst (redis _ _)); apply NodeCache_get_set.
Qed.

(** C4: [set] always returns normally, whatever Redis does: the value is
    in the memory cache under [key], [sets] is one higher, and an error of
    the Redis write is logged after the command and goes no further. *)
Theorem CacheManager_set_never_throws (key : string) (value : json)
    (ttl : option Z) (s : State) :
  exists s',
    run (CacheManager_set key value ttl) s = (s', Returned tt) /\
    NodeCache.data (memoryCache (cache s')) !! key =
      Some (NodeCache.mkEntry value
              (NodeCache.livetime (Date_now (world s)) (memoryCache (cache s)) ttl)) /\
    sets (stats (cache s')) = S (sets (stats (cache s))) /\
    hits (stats (cache s')) = hits (stats (cache s)) /\
    misses (stats (cache s')) = misses (stats (cache s)) /\
    providerManager s' = providerManager s /\
    (redisClient (cache s) = false -> trace s' = trace s /\ world s' = world s) /\
    (forall e w,
       redisClient (cache s) = true ->
       redis (setCommand key value ttl) (world s) = (Thrown e, w) ->
       trace s' = (trace s ++ [RedisSent (setCommand key value ttl); RedisSetError e])%list /\
       world s' = w).
Proof.
  exists (afterSet key value ttl s). split; [apply run_CacheManager_set|].
  unfold afterSet.
  destruct (redisClient (cache s)) eqn:Hredis.
  - destruct (redis _ (world s)) as [[reply|e] w] eqn:Hcmd; cbn [fst snd].
    + split_and!; try apply NodeCache_get_set; try done.
    + split_and!; try apply NodeCache_get_set; try done.
      intros e' w' _ [= <- <-]. simpl. by rewrite <- app_assoc.
  - split_and!; try apply NodeCache_get_set; done.
Qed.

End CacheProperties.

(** ** Invariants of asynchronous code

    [asyncInv P m]: every piece of [m] that runs without interruption takes
    a state in [P] to a state in [P], whatever ran before it was resumed,
    as long as that kept [P] too. *)
Section Invariants.
Context {R : Runtime}.
Variable P : State -> Prop.

Lemma inv_ret {A} (a : A) : asyncInv P (ret a).
Proof. by intros s Hs. Qed.

Lemma inv_throw {A} (e : Error) : asyncInv P (throw (A:=A) e).
Proof. by intros s Hs. Qed.

Lemma inv_gets {A} (f : State -> A) : asyncInv P (gets f).
Proof. by intros s Hs. Qed.

Lemma inv_liftOutcome {A} (o : Outcome A) : asyncInv P (liftOutcome o).
Proof. by intros s Hs. Qed.

Lemma inv_modify (f : State -> State) :
  (forall s, P s -> P (f s)) -> asyncInv P (modify f).
Proof. intros Hf s Hs. split; [by apply Hf|done]. Qed.

Lemma inv_awaitWorld {A} (f : World -> Outcome A * World) :
  (forall w s, P s -> P (withWorld w s)) -> asyncInv P (awaitWorld f).
Proof.
  intros Hw s Hs. split; [done|]. simpl. intros s1 Hs1.
  destruct (f (world s1)) as [o w]. simpl. split; [by apply Hw|done].
Qed.

Lemma inv_bindCo {A B} (c : Co A) (f : A -> Async B) :
  coInv P c -> (forall a, asyncInv P (f a)) ->
  forall s, P s -> P (fst (bindCo c f s)) /\ coInv P (snd (bindCo c f s)).
Proof.
  intros Hc Hf. induction c as [o|k IH] using Co_induction; intros s Hs.
  - destruct o as [a|e]; simpl; [by apply Hf|done].
  - simpl. split; [done|]. intros s1 Hs1.
    destruct (Hc s1 Hs1) as [H1 H2]. specialize (IH s1 H2 (fst (k s1)) H1).
    by destruct (k s1) as [s2 c'].
Qed.

Lemma inv_bind {A B} (m : Async A) (f : A -> Async B) :
  asyncInv P m -> (forall a, asyncInv P (f a)) -> asyncInv P (bind m f).
Proof.
  intros Hm Hf s Hs. unfold bind. destruct (Hm s Hs) as [H1 H2].
  destruct (m s) as [s1 c]. by apply inv_bindCo.
Qed.

Lemma inv_catchCo {A} (c : Co A) (h : Error -> Async A) :
  coInv P c -> (forall e, asyncInv P (h e)) ->
  forall s, P s -> P (fst (catchCo c h s)) /\ coInv P (snd (catchCo c h s)).
Proof.
  intros Hc Hh. induction c as [o|k IH] using Co_induction; intros s Hs.
  - destruct o as [a|e]; simpl; [done|by apply Hh].
  - simpl. split; [done|]. intros s1 Hs1.
    destruct (Hc s1 Hs1) as [H1 H2]. specialize (IH s1 H2 (fst (k s1)) H1).
    by destruct (k s1) as [s2 c'].
Qed.

Lemma inv_tryCatch {A} (m : Async A) (h : Error -> Async A) :
  asyncInv P m -> (forall e, asyncInv P (h e)) -> asyncInv P (tryCatch m h).
Proof.
  intros Hm Hh s Hs. unfold tryCatch. destruct (Hm s Hs) as [H1 H2].
  destruct (m s) as [s1 c]. by apply inv_catchCo.
Qed.

Lemma inv_awaitCo {A} (c : Co A) : coInv P c -> coInv P (awaitCo c).
Proof.
  induction c as [o|k IH] using Co_induction; intros Hc.
  - simpl. by intros s Hs.
  - simpl. intros s1 Hs1. destruct (Hc s1 Hs1) as [H1 H2]. specialize (IH s1 H2).
    by destruct (k s1) as [s2 c'].
Qed.

Lemma inv_await {A} (m : Async A) : asyncInv P m -> asyncInv P (await m).
Proof.
  intros Hm s Hs. unfold await. destruct (Hm s Hs) as [H1 H2].
  destruct (m s) as [s1 c]. split; [done|by apply inv_awaitCo].
Qed.

Lemma inv_complete {A} (c : Co A) :
  coInv P c -> forall s, P s -> P (fst (complete c s)).
Proof.
  induction c as [o|k IH] using Co_induction; intros Hc s Hs; [done|].
  simpl. destruct (Hc s Hs) as [H1 H2]. specialize (IH s H2 _ H1).
  by destruct (k s) as [s2 c'].
Qed.

Lemma inv_run {A} (m : Async A) : asyncInv P m -> forall s, P s -> P (fst (run m s)).
Proof.
  intros Hm s Hs. unfold run. destruct (Hm s Hs) as [H1 H2].
  destruct (m s) as [s1 c]. by apply inv_complete.
Qed.

Lemma inv_spawn {A} (calls : list (Async A)) :
  Forall (asyncInv P) calls ->
  forall s, P s -> P (fst (spawn calls s)) /\ Forall (coInv P) (snd (spawn calls s)).
Proof.
  induction 1 as [|m calls Hm _ IH]; intros s Hs; [done|].
  simpl. destruct (Hm s Hs) as [H1 H2]. destruct (m s) as [s1 c].
  specialize (IH s1 H1). destruct (spawn calls s1) as [s2 cs].
  simpl in *. split; [tauto|]. constructor; tauto.
Qed.

Lemma inv_resume {A} (i : nat) (cs : list (Co A)) :
  Forall (coInv P) cs ->
  forall s, P s -> P (fst (resume i cs s)) /\ Forall (coInv P) (snd (resume i cs s)).
Proof.
  intros Hcs s Hs. unfold resume.
  destruct (cs !! i) as [[o|k]|] eqn:Hi; try done.
  pose proof (Forall_lookup_1 _ _ _ _ Hcs Hi) as Hk. simpl in Hk.
  destruct (Hk s Hs) as [H1 H2]. destruct (k s) as [s' c']. simpl in *.
  split; [done|]. by apply Forall_insert.
Qed.

Lemma inv_interleave {A} (sched : list nat) :
  forall (cs : list (Co A)), Forall (coInv P) cs ->
  forall s, P s ->
    P (fst (interleave sched cs s)) /\ Forall (coInv P) (snd (interleave sched cs s)).
Proof.
  induction sched as [|i sched IH]; intros cs Hcs s Hs; [done|].
  simpl. destruct (inv_resume i cs Hcs s Hs) as [H1 H2].
  destruct (resume i cs s) as [s' cs']. by apply IH.
Qed.

Lemma inv_drain {A} (cs : list (Co A)) :
  Forall (coInv P) cs -> forall s, P s -> P (fst (drain cs s)).
Proof.
  induction 1 as [|c cs Hc _ IH]; intros s Hs; [done|].
  simpl. pose proof (inv_complete c Hc s Hs) as H1.
  destruct (complete c s) as [s1 o]. specialize (IH s1 H1).
  by destruct (drain cs s1) as [s2 os].
Qed.

Lemma inv_allSettled {A} (sched : list nat) (calls : list (Async A)) :
  Forall (asyncInv P) calls -> forall s, P s -> P (fst (allSettled sched calls s)).
Proof.
  intros Hcalls s Hs. unfold allSettled.
  destruct (inv_spawn calls Hcalls s Hs) as [H1 H2].
  destruct (spawn calls s) as [s1 cs].
  destruct (inv_interleave sched cs H2 s1 H1) as [H3 H4].
  destruct (interleave sched cs s1) as [s2 cs']. by apply inv_drain.
Qed.

End Invariants.

Ltac inv_step :=
  match goal with
  | |- asyncInv _ (bind _ _) => apply inv_bind
  | |- asyncInv _ (await _) => apply inv_await
  | |- asyncInv _ (tryCatch _ _) => apply inv_tryCatch
  | |- asyncInv _ (ret _) => apply inv_ret
  | |- asyncInv _ (throw _) => apply inv_throw
  | |- asyncInv _ (gets _) => apply inv_gets
  | |- asyncInv _ timestamp => apply inv_gets
  | |- asyncInv _ (liftOutcome _) => apply inv_liftOutcome
  | |- asyncInv _ (modify _) => apply inv_modify
  | |- asyncInv _ (awaitWorld _) => apply inv_awaitWorld
  | |- asyncInv _ (if ?b then _ else _) => destruct b
  | |- asyncInv _ (match ?x with _ => _ end) => destruct x
  | |- forall _, _ => intro
  end.

(** What [executeWithFallback] keeps: any property of the state that does
    not depend on the provider manager, on the world or on the warnings. *)
Section FallbackInvariant.
Context {R : Runtime}.
Variable P : State -> Prop.
Hypothesis P_providerManager : forall pm s, P s -> P (withProviderManager pm s).
Hypothesis P_world : forall w s, P s -> P (withWorld w s).
Hypothesis P_warning : forall i a m msg s, P s -> P (emit (ProviderFailed i a m msg) s).

Lemma inv_attemptOnce {T} (operation : Operation T) attempt maxRetries :
  asyncInv P (attemptOnce operation attempt maxRetries).
Proof. unfold attemptOnce. repeat inv_step; auto. Qed.

Lemma inv_attemptLoop {T} (operation : Operation T) maxRetries fuel :
  forall attempt lastError,
  asyncInv P (attemptLoop operation maxRetries fuel attempt lastError).
Proof.
  induction fuel as [|fuel IH]; intros attempt lastError; simpl.
  - apply inv_throw.
  - apply inv_bind; [apply inv_attemptOnce|]. intros [r|e]; [apply inv_ret|apply IH].
Qed.

Lemma inv_executeWithFallback {T} (operation : Operation T) maxRetries :
  asyncInv P (executeWithFallback operation maxRetries).
Proof. apply inv_attemptLoop. Qed.

End FallbackInvariant.

Section RouteInvariant.
Context {R : Runtime}.
Variable P : State -> Prop.
Hypothesis P_providerManager : forall pm s, P s -> P (withProviderManager pm s).
Hypothesis P_cache : forall cm s, P s -> P (withCache cm s).
Hypothesis P_world : forall w s, P s -> P (withWorld w s).
Hypothesis P_emit : forall ev s, notSetex ev -> P s -> P (emit ev s).

Ltac keep :=
  first [ assumption
        | apply P_emit; [exact I|keep]
        | apply P_cache; keep
        | apply P_world; keep
        | apply P_providerManager; keep ].

Lemma inv_fallback {T} (operation : Operation T) maxRetries :
  asyncInv P (executeWithFallback operation maxRetries).
Proof. apply inv_executeWithFallback; intros; keep. Qed.

Lemma inv_memoryGet key : asyncInv P (memoryGet key).
Proof.
  intros s Hs. unfold memoryGet. destruct (NodeCache.get _ _ _). simpl. split; [keep|done].
Qed.

Lemma inv_memorySet key value ttl : asyncInv P (memorySet key value ttl).
Proof. apply inv_modify. intros; keep. Qed.

Lemma inv_awaitRedis cmd : notSetex (RedisSent cmd) -> asyncInv P (awaitRedis cmd).
Proof.
  intros Hcmd. unfold awaitRedis. apply inv_bind.
  - apply inv_modify. intros. by apply P_emit.
  - intros _. apply inv_awaitWorld. intros; keep.
Qed.

Ltac route_step :=
  first [ apply inv_memoryGet | apply inv_memorySet | apply inv_fallback
        | apply inv_awaitRedis; exact I
        | inv_step
        | keep ].

Lemma inv_CacheManager_get key : asyncInv P (CacheManager_get key).
Proof. unfold CacheManager_get, redisLookup. repeat route_step. Qed.

Lemma inv_CacheManager_set key value : asyncInv P (CacheManager_set key value None).
Proof. unfold CacheManager_set. simpl. repeat route_step. Qed.

Ltac handler_step :=
  first [ apply inv_CacheManager_get | apply inv_CacheManager_set | route_step ].

Lemma inv_resolveRoute param : asyncInv P (resolveRoute param).
Proof. unfold resolveRoute. repeat handler_step. Qed.

Lemma inv_reverseRoute param : asyncInv P (reverseRoute param).
Proof. unfold reverseRoute. repeat handler_step. Qed.

Lemma inv_avatarRoute param : asyncInv P (avatarRoute param).
Proof. unfold avatarRoute. repeat handler_step. Qed.

Lemma inv_recordsRoute param : asyncInv P (recordsRoute param).
Proof. unfold recordsRoute. repeat handler_step. Qed.

Lemma inv_batchOperation op : asyncInv P (batchOperation op).
Proof. unfold batchOperation. repeat handler_step. Qed.

Lemma inv_batchRoute sched reqBody s : P s -> P (fst (batchRoute sched reqBody s)).
Proof.
  intros Hs. unfold batchRoute.
  destruct (bodyOperations reqBody) as [[| | | |[|op ops]|]|]; try done.
  destruct (10 <? _)%nat; [done|].
  assert (H : P (fst (allSettled sched (map batchOperation (op :: ops)) s))).
  { apply inv_allSettled; [|done].
    apply Forall_map, Forall_forall. intros x _. apply inv_batchOperation. }
  by destruct (allSettled _ _ s) as [s' results].
Qed.

End RouteInvariant.

(** ** The lookup routes *)
Section RouteProperties.
Context {R : Runtime}.

(** [executeWithFallback] leaves the cache alone and logs warnings only. *)
Lemma executeWithFallback_frame {T} (operation : Operation T) maxRetries s :
  let s' := fst (run (executeWithFallback operation maxRetries) s) in
  cache s' = cache s /\
  exists l, trace s' = (trace s ++ l)%list /\ Forall isWarning l.
Proof.
  apply (inv_run (fun s' => cache s' = cache s /\
                   exists l, trace s' = (trace s ++ l)%list /\ Forall isWarning l)).
  - apply inv_executeWithFallback.
    + by intros pm s1 [? ?].
    + by intros w s1 [? ?].
    + intros i a m msg s1 [Hc (l & Hl & Hw)]. split; [done|].
      exists (l ++ [ProviderFailed i a m msg])%list. simpl. rewrite Hl, app_assoc.
      split; [done|]. apply Forall_app. split; [done|]. by constructor.
  - split; [done|]. exists []. by rewrite app_nil_r.
Qed.

(** C6: with a valid argument, nothing usable in the cache and [null]
    from upstream, the resolve route fails with "ENS name not found", status
    404, and leaves the cache as the lookup left it, while the reverse route
    answers 200 with [name: null] and has written exactly that result, less
    the [cached] flag, to the cache. *)
Theorem null_lookup_policy :
  (forall param s s1 s2 cached requestId now,
     let name := sanitizeInput param in
     let notFound := createError "ENS name not found" 404 in
     isValidENSName name = true ->
     run (CacheManager_get ("resolve:" +:+ name)) s = (s1, Returned cached) ->
     truthy cached = false ->
     run (executeWithFallback (resolveNameOp name) 3) s1 = (s2, Returned None) ->
     run (resolveRoute param) s = (s2, Thrown notFound) /\
     status (respond (Thrown notFound) requestId now) = 404 /\
     cache s2 = cache s1 /\
     exists l, trace s2 = (trace s1 ++ l)%list /\ Forall isWarning l) /\
  (forall param s s1 s2 cached requestId now,
     let address := sanitizeInput param in
     let cacheKey := "reverse:" +:+ address in
     let result := JObj [("address", JStr address); ("name", JNull);
                         ("timestamp", JStr (toISOString (Date_now (world s2))))] in
     let answer := JObj [("address", JStr address); ("name", JNull);
                         ("timestamp", JStr (toISOString (Date_now (world s2))));
                         ("cached", JBool false)] in
     isValidAddress address = true ->
     run (CacheManager_get cacheKey) s = (s1, Returned cached) ->
     truthy cached = false ->
     run (executeWithFallback (lookupAddressOp address) 3) s1 = (s2, Returned None) ->
     run (reverseRoute param) s = (afterSet cacheKey result None s2, Returned answer) /\
     status (respond (Returned answer) requestId now) = 200 /\
     NodeCache.v <$> NodeCache.data (memoryCache (cache (afterSet cacheKey result None s2)))
       !! cacheKey = Some result /\
     (redisClient (cache s2) = true ->
      In (RedisSent (SET cacheKey (JSON_stringify result)))
         (trace (afterSet cacheKey result None s2)))).
Proof.
  split.
  - intros param s s1 s2 cached requestId now name notFound Hvalid Hget Hfalsy Hup.
    split_and!.
    + unfold resolveRoute. fold name. rewrite Hvalid. cbn [negb].
      rewrite run_bind, run_await, Hget. cbn iota. rewrite Hfalsy.
      rewrite run_bind, run_await, Hup. cbn iota. reflexivity.
    + reflexivity.
    + pose proof (executeWithFallback_frame (resolveNameOp name) 3 s1) as H.
      rewrite Hup in H. apply H.
    + pose proof (executeWithFallback_frame (resolveNameOp name) 3 s1) as H.
      rewrite Hup in H. apply H.
  - intros param s s1 s2 cached requestId now address cacheKey result answer
      Hvalid Hget Hfalsy Hup.
    split_and!.
    + unfold reverseRoute. fold address cacheKey. rewrite Hvalid. cbn [negb].
      rewrite run_bind, run_await, Hget. cbn iota. rewrite Hfalsy.
      rewrite run_bind, run_await, Hup. cbn iota.
      unfold timestamp. rewrite run_bind, run_gets. cbn iota.
      rewrite run_bind, run_await, run_CacheManager_set. cbn iota.
      rewrite run_ret. reflexivity.
    + reflexivity.
    + by rewrite afterSet_entry.
    + intros Hredis. unfold afterSet. rewrite Hredis. cbn zeta.
      change (setCommand cacheKey result None) with (SET cacheKey (JSON_stringify result)).
      destruct (fst (redis _ _)); simpl; rewrite ?in_app_iff; simpl; tauto.
Qed.

End RouteProperties.

(** ** The batch route *)
Section BatchProperties.
Context {R : Runtime}.

Lemma reach_snoc {A} (c : Co A) k s : reach c (Susp k) -> reach c (snd (k s)).
Proof.
  intros H. remember (Susp k) as c' eqn:Hc'. induction H as [c|k' s' c H IH].
  - subst c. apply (reach_resume k s), reach_here.
  - apply (reach_resume k' s'). by apply IH.
Qed.

Lemma reach_trans {A} (c1 c2 c3 : Co A) : reach c1 c2 -> reach c2 c3 -> reach c1 c3.
Proof.
  induction 1 as [c|k s c H IH]; [done|]. intros H3. apply (reach_resume k s). by apply IH.
Qed.

Lemma reach_complete {A} (c : Co A) :
  forall s, reach c (Done (snd (complete c s))).
Proof.
  induction c as [o|k IH] using Co_induction; intros s; simpl.
  - apply reach_here.
  - apply (reach_resume k s). specialize (IH s). by destruct (k s) as [s' c'].
Qed.

Lemma spawn_started {A} (calls : list (Async A)) :
  forall s, Forall2 startedFrom calls (snd (spawn calls s)).
Proof.
  induction calls as [|m calls IH]; intros s; simpl; [constructor|].
  destruct (m s) as [s1 c] eqn:Hm. specialize (IH s1).
  destruct (spawn calls s1) as [s2 cs]. simpl in *. constructor; [|done].
  exists s. rewrite Hm. apply reach_here.
Qed.

Lemma resume_started {A} (calls : list (Async A)) i (cs : list (Co A)) s :
  Forall2 startedFrom calls cs -> Forall2 startedFrom calls (snd (resume i cs s)).
Proof.
  intros H. unfold resume. destruct (cs !! i) as [[o|k]|] eqn:Hi; try done.
  destruct (Forall2_lookup_r _ _ _ _ _ H Hi) as (m & Hm & s0 & Hreach).
  destruct (k s) as [s' c'] eqn:Hk. simpl.
  rewrite <- (list_insert_id calls i m Hm). apply Forall2_insert; [done|].
  exists s0. replace c' with (snd (k s)) by by rewrite Hk. by apply reach_snoc.
Qed.

Lemma interleave_started {A} (calls : list (Async A)) sched :
  forall (cs : list (Co A)) s,
  Forall2 startedFrom calls cs -> Forall2 startedFrom calls (snd (interleave sched cs s)).
Proof.
  induction sched as [|i sched IH]; intros cs s H; [done|]. simpl.
  pose proof (resume_started calls i cs s H) as H1.
  destruct (resume i cs s) as [s' cs']. by apply IH.
Qed.

Lemma drain_settles {A} (calls : list (Async A)) (cs : list (Co A)) :
  Forall2 startedFrom calls cs -> forall s, Forall2 settles calls (snd (drain cs s)).
Proof.
  induction 1 as [|m c calls cs [s0 Hm] _ IH]; intros s; simpl; [constructor|].
  pose proof (reach_complete c s) as Hc.
  destruct (complete c s) as [s1 o]. specialize (IH s1).
  destruct (drain cs s1) as [s2 os]. simpl in *. constructor; [|done].
  exists s0. by eapply reach_trans.
Qed.

(** Whatever the schedule, [allSettled] yields one outcome per call, in
    the order of the calls, and each is an outcome of its own call. *)
Lemma allSettled_settles {A} sched (calls : list (Async A)) s :
  Forall2 settles calls (snd (allSettled sched calls s)).
Proof.
  unfold allSettled. pose proof (spawn_started calls s) as H1.
  destruct (spawn calls s) as [s1 cs].
  pose proof (interleave_started calls sched cs s1 H1) as H2.
  destruct (interleave sched cs s1) as [s2 cs']. by apply drain_settles.
Qed.

(** *** One run of several calls, piece by piece *)

Lemma progress_app {A} (c1 c2 c3 : Co A) l1 l2 :
  progress c1 l1 c2 -> progress c2 l2 c3 -> progress c1 (l1 ++ l2) c3.
Proof.
  induction 1 as [c|k s l c H IH]; intros H2; [done|].
  simpl. constructor. by apply IH.
Qed.

Lemma started_app {A} (m : Async A) l1 l2 (c1 c2 : Co A) :
  started m l1 c1 -> progress c1 l2 c2 -> started m (l1 ++ l2) c2.
Proof.
  destruct l1 as [|[b a] l1]; [done|]. intros [Hfst Hp] H2.
  simpl. split; [done|]. by eapply progress_app.
Qed.

Lemma chained_app s steps1 s1 steps2 s2 :
  chained s steps1 s1 -> chained s1 steps2 s2 -> chained s (steps1 ++ steps2) s2.
Proof.
  revert s. induction steps1 as [|[i [b a]] steps1 IH]; intros s; simpl.
  - by intros ->.
  - intros [-> H1] H2. split; [done|]. by apply IH.
Qed.

Lemma piecesOf_cons i j (p : Piece) steps :
  piecesOf i ((j, p) :: steps) =
  if decide (j = i) then p :: piecesOf i steps else piecesOf i steps.
Proof.
  unfold piecesOf. rewrite filter_cons. simpl. by destruct (decide (j = i)).
Qed.

Lemma piecesOf_app i steps1 steps2 :
  piecesOf i (steps1 ++ steps2) = (piecesOf i steps1 ++ piecesOf i steps2)%list.
Proof. unfold piecesOf. by rewrite filter_app, fmap_app. Qed.

Lemma piecesOf_own i (l : list Piece) : piecesOf i (pair i <$> l) = l.
Proof.
  induction l as [|p l IH]; [done|]. rewrite fmap_cons, piecesOf_cons, IH.
  by destruct (decide (i = i)).
Qed.

Lemma piecesOf_other i j (l : list Piece) : j <> i -> piecesOf i (pair j <$> l) = [].
Proof.
  intros Hne. induction l as [|p l IH]; [done|]. rewrite fmap_cons, piecesOf_cons, IH.
  by destruct (decide (j = i)).
Qed.

(** Running a promise to completion is a row of pieces of its own. *)
Lemma complete_progress {A} (c : Co A) :
  forall s, exists l,
    progress c l (Done (snd (complete c s))) /\
    forall i, chained s (pair i <$> l) (fst (complete c s)).
Proof.
  induction c as [o|k IH] using Co_induction; intros s.
  - exists []. split; [constructor|done].
  - destruct (IH s (fst (k s))) as (l & Hp & Hch).
    assert (Hstep : complete (Susp k) s = complete (snd (k s)) (fst (k s))).
    { simpl. by destruct (k s). }
    rewrite Hstep. exists ((s, fst (k s)) :: l). split.
    + by apply progress_resume.
    + intros i. simpl. split; [done|apply Hch].
Qed.

(** A call that ran alone, from [s] to [s'], is [run]. *)
Lemma progress_alone {A} (c : Co A) l (o : Outcome A) :
  progress c l (Done o) ->
  forall s s', chained s (pair 0%nat <$> l) s' -> complete c s = (s', o).
Proof.
  intros H. remember (Done o) as d eqn:Hd.
  induction H as [c|k s0 l c H IH]; intros s s' Hch.
  - subst c. simpl in *. by subst s'.
  - simpl in Hch. destruct Hch as [-> Hch]. simpl.
    specialize (IH Hd _ _ Hch). by destruct (k s) as [s1 c1].
Qed.

Lemma executes_alone {A} (m : Async A) l (o : Outcome A) s s' :
  executes m l o -> chained s (pair 0%nat <$> l) s' -> run m s = (s', o).
Proof.
  destruct l as [|[b a] l]; [done|]. intros [Hfst Hp] [-> Hch].
  unfold run. destruct (m s) as [s1 c]. cbn [fst snd] in *. subst a.
  by eapply progress_alone.
Qed.

Lemma spawn_underWay {A} (calls : list (Async A)) :
  forall n s, exists steps,
    chained s steps (fst (spawn calls s)) /\
    Forall (fun step => (step.1 < n + length calls)%nat) steps /\
    (forall j, (j < n)%nat -> piecesOf j steps = []) /\
    length (snd (spawn calls s)) = length calls /\
    forall i m, calls !! i = Some m ->
      exists c, snd (spawn calls s) !! i = Some c /\
                started m (piecesOf (n + i) steps) c.
Proof.
  induction calls as [|m calls IH]; intros n s; simpl.
  - exists []. by split_and!.
  - destruct (m s) as [s1 c] eqn:Hm.
    destruct (IH (S n) s1) as (steps & Hch & Hidx & Hlow & Hlen & Hall).
    destruct (spawn calls s1) as [s2 cs]. cbn [fst snd] in *.
    exists ((n, (s, s1)) :: steps). split_and!.
    + done.
    + constructor; [simpl; lia|].
      eapply Forall_impl; [exact Hidx|]. intros step Hstep. simpl in *. lia.
    + intros j Hj. rewrite piecesOf_cons.
      destruct (decide (n = j)); [lia|]. apply Hlow. lia.
    + simpl. by rewrite Hlen.
    + intros [|i] m' Hi; simpl in Hi.
      * injection Hi as <-. exists c. split; [done|].
        rewrite Nat.add_0_r, piecesOf_cons.
        destruct (decide (n = n)); [|done]. rewrite Hlow by lia.
        simpl. rewrite Hm. split; [done|constructor].
      * destruct (Hall i m' Hi) as (c' & Hc' & Hst). exists c'. split; [done|].
        rewrite piecesOf_cons. destruct (decide (n = n + S i)%nat); [lia|].
        by replace (n + S i)%nat with (S n + i)%nat by lia.
Qed.

Lemma resume_underWay {A} (calls : list (Async A)) i steps (cs : list (Co A)) s :
  underWay calls steps cs ->
  exists steps',
    chained s steps' (fst (resume i cs s)) /\
    Forall (fun step => (step.1 < length calls)%nat) steps' /\
    underWay calls (steps ++ steps') (snd (resume i cs s)).
Proof.
  intros [Hlen Hall]. unfold resume.
  destruct (cs !! i) as [[o|k]|] eqn:Hi.
  1,3: exists []; rewrite app_nil_r; by split_and!.
  destruct (k s) as [s' c'] eqn:Hk. cbn [fst snd].
  exists [(i, (s, s'))]. split; [done|]. split.
  { repeat constructor. simpl. rewrite <- Hlen. by eapply lookup_lt_Some. }
  split.
  - by rewrite length_insert.
  - intros j m Hj. destruct (Hall j m Hj) as (c & Hc & Hst).
    rewrite piecesOf_app, piecesOf_cons. destruct (decide (i = j)) as [->|Hne].
    + exists c'. split.
      * apply list_lookup_insert_eq. by eapply lookup_lt_Some.
      * rewrite Hi in Hc. injection Hc as <-.
        eapply started_app; [exact Hst|].
        replace s' with (fst (k s)) by by rewrite Hk.
        replace c' with (snd (k s)) by by rewrite Hk.
        apply progress_resume, progress_here.
    + exists c. rewrite list_lookup_insert_ne by done.
      change (piecesOf j []) with (@nil Piece). by rewrite app_nil_r.
Qed.

Lemma interleave_underWay {A} (calls : list (Async A)) sched :
  forall steps (cs : list (Co A)) s,
  underWay calls steps cs ->
  exists steps',
    chained s steps' (fst (interleave sched cs s)) /\
    Forall (fun step => (step.1 < length calls)%nat) steps' /\
    underWay calls (steps ++ steps') (snd (interleave sched cs s)).
Proof.
  induction sched as [|i sched IH]; intros steps cs s H; simpl.
  - exists []. rewrite app_nil_r. by split_and!.
  - destruct (resume_underWay calls i steps cs s H) as (steps1 & Hch1 & Hidx1 & H1).
    destruct (resume i cs s) as [s1 cs1]. cbn [fst snd] in *.
    destruct (IH _ _ s1 H1) as (steps2 & Hch2 & Hidx2 & H2).
    exists (steps1 ++ steps2)%list. split_and!.
    + by eapply chained_app.
    + by apply Forall_app.
    + by rewrite app_assoc.
Qed.

Lemma drain_executes {A} (calls : list (Async A)) (cs : list (Co A)) :
  forall n steps s,
  (forall i c, cs !! i = Some c ->
     exists m, calls !! (n + i)%nat = Some m /\ started m (piecesOf (n + i) steps) c) ->
  exists steps',
    chained s steps' (fst (drain cs s)) /\
    Forall (fun step => (step.1 < n + length cs)%nat) steps' /\
    (forall j, (j < n)%nat -> piecesOf j steps' = []) /\
    length (snd (drain cs s)) = length cs /\
    forall i c, cs !! i = Some c ->
      exists m o, calls !! (n + i)%nat = Some m /\
                  snd (drain cs s) !! i = Some o /\
                  executes m (piecesOf (n + i) (steps ++ steps')) o.
Proof.
  induction cs as [|c cs IH]; intros n steps s Hall; simpl.
  - exists []. by split_and!.
  - destruct (complete_progress c s) as (l & Hp & Hch).
    destruct (complete c s) as [s1 o] eqn:Hc. cbn [fst snd] in *.
    destruct (IH (S n) (steps ++ (pair n <$> l))%list s1)
      as (steps2 & Hch2 & Hidx & Hlow & Hlen & Hrest).
    { intros i c' Hi. destruct (Hall (S i) c' Hi) as (m & Hm & Hst).
      exists m. replace (S n + i)%nat with (n + S i)%nat by lia. split; [done|].
      rewrite piecesOf_app, piecesOf_other, app_nil_r by lia. done. }
    destruct (drain cs s1) as [s2 os]. cbn [fst snd] in *.
    exists ((pair n <$> l) ++ steps2)%list. split_and!.
    + eapply chained_app; [apply Hch|done].
    + apply Forall_app. split.
      * apply Forall_fmap, Forall_true. intros p. simpl. lia.
      * eapply Forall_impl; [exact Hidx|]. intros step Hstep. simpl in *. lia.
    + intros j Hj. rewrite piecesOf_app, piecesOf_other, Hlow by lia. done.
    + simpl. by rewrite Hlen.
    + intros [|i] c' Hi; simpl in Hi.
      * injection Hi as <-. destruct (Hall 0%nat c eq_refl) as (m & Hm & Hst).
        exists m, o. split_and!; [done|done|].
        rewrite Nat.add_0_r in *. rewrite !piecesOf_app, piecesOf_own, Hlow by lia.
        rewrite app_nil_r. by eapply started_app.
      * destruct (Hrest i c' Hi) as (m & o' & Hm & Ho & Hex).
        exists m, o'. replace (n + S i)%nat with (S n + i)%nat by lia.
        split_and!; [done|done|]. by rewrite <- app_assoc in Hex.
Qed.

(** Whatever the schedule, [allSettled] is one run of the calls and of
    nothing else, piece after piece: it yields one outcome per call, in the
    order of the calls, and each is what its own call settled with in that
    run. *)
Lemma allSettled_executes {A} sched (calls : list (Async A)) s :
  exists steps,
    chained s steps (fst (allSettled sched calls s)) /\
    Forall (fun step => (step.1 < length calls)%nat) steps /\
    length (snd (allSettled sched calls s)) = length calls /\
    forall i m, calls !! i = Some m ->
      exists o, snd (allSettled sched calls s) !! i = Some o /\
                executes m (piecesOf i steps) o.
Proof.
  unfold allSettled.
  destruct (spawn_underWay calls 0 s) as (steps0 & Hch0 & Hidx0 & _ & Hlen0 & Hall0).
  destruct (spawn calls s) as [s1 cs]. cbn [fst snd] in *.
  destruct (interleave_underWay calls sched steps0 cs s1)
    as (steps1 & Hch1 & Hidx1 & Hlen1 & Hall1).
  { by split. }
  destruct (interleave sched cs s1) as [s2 cs']. cbn [fst snd] in *.
  destruct (drain_executes calls cs' 0 (steps0 ++ steps1)%list s2)
    as (steps2 & Hch2 & Hidx2 & _ & Hlen2 & Hall2).
  { intros i c Hi. destruct (lookup_lt_is_Some_2 calls i) as [m Hm].
    { rewrite <- Hlen1. by eapply lookup_lt_Some. }
    exists m. split; [done|]. destruct (Hall1 i m Hm) as (c' & Hc' & Hst).
    simpl. congruence. }
  destruct (drain cs' s2) as [s3 os]. cbn [fst snd] in *.
  exists ((steps0 ++ steps1) ++ steps2)%list. split_and!.
  - eapply chained_app; [|done]. by eapply chained_app.
  - rewrite !Forall_app. split_and!; [done|done|]. by rewrite <- Hlen1.
  - congruence.
  - intros i m Hm. destruct (Hall1 i m Hm) as (c' & Hc' & _).
    destruct (Hall2 i c' Hc') as (m' & o & Hm' & Ho & Hex).
    simpl in Hm'. rewrite Hm in Hm'. injection Hm' as <-. by exists o.
Qed.

(** A batch of one sub-operation runs like that sub-operation alone. *)
Lemma interleave_single {A} sched :
  forall (c : Co A) s,
  (let '(s1, cs) := interleave sched [c] s in drain cs s1) =
  (let '(s1, o) := complete c s in (s1, [o])).
Proof.
  induction sched as [|i sched IH]; intros c s.
  - simpl. by destruct (complete c s).
  - simpl. unfold resume. destruct i as [|i]; simpl.
    + destruct c as [o|k]; [apply IH|]. simpl.
      destruct (k s) as [s' c']. apply IH.
    + apply IH.
Qed.

Lemma allSettled_single {A} sched (m : Async A) s :
  allSettled sched [m] s = (fst (run m s), [snd (run m s)]).
Proof.
  unfold allSettled, run. simpl. destruct (m s) as [s1 c].
  rewrite interleave_single. by destruct (complete c s1).
Qed.

(** C8: a batch of one to ten sub-operations is answered with status 200
    and one entry per sub-operation, in request order and under any
    schedule.  The batch is one run of its sub-operations and of nothing
    else, piece after piece from the state of the request, in which every
    sub-operation ran to its end; the entry at a position is
    [{index, status: "fulfilled", data, error: null}] with the value the
    sub-operation at that position returned in that run, or
    [{index, status: "rejected", data: null, error}] with the message of the
    error it threw.  A batch of one sub-operation is that sub-operation
    run alone from the state of the request.  A batch of more than ten is
    refused with status 400 and the state is untouched. *)
Theorem batchRoute_settles_all (sched : list nat) (reqBody : json)
    (ops : list json) (s : State) (requestId : string) (now : Z) :
  bodyOperations reqBody = Some (JArr ops) ->
  ((1 <= length ops <= 10)%nat ->
   exists s' entries steps,
     batchRoute sched reqBody s =
       (s', Returned (JObj [("results", JArr entries)])) /\
     status (respond (snd (batchRoute sched reqBody s)) requestId now) = 200 /\
     length entries = length ops /\
     chained s steps s' /\
     Forall (fun step => (step.1 < length ops)%nat) steps /\
     forall i op, ops !! i = Some op ->
       (exists value,
          executes (batchOperation op) (piecesOf i steps) (Returned value) /\
          entries !! i =
            Some (JObj [("index", JNum (Z.of_nat i)); ("status", JStr "fulfilled");
                        ("data", value); ("error", JNull)])) \/
       (exists reason,
          executes (batchOperation op) (piecesOf i steps) (Thrown reason) /\
          entries !! i =
            Some (JObj [("index", JNum (Z.of_nat i)); ("status", JStr "rejected");
                        ("data", JNull); ("error", JStr (message reason))]))) /\
  (forall op,
     ops = [op] ->
     batchRoute sched reqBody s =
       (fst (run (batchOperation op) s),
        Returned (JObj [("results", JArr
          [ match snd (run (batchOperation op) s) with
            | Returned value =>
                JObj [("index", JNum 0); ("status", JStr "fulfilled");
                      ("data", value); ("error", JNull)]
            | Thrown reason =>
                JObj [("index", JNum 0); ("status", JStr "rejected");
                      ("data", JNull); ("error", JStr (message reason))]
            end ])]))) /\
  ((10 < length ops)%nat ->
   let tooMany := createError "Batch size limit exceeded (max 10)" 400 in
   batchRoute sched reqBody s = (s, Thrown tooMany) /\
   status (respond (Thrown tooMany) requestId now) = 400).
Proof.
  intros Hbody. unfold batchRoute. rewrite Hbody. split_and!.
  - intros [Hlo Hhi]. destruct ops as [|op ops]; [simpl in Hlo; lia|].
    destruct (Nat.ltb_spec 10 (length (op :: ops))) as [Hlt|_]; [lia|].
    destruct (allSettled_executes sched (map batchOperation (op :: ops)) s)
      as (steps & Hch & Hidx & Hlen & Hall).
    destruct (allSettled sched _ s) as [s' results]. cbn [fst snd] in *.
    exists s', (imap settledEntry results), steps. split_and!.
    + reflexivity.
    + reflexivity.
    + by rewrite length_imap, Hlen, length_map.
    + exact Hch.
    + by rewrite length_map in Hidx.
    + intros i op' Hi.
      destruct (Hall i (batchOperation op')) as (o & Ho & Hex).
      { change (map batchOperation (op :: ops)) with (batchOperation <$> (op :: ops)).
        by rewrite list_lookup_fmap, Hi. }
      rewrite list_lookup_imap, Ho. destruct o as [value|reason]; [left|right]; by eexists.
  - intros op ->. cbn [length Nat.ltb Nat.leb map].
    rewrite allSettled_single. by destruct (snd (run (batchOperation op) s)).
  - intros Hlt. destruct ops as [|op ops]; [simpl in Hlt; lia|].
    destruct (Nat.ltb_spec 10 (length (op :: ops))) as [_|Hle]; [done|lia].
Qed.

(** The resolve sub-operation of a batch, when the cache has nothing usable
    and upstream answers [null]: it returns [address: null] and caches it. *)
Lemma batchOperation_resolve_null (x : string) s s1 s2 cached :
  let name := sanitizeInput x in
  let cacheKey := "resolve:" +:+ name in
  let result := JObj [("name", JStr name); ("address", JNull)] in
  run (CacheManager_get cacheKey) s = (s1, Returned cached) ->
  truthy cached = false ->
  run (executeWithFallback (resolveNameOp name) 3) s1 = (s2, Returned None) ->
  run (batchOperation (JObj [("type", JStr "resolve"); ("name", JStr x)])) s =
  (afterSet cacheKey result None s2, Returned result).
Proof.
  intros name cacheKey result Hget Hfalsy Hup. unfold batchOperation.
  change (property "type" _) with (Returned (Some (JStr "resolve"))).
  rewrite run_bind, run_liftOutcome. cbn iota.
  change (isString "resolve" _) with true. cbn iota.
  change (property "name" _) with (Returned (Some (JStr x))).
  rewrite run_bind, run_liftOutcome. cbn iota.
  rewrite run_bind, run_liftOutcome. cbn iota. cbn [sanitizeAny].
  rewrite run_bind, run_await. fold name cacheKey. rewrite Hget. cbn iota. rewrite Hfalsy.
  rewrite run_bind, run_await, Hup. cbn iota.
  rewrite run_bind, run_await, run_CacheManager_set. cbn iota.
  by rewrite run_ret.
Qed.

End BatchProperties.

(** ** Expiry in the two tiers *)
Section Expiry.

Lemma sentNoSetex_route {R : Runtime} {A} (m : Async A) (s : State) :
  (forall P : State -> Prop,
     (forall pm s, P s -> P (withProviderManager pm s)) ->
     (forall cm s, P s -> P (withCache cm s)) ->
     (forall w s, P s -> P (withWorld w s)) ->
     (forall ev s, notSetex ev -> P s -> P (emit ev s)) ->
     asyncInv P m) ->
  sentNoSetex s (fst (run m s)).
Proof.
  intros Hm. apply (inv_run (sentNoSetex s)).
  - apply Hm; try done.
    intros ev s1 Hev (l & Hl & Hno). exists (l ++ [ev])%list. simpl.
    rewrite Hl, app_assoc. split; [done|]. apply Forall_app. split; [done|]. by constructor.
  - exists []. by rewrite app_nil_r.
Qed.

(** C10: [set] without a TTL stores the value in the memory cache with an
    expiry time of [now + 300] seconds and sends it to Redis with a plain
    [SET]; no route and no batch ever sends a [SETEX]; and a Redis server
    answers [GET] with a value written by [SET] however much later it is
    asked, while a value written by [SETEX] is gone once its seconds are
    over. *)
Theorem set_without_ttl_expiry :
  (forall (R : Runtime) key value s,
     NodeCache.stdTTL (memoryCache (cache s)) = CONFIG.CACHE_TTL ->
     redisClient (cache s) = true ->
     exists s' l,
       run (CacheManager_set key value None) s = (s', Returned tt) /\
       NodeCache.data (memoryCache (cache s')) !! key =
         Some (NodeCache.mkEntry value (Date_now (world s) + 300 * 1000)) /\
       trace s' = (trace s ++ RedisSent (SET key (JSON_stringify value)) :: l)%list /\
       Forall notSetex l) /\
  (forall (R : Runtime) param sched reqBody s,
     sentNoSetex s (fst (run (resolveRoute param) s)) /\
     sentNoSetex s (fst (run (reverseRoute param) s)) /\
     sentNoSetex s (fst (run (avatarRoute param) s)) /\
     sentNoSetex s (fst (run (recordsRoute param) s)) /\
     sentNoSetex s (fst (batchRoute sched reqBody s))) /\
  (forall w key text dt,
     Reference.redisDown w = false ->
     0 <= dt ->
     fst (Reference.redisServer (GET key)
            (Reference.elapse dt (snd (Reference.redisServer (SET key text) w)))) =
     Returned (Some text)) /\
  (forall w key text seconds dt,
     Reference.redisDown w = false ->
     0 < seconds ->
     seconds * 1000 <= dt ->
     fst (Reference.redisServer (GET key)
            (Reference.elapse dt
               (snd (Reference.redisServer (SETEX key seconds text) w)))) =
     Returned None).
Proof.
  split_and!.
  - intros R key value s Hstd Hredis.
    exists (afterSet key value None s).
    exists (match fst (redis (setCommand key value None) (world s)) with
            | Returned _ => []
            | Thrown e => [RedisSetError e]
            end).
    split_and!.
    + apply run_CacheManager_set.
    + rewrite afterSet_entry. unfold NodeCache.livetime. rewrite Hstd. reflexivity.
    + unfold afterSet. rewrite Hredis. cbn zeta.
      change (setCommand key value None) with (SET key (JSON_stringify value)).
      destruct (fst (redis _ _)); simpl; by rewrite <- ?app_assoc.
    + destruct (fst (redis _ _)); repeat constructor.
  - intros R param sched reqBody s. split_and!.
    + apply sentNoSetex_route. intros. by apply inv_resolveRoute.
    + apply sentNoSetex_route. intros. by apply inv_reverseRoute.
    + apply sentNoSetex_route. intros. by apply inv_avatarRoute.
    + apply sentNoSetex_route. intros. by apply inv_recordsRoute.
    + apply (inv_batchRoute (sentNoSetex s)); try done.
      * intros ev s1 Hev (l & Hl & Hno). exists (l ++ [ev])%list. simpl.
        rewrite Hl, app_assoc. split; [done|]. apply Forall_app. split; [done|].
        by constructor.
      * exists []. by rewrite app_nil_r.
  - intros w key text dt Hup Hdt. unfold Reference.redisServer at 2. rewrite Hup.
    cbn [snd]. unfold Reference.redisServer. cbn [Reference.elapse Reference.redisDown
      Reference.withRedisData Reference.redisData Reference.now].
    rewrite Hup, lookup_insert_eq. reflexivity.
  - intros w key text seconds dt Hup Hsec Hdt. unfold Reference.redisServer at 2.
    rewrite Hup. destruct (Z.leb_spec seconds 0) as [?|_]; [lia|].
    cbn [snd]. unfold Reference.redisServer. cbn [Reference.elapse Reference.redisDown
      Reference.withRedisData Reference.redisData Reference.now].
    rewrite Hup, lookup_insert_eq.
    destruct (Z.leb_spec (Reference.now w + seconds * 1000) (Reference.now w + dt));
      [reflexivity|lia].
Qed.

End Expiry.

(** ** The heartbeat of the notifier *)
Module NotifierProperties.
Import Notifier.

Lemma steps_cons sv ev evs : steps sv (ev :: evs) = steps (step sv ev) evs.
Proof. reflexivity. Qed.

Lemma steps_app sv evs1 evs2 : steps sv (evs1 ++ evs2) = steps (steps sv evs1) evs2.
Proof. apply foldl_app. Qed.

Lemma update_lookup c c' f sv :
  connections (update c' f sv) !! c =
  if decide (c' = c) then f <$> connections sv !! c else connections sv !! c.
Proof.
  unfold update. simpl. destruct (decide (c' = c)) as [->|Hne].
  - apply lookup_alter_eq.
  - by apply lookup_alter_ne.
Qed.

Section Preservation.
Variable Q : Connection -> Prop.
Variable c : nat.
Hypothesis Q_send : forall msg k, Q k -> Q (send msg k).
Hypothesis Q_close : forall k, Q k -> Q (onClose k).
Hypothesis Q_closed : forall k, Q k -> Q (withReadyState CLOSED k).
Hypothesis Q_closing : forall k, Q k -> Q (withReadyState CLOSING k).
Hypothesis Q_tick : forall k, Q k -> heartbeat k = true -> Q (onHeartbeat k).

Lemma update_holds c' f sv :
  (forall k, Q k -> Q (f k)) -> holds Q c sv -> holds Q c (update c' f sv).
Proof.
  intros Hf (k & Hk & HQ). unfold holds. rewrite update_lookup.
  destruct (decide (c' = c)); rewrite Hk; simpl; eauto.
Qed.

Lemma broadcast_holds blockNumber now sv : holds Q c sv -> holds Q c (broadcast blockNumber now sv).
Proof.
  unfold broadcast. generalize (connectedClients sv) at 1. intros clients.
  revert sv. induction clients as [|c' clients IH]; intros sv H; [done|].
  simpl. apply IH. apply update_holds; [|done]. intros k. apply Q_send.
Qed.

Lemma step_holds sv ev :
  (forall k, ev = Pong c -> Q k -> Q (onPong k)) ->
  holds Q c sv -> holds Q c (step sv ev).
Proof.
  intros Q_pong H. destruct ev as [c' now|c'|c'|c' parsed now|c'|c'|blockNumber now]; simpl.
  - unfold onConnection. destruct H as (k & Hk & HQ).
    destruct (connections sv !! c') eqn:Hc'; [by exists k|].
    assert (c' <> c) by congruence.
    destruct (_ <=? _)%nat; exists k; simpl; by rewrite lookup_insert_ne.
  - destruct (decide (c' = c)) as [->|Hne].
    + apply update_holds; [|done]. intros k HQ. unfold whenRegistered.
      destruct (registered k); [by apply Q_pong|done].
    + destruct H as (k & Hk & HQ). exists k. rewrite update_lookup.
      by destruct (decide (c' = c)).
  - apply update_holds; [|done]. intros k HQ.
    destruct (registered k); simpl; [|done].
    destruct (heartbeat k) eqn:Hh; [by apply Q_tick|done].
  - apply update_holds; [|done]. intros k HQ. unfold whenRegistered, onMessage.
    destruct (registered k); [|done].
    destruct (subscribeChannel parsed); [by apply Q_send|done].
  - apply update_holds; [|done]. intros k HQ.
    destruct (readyState k); try done. by apply Q_closing.
  - destruct (connections sv !! c') as [k'|] eqn:Hc'; [|done].
    destruct (registered k').
    + destruct H as (k & Hk & HQ). unfold holds. simpl.
      destruct (decide (c' = c)) as [->|Hne].
      * rewrite lookup_insert_eq. exists (onClose k'). split; [done|].
        apply Q_close. congruence.
      * rewrite lookup_insert_ne by done. eauto.
    + apply update_holds; [|done]. apply Q_closed.
  - by apply broadcast_holds.
Qed.

Lemma steps_holds evs :
  (forall k, In (Pong c) evs -> Q k -> Q (onPong k)) ->
  forall sv, holds Q c sv -> holds Q c (steps sv evs).
Proof.
  induction evs as [|ev evs IH]; intros Q_pong sv H; [done|].
  rewrite steps_cons. apply IH.
  - intros k Hin. apply Q_pong. by right.
  - apply step_holds; [|done]. intros k ->. apply Q_pong. by left.
Qed.
End Preservation.

Lemma send_not_open msg k : readyState k <> OPEN -> send msg k = k.
Proof. unfold send. by destruct (readyState k). Qed.

Lemma send_fields msg k :
  registered (send msg k) = registered k /\
  isAlive (send msg k) = isAlive k /\
  heartbeat (send msg k) = heartbeat k /\
  readyState (send msg k) = readyState k.
Proof. unfold send. destruct (readyState k) eqn:H; simpl; rewrite ?H; done. Qed.

Lemma terminate_not_open k : readyState (terminate k) <> OPEN.
Proof. unfold terminate. destruct (readyState k) eqn:H; simpl; rewrite ?H; discriminate. Qed.

Lemma steps_unanswered c evs sv :
  ~ In (Pong c) evs -> holds unanswered c sv -> holds unanswered c (steps sv evs).
Proof.
  intros Hno. apply steps_holds; try done.
  - intros msg k (Hr & H). unfold unanswered.
    destruct (send_fields msg k) as (-> & -> & -> & ->). by split.
  - intros k (Hr & H). split; [done|]. by right.
  - intros k (Hr & H). split; [done|]. simpl.
    destruct H as [?|[? ?]]; [by left|by right].
  - intros k (Hr & H). split; [done|]. simpl.
    destruct H as [?|[? ?]]; [by left|by right].
  - intros k (Hr & H) Hh. destruct H as [[Ha _]|[_ Hh']]; [|congruence].
    unfold onHeartbeat. rewrite Ha. simpl. split.
    + unfold terminate. by destruct (readyState k).
    + right. split; [apply terminate_not_open|].
      unfold terminate. by destruct (readyState k).
Qed.

Lemma steps_shut c l evs sv : holds (shut l) c sv -> holds (shut l) c (steps sv evs).
Proof.
  apply steps_holds.
  - intros msg k (Hr & Hs & Hh & Hl). by rewrite send_not_open.
  - by intros k (Hr & Hs & Hh & Hl).
  - by intros k (Hr & Hs & Hh & Hl).
  - by intros k (Hr & Hs & Hh & Hl).
  - intros k (Hr & Hs & Hh & Hl) Hh'. congruence.
  - by intros k _ (Hr & Hs & Hh & Hl).
Qed.

Lemma broadcast_clients blockNumber now sv :
  connectedClients (broadcast blockNumber now sv) = connectedClients sv /\
  forall c, is_Some (connections sv !! c) ->
            is_Some (connections (broadcast blockNumber now sv) !! c).
Proof.
  unfold broadcast. generalize (connectedClients sv) at 1 3. intros clients.
  revert sv. induction clients as [|c' clients IH]; intros sv; [done|].
  simpl. destruct (IH (update c' (send (BlockEvent blockNumber now)) sv)) as [H1 H2].
  split; [done|]. intros c Hc. apply H2. rewrite update_lookup.
  destruct (decide (c' = c)); [|done]. destruct Hc as [k ->]. by eexists.
Qed.

Lemma update_removed c c' f sv : removed c sv -> removed c (update c' f sv).
Proof.
  intros [[k Hk] Hnot]. split; [|done]. rewrite update_lookup, Hk.
  destruct (decide (c' = c)); by eexists.
Qed.

Lemma step_removed c sv ev : removed c sv -> removed c (step sv ev).
Proof.
  intros H.
  destruct ev as [c' now|c'|c'|c' parsed now|c'|c'|blockNumber now]; cbn [step];
    try by apply update_removed.
  - destruct H as [Hsome Hnot]. unfold removed, onConnection.
    destruct (connections sv !! c') eqn:Hc'; [done|].
    assert (c' <> c) by (intros ->; rewrite Hc' in Hsome; by destruct Hsome).
    destruct (_ <=? _)%nat; simpl; rewrite lookup_insert_ne by done; split; try done.
    rewrite in_app_iff. simpl. tauto.
  - destruct (connections sv !! c') as [k'|] eqn:Hc'; [|done].
    destruct (registered k'); [|by apply update_removed].
    destruct H as [Hsome Hnot]. unfold removed. simpl. split.
    + destruct (decide (c' = c)) as [->|Hne];
        [rewrite lookup_insert_eq|rewrite lookup_insert_ne by done]; [by eexists|done].
    + rewrite <- list_elem_of_In, list_elem_of_filter, list_elem_of_In. tauto.
  - destruct H as [Hsome Hnot].
    destruct (broadcast_clients blockNumber now sv) as [H1 H2].
    split; [by apply H2|by rewrite H1].
Qed.

Lemma steps_removed c evs : forall sv, removed c sv -> removed c (steps sv evs).
Proof.
  induction evs as [|ev evs IH]; intros sv H; [done|].
  rewrite steps_cons. by apply IH, step_removed.
Qed.

Lemma closed_removed c l sv : holds (shut l) c sv -> removed c (step sv (Closed c)).
Proof.
  intros (k & Hk & Hr & _). unfold removed. simpl. rewrite Hk, Hr. simpl.
  rewrite lookup_insert_eq. split; [by eexists|].
  rewrite <- list_elem_of_In, list_elem_of_filter. tauto.
Qed.

(** C9: a connection whose heartbeat is running and whose peer answers no
    probe between two firings of its interval is no longer open after the
    second firing, and its interval is cleared; from then on no block event
    is sent to it whatever happens, and once its [close] event has been
    handled it is not in [connectedClients] any more. *)
Theorem unanswered_probe_ends_broadcasts (sv : Server) (c : nat) (k : Connection)
    (between after : list Event) :
  connections sv !! c = Some k ->
  registered k = true ->
  heartbeat k = true ->
  ~ In (Pong c) between ->
  let sv1 := steps sv (Tick c :: between ++ [Tick c]) in
  (exists k1, connections sv1 !! c = Some k1 /\
              readyState k1 <> OPEN /\ heartbeat k1 = false) /\
  blocksSent c (steps sv1 after) = blocksSent c sv1 /\
  (In (Closed c) after -> ~ In c (connectedClients (steps sv1 after))).
Proof.
  intros Hk Hr Hh Hno sv1.
  assert (H1 : holds unanswered c (step sv (Tick c))).
  { unfold holds. cbn [step]. rewrite update_lookup. destruct (decide (c = c)); [|done].
    rewrite Hk. simpl. rewrite Hr, Hh. simpl. eexists. split; [done|].
    unfold onHeartbeat. destruct (isAlive k); simpl.
    - split; [done|]. by left.
    - split; [unfold terminate; by destruct (readyState k)|]. right.
      split; [apply terminate_not_open|]. unfold terminate. by destruct (readyState k). }
  apply (steps_unanswered c between) in H1; [|done].
  assert (H2 : exists l, holds (shut l) c sv1).
  { subst sv1. rewrite steps_cons, steps_app.
    destruct H1 as (k1 & Hk1 & Hr1 & H1).
    set (sv2 := steps (step sv (Tick c)) between) in *.
    change (steps sv2 [Tick c]) with (step sv2 (Tick c)). cbn [step].
    unfold holds. rewrite update_lookup. destruct (decide (c = c)); [|done].
    rewrite Hk1. simpl. rewrite Hr1. simpl.
    destruct H1 as [[Ha Hb]|[Hs Hb]]; rewrite Hb.
    - unfold onHeartbeat. rewrite Ha. simpl. eexists _, _. split; [done|].
      split_and!; try done.
      + unfold terminate. by destruct (readyState k1).
      + apply terminate_not_open.
      + unfold terminate. by destruct (readyState k1).
    - eexists _, _. split; [done|]. by split_and!. }
  destruct H2 as (l & H2).
  assert (Hl : forall sv', holds (shut l) c sv' -> blocksSent c sv' = l).
  { intros sv' (k' & Hk' & _ & _ & _ & Hl). unfold blocksSent. by rewrite Hk'. }
  split_and!.
  - destruct H2 as (k1 & Hk1 & _ & Hs & Hb & _). by exists k1.
  - rewrite (Hl sv1 H2). apply Hl. by apply steps_shut.
  - intros Hin. apply in_split in Hin as (a1 & a2 & ->).
    rewrite steps_app, steps_cons. apply steps_removed.
    eapply closed_removed. by apply steps_shut.
Qed.

End NotifierProperties.

(** ** The hit rate

    The arithmetic of [SpecFloat], followed through the sum, the quotient
    and the product of [getStats]. *)
Module StatsProperties.
Import Stats.

Lemma digits2_size p : digits2_pos p = Pos.size p.
Proof. induction p; simpl; congruence. Qed.

Lemma Zdigits2_nonneg m : 0 <= Zdigits2 m.
Proof. destruct m; simpl; lia. Qed.

Lemma Zdigits2_gt m : 0 <= m -> m < 2 ^ Zdigits2 m.
Proof.
  destruct m as [|p|p]; unfold Zdigits2; try lia. intros _.
  rewrite digits2_size. pose proof (Pos.size_gt p) as H.
  change 2 with (Z.pos 2). rewrite <- Pos2Z.inj_pow. lia.
Qed.

Lemma Zdigits2_le m : 0 < m -> 2 ^ (Zdigits2 m - 1) <= m.
Proof.
  destruct m as [|p|p]; unfold Zdigits2; try lia. intros _.
  rewrite digits2_size. pose proof (Pos.size_le p) as H.
  assert (H2 : 2 ^ Z.pos (Pos.size p) <= 2 * Z.pos p).
  { change 2 with (Z.pos 2) at 1. rewrite <- Pos2Z.inj_pow. lia. }
  replace (Z.pos (Pos.size p)) with (1 + (Z.pos (Pos.size p) - 1)) in H2 by lia.
  rewrite Z.pow_add_r in H2 by lia. lia.
Qed.

Lemma Zdigits2_upper m d : 0 <= m -> 0 <= d -> m < 2 ^ d -> Zdigits2 m <= d.
Proof.
  intros Hm Hd Hlt. destruct (Z.eq_dec m 0) as [->|Hne]; [simpl; lia|].
  destruct (Z_le_gt_dec (Zdigits2 m) d) as [|Hgt]; [done|].
  pose proof (Zdigits2_le m ltac:(lia)) as H.
  assert (2 ^ d <= 2 ^ (Zdigits2 m - 1)) by (apply Z.pow_le_mono_r; lia). lia.
Qed.

Lemma Zdigits2_lower m d : 0 <= d -> 2 ^ d <= m -> d + 1 <= Zdigits2 m.
Proof.
  intros Hd Hle. assert (0 < m) by (pose proof (Z.pow_pos_nonneg 2 d); lia).
  pose proof (Zdigits2_gt m ltac:(lia)) as H1. pose proof (Zdigits2_nonneg m).
  destruct (Z_lt_le_dec d (Zdigits2 m)) as [|Hge]; [lia|].
  assert (2 ^ Zdigits2 m <= 2 ^ d) by (apply Z.pow_le_mono_r; lia). lia.
Qed.

Lemma Zdigits2_mono a b : 0 <= a <= b -> Zdigits2 a <= Zdigits2 b.
Proof.
  intros [Ha Hb]. apply Zdigits2_upper; [lia|apply Zdigits2_nonneg|].
  pose proof (Zdigits2_gt b ltac:(lia)). lia.
Qed.

Lemma Zdigits2_succ m : 0 <= m -> Zdigits2 (m + 1) <= Zdigits2 m + 1.
Proof.
  intros Hm. pose proof (Zdigits2_nonneg m). pose proof (Zdigits2_gt m Hm).
  apply Zdigits2_upper; [lia|lia|]. rewrite Z.pow_add_r by lia. lia.
Qed.

Lemma Zdigits2_mul_pow2 m s : 0 < m -> 0 <= s -> Zdigits2 (m * 2 ^ s) = Zdigits2 m + s.
Proof.
  intros Hm Hs. pose proof (Zdigits2_nonneg m).
  pose proof (Zdigits2_gt m ltac:(lia)). pose proof (Zdigits2_le m Hm).
  pose proof (Z.pow_pos_nonneg 2 s ltac:(lia) Hs).
  apply Z.le_antisymm.
  - apply Zdigits2_upper; [nia|lia|]. rewrite Z.pow_add_r by lia. nia.
  - replace (Zdigits2 m + s) with ((Zdigits2 m - 1 + s) + 1) by lia.
    assert (1 <= Zdigits2 m) by (destruct m; simpl in *; lia).
    apply Zdigits2_lower; [lia|]. rewrite Z.pow_add_r by lia. nia.
Qed.

Lemma Zdigits2_mul a b : 0 <= a -> 0 <= b -> Zdigits2 (a * b) <= Zdigits2 a + Zdigits2 b.
Proof.
  intros Ha Hb. pose proof (Zdigits2_nonneg a). pose proof (Zdigits2_nonneg b).
  pose proof (Zdigits2_gt a Ha). pose proof (Zdigits2_gt b Hb).
  apply Zdigits2_upper; [nia|lia|]. rewrite Z.pow_add_r by lia. nia.
Qed.

Lemma shr_1_spec mrs :
  0 <= shr_m mrs ->
  0 <= shr_m (shr_1 mrs) /\ Zdigits2 (shr_m (shr_1 mrs)) = Z.max (Zdigits2 (shr_m mrs) - 1) 0.
Proof.
  destruct mrs as [m r s]. cbn [shr_m]. intros Hm.
  destruct m as [|[p|p|]|p]; cbn [shr_1 shr_m Zdigits2 digits2_pos];
    rewrite ?Pos2Z.inj_succ; lia.
Qed.

Lemma iter_shr_spec p :
  forall mrs, 0 <= shr_m mrs ->
  0 <= shr_m (SpecFloat.iter_pos shr_1 p mrs) /\
  Zdigits2 (shr_m (SpecFloat.iter_pos shr_1 p mrs)) = Z.max (Zdigits2 (shr_m mrs) - Z.pos p) 0.
Proof.
  induction p as [p IH|p IH|]; intros mrs Hm; simpl.
  - destruct (shr_1_spec mrs Hm) as [H1 H2].
    destruct (IH _ H1) as [H3 H4]. destruct (IH _ H3) as [H5 H6].
    split; [done|]. rewrite H6, H4, H2. lia.
  - destruct (IH _ Hm) as [H3 H4]. destruct (IH _ H3) as [H5 H6].
    split; [done|]. rewrite H6, H4. lia.
  - apply shr_1_spec, Hm.
Qed.

Lemma shr_spec mrs e n :
  0 <= shr_m mrs ->
  0 <= shr_m (fst (shr mrs e n)) /\
  snd (shr mrs e n) = e + Z.max n 0 /\
  Zdigits2 (shr_m (fst (shr mrs e n))) = Z.max (Zdigits2 (shr_m mrs) - Z.max n 0) 0.
Proof.
  intros Hm. pose proof (Zdigits2_nonneg (shr_m mrs)).
  destruct n as [|p|p]; simpl; try (split_and!; lia).
  destruct (iter_shr_spec p mrs Hm) as [H1 H2]. split_and!; [done|lia|]. rewrite H2. lia.
Qed.

Lemma shr_m_of_loc m l : shr_m (shr_record_of_loc m l) = m.
Proof. by destruct l as [|[]]. Qed.

Lemma shr_fexp_spec m e l :
  0 <= m ->
  let n := Z.max (fexp prec emax (Zdigits2 m + e) - e) 0 in
  0 <= shr_m (fst (shr_fexp prec emax m e l)) /\
  snd (shr_fexp prec emax m e l) = e + n /\
  Zdigits2 (shr_m (fst (shr_fexp prec emax m e l))) = Z.max (Zdigits2 m - n) 0.
Proof.
  intros Hm n. unfold shr_fexp.
  pose proof (shr_spec (shr_record_of_loc m l) e
                (fexp prec emax (Zdigits2 m + e) - e)) as H.
  rewrite shr_m_of_loc in H. by apply H.
Qed.

Lemma round_nearest_even_spec m l :
  m <= round_nearest_even m l <= m + 1.
Proof.
  unfold round_nearest_even. destruct l as [|[]]; try lia. destruct (Z.even m); lia.
Qed.

Lemma fexp_eq z : fexp prec emax z = Z.max (z - 53) (-1074).
Proof. reflexivity. Qed.

(** Rounding a non-negative mantissa of bounded magnitude neither
    overflows nor yields a NaN. *)
Lemma binary_round_aux_spec s mx ex lx hi :
  0 <= mx -> ex <= 971 -> Zdigits2 mx + ex <= hi -> -1074 <= hi <= 1023 ->
  match binary_round_aux prec emax s mx ex lx with
  | S754_zero s' => s' = s
  | S754_finite s' m e => s' = s /\ ex <= e /\ Z.pos (digits2_pos m) + e <= hi + 1
  | _ => False
  end.
Proof.
  intros Hm Hex Hmag Hhi. unfold binary_round_aux.
  destruct (shr_fexp_spec mx ex lx Hm) as (H1 & H2 & H3).
  destruct (shr_fexp prec emax mx ex lx) as [mrs1 e1]. cbn [fst snd] in *.
  pose proof (round_nearest_even_spec (shr_m mrs1) (loc_of_shr_record mrs1)) as Hr.
  set (m2 := round_nearest_even (shr_m mrs1) (loc_of_shr_record mrs1)) in *.
  assert (Hm2 : 0 <= m2) by lia.
  assert (Hd2 : Zdigits2 m2 <= Zdigits2 (shr_m mrs1) + 1).
  { etransitivity; [apply (Zdigits2_mono m2 (shr_m mrs1 + 1)); lia|].
    by apply Zdigits2_succ. }
  destruct (shr_fexp_spec m2 e1 loc_Exact Hm2) as (H4 & H5 & H6).
  destruct (shr_fexp prec emax m2 e1 loc_Exact) as [mrs2 e2]. cbn [fst snd] in *.
  rewrite !fexp_eq in *. pose proof (Zdigits2_nonneg mx). pose proof (Zdigits2_nonneg m2).
  destruct (shr_m mrs2) as [|m|m] eqn:Hm3; [done| |lia].
  destruct (Z.leb_spec e2 (emax - prec)) as [Hle|Hgt]; unfold emax, prec in *.
  - change (Z.pos (digits2_pos m)) with (Zdigits2 (Z.pos m)).
    split_and!; [done|lia|]. rewrite H6. lia.
  - lia.
Qed.

(** Rounding a positive mantissa whose magnitude is in the normal range
    keeps the magnitude, up to one, and does not underflow to zero. *)
Lemma binary_round_aux_pos s mx ex lx hi :
  0 < mx -> ex <= 971 -> -1074 < Zdigits2 mx + ex <= hi -> hi <= 1023 ->
  match binary_round_aux prec emax s mx ex lx with
  | S754_finite s' m e =>
      s' = s /\ ex <= e /\
      Zdigits2 mx + ex <= Z.pos (digits2_pos m) + e <= hi + 1
  | _ => False
  end.
Proof.
  intros Hm Hex Hmag Hhi. unfold binary_round_aux.
  assert (Hd : 1 <= Zdigits2 mx) by (destruct mx as [|p|p]; simpl; lia).
  destruct (shr_fexp_spec mx ex lx ltac:(lia)) as (H1 & H2 & H3).
  destruct (shr_fexp prec emax mx ex lx) as [mrs1 e1]. cbn [fst snd] in *.
  pose proof (round_nearest_even_spec (shr_m mrs1) (loc_of_shr_record mrs1)) as Hr.
  set (m2 := round_nearest_even (shr_m mrs1) (loc_of_shr_record mrs1)) in *.
  assert (Hm2 : 0 <= m2) by lia.
  assert (Hd2 : Zdigits2 (shr_m mrs1) <= Zdigits2 m2 <= Zdigits2 (shr_m mrs1) + 1).
  { split; [apply Zdigits2_mono; lia|].
    etransitivity; [apply (Zdigits2_mono m2 (shr_m mrs1 + 1)); lia|].
    by apply Zdigits2_succ. }
  destruct (shr_fexp_spec m2 e1 loc_Exact Hm2) as (H4 & H5 & H6).
  destruct (shr_fexp prec emax m2 e1 loc_Exact) as [mrs2 e2]. cbn [fst snd] in *.
  rewrite !fexp_eq in *. pose proof (Zdigits2_nonneg mx). pose proof (Zdigits2_nonneg m2).
  destruct (shr_m mrs2) as [|m|m] eqn:Hm3.
  - simpl in H6. lia.
  - destruct (Z.leb_spec e2 (emax - prec)) as [Hle|Hgt]; unfold emax, prec in *.
    + change (Z.pos (digits2_pos m)) with (Zdigits2 (Z.pos m)).
      split_and!; [done|lia|rewrite H6; lia|rewrite H6; lia].
    + lia.
  - lia.
Qed.

Lemma iter_xO m d : Z.pos (Pos.iter xO m d) = Z.pos m * 2 ^ Z.pos d.
Proof.
  induction d as [|d IH] using Pos.peano_ind.
  - simpl. lia.
  - rewrite Pos.iter_succ, Pos2Z.inj_succ, Z.pow_succ_r by lia.
    rewrite Pos2Z.inj_xO, IH. lia.
Qed.

Lemma shl_align_spec mx ex ex' :
  snd (shl_align mx ex ex') = Z.min ex ex' /\
  Z.pos (fst (shl_align mx ex ex')) = Z.pos mx * 2 ^ (ex - Z.min ex ex').
Proof.
  unfold shl_align. destruct (ex' - ex) as [|d|d] eqn:Hd; cbn [fst snd].
  - replace (Z.min ex ex') with ex by lia. rewrite Z.sub_diag. simpl. lia.
  - replace (Z.min ex ex') with ex by lia. rewrite Z.sub_diag. simpl. lia.
  - replace (Z.min ex ex') with ex' by lia. split; [done|].
    rewrite iter_xO. f_equal. f_equal. lia.
Qed.

Lemma binary_round_pos m e hi :
  e <= 971 -> -1074 < Zdigits2 (Z.pos m) + e <= hi -> hi <= 1023 ->
  let x := binary_round prec emax false m e in
  isPositive x /\
  Z.min e (Zdigits2 (Z.pos m) + e - 53) <= exponent x /\
  Zdigits2 (Z.pos m) + e <= magnitude x <= hi + 1.
Proof.
  intros He Hmag Hhi. unfold binary_round.
  destruct (shl_align_spec m e (fexp prec emax (Z.pos (digits2_pos m) + e))) as [H1 H2].
  destruct (shl_align m e _) as [mz ez]. cbn [fst snd] in *.
  change (Z.pos (digits2_pos m)) with (Zdigits2 (Z.pos m)) in *.
  rewrite fexp_eq in *.
  assert (Hd : Zdigits2 (Z.pos mz) + ez = Zdigits2 (Z.pos m) + e).
  { rewrite H2, Zdigits2_mul_pow2 by lia. lia. }
  pose proof (binary_round_aux_pos false (Z.pos mz) ez loc_Exact hi) as H.
  rewrite Hd in H. specialize (H ltac:(lia) ltac:(lia) ltac:(lia) ltac:(lia)).
  destruct (binary_round_aux _ _ _ _ _ _) as [| | |s m' e']; try done.
  cbn [isPositive exponent magnitude]. destruct H as (-> & H3 & H4).
  split_and!; [done|lia|lia|lia].
Qed.

(** A counter below [2^53] is a positive number of magnitude 1 to 54. *)
Lemma normalize_counter z :
  0 < z < 2 ^ 53 ->
  let x := binary_normalize prec emax z 0 false in
  isPositive x /\ -52 <= exponent x /\ 1 <= magnitude x <= 54.
Proof.
  intros Hz. destruct z as [|p|p]; try lia. cbn [binary_normalize].
  assert (Hd : 1 <= Zdigits2 (Z.pos p) <= 53).
  { split; [simpl; lia|]. apply Zdigits2_upper; lia. }
  pose proof (binary_round_pos p 0 53) as H. cbv zeta in H.
  specialize (H ltac:(lia) ltac:(lia) ltac:(lia)).
  destruct H as (H1 & H2 & H3). split_and!; [done|lia|lia|lia].
Qed.

Lemma Zdigits2_add a b :
  0 < a -> 0 < b ->
  Z.max (Zdigits2 a) (Zdigits2 b) <= Zdigits2 (a + b) <= Z.max (Zdigits2 a) (Zdigits2 b) + 1.
Proof.
  intros Ha Hb. pose proof (Zdigits2_nonneg a). pose proof (Zdigits2_nonneg b).
  split.
  - apply Z.max_lub; apply Zdigits2_mono; lia.
  - apply Zdigits2_upper; [lia|lia|].
    pose proof (Zdigits2_gt a ltac:(lia)). pose proof (Zdigits2_gt b ltac:(lia)).
    assert (2 ^ Zdigits2 a <= 2 ^ Z.max (Zdigits2 a) (Zdigits2 b))
      by (apply Z.pow_le_mono_r; lia).
    assert (2 ^ Zdigits2 b <= 2 ^ Z.max (Zdigits2 a) (Zdigits2 b))
      by (apply Z.pow_le_mono_r; lia).
    rewrite Z.pow_add_r by lia. lia.
Qed.

(** The sum of two counters is positive, no smaller in magnitude than
    either and of magnitude at most 56. *)
Lemma SFadd_counters x y :
  counterLike x -> counterLike y ->
  let t := SFadd prec emax x y in
  isPositive t /\ magnitude x <= magnitude t /\ magnitude y <= magnitude t /\
  magnitude t <= 56.
Proof.
  destruct x as [| | |s1 m1 e1]; try (intros [[] _]; fail).
  destruct y as [| | |s2 m2 e2]; try (intros _ [[] _]; fail).
  intros (Hs1 & He1 & Hm1) (Hs2 & He2 & Hm2). cbn [isPositive exponent magnitude] in *.
  subst s1 s2. cbn [SFadd cond_Zopp].
  set (ez := Z.min e1 e2).
  destruct (shl_align_spec m1 e1 ez) as [_ H1]. destruct (shl_align_spec m2 e2 ez) as [_ H2].
  replace (Z.min e1 ez) with ez in H1 by lia. replace (Z.min e2 ez) with ez in H2 by lia.
  set (a := fst (shl_align m1 e1 ez)) in *. set (b := fst (shl_align m2 e2 ez)) in *.
  change (Z.pos a + Z.pos b) with (Z.pos (a + b)). cbn [binary_normalize].
  change (Z.pos (digits2_pos m1)) with (Zdigits2 (Z.pos m1)) in *.
  change (Z.pos (digits2_pos m2)) with (Zdigits2 (Z.pos m2)) in *.
  assert (Ha : Zdigits2 (Z.pos a) + ez = Zdigits2 (Z.pos m1) + e1).
  { rewrite H1, Zdigits2_mul_pow2 by lia. lia. }
  assert (Hb : Zdigits2 (Z.pos b) + ez = Zdigits2 (Z.pos m2) + e2).
  { rewrite H2, Zdigits2_mul_pow2 by lia. lia. }
  pose proof (Zdigits2_add (Z.pos a) (Z.pos b) ltac:(lia) ltac:(lia)) as Hsum.
  change (Z.pos a + Z.pos b) with (Z.pos (a + b)) in Hsum.
  assert (Hez : ez = Z.min e1 e2) by reflexivity.
  assert (1 <= Zdigits2 (Z.pos m1)) by (simpl; lia).
  assert (1 <= Zdigits2 (Z.pos m2)) by (simpl; lia).
  pose proof (binary_round_pos (a + b) ez 55) as Hr. cbv zeta in Hr.
  specialize (Hr ltac:(lia) ltac:(lia) ltac:(lia)).
  destruct Hr as (H3 & H4 & H5). split_and!; [done|lia|lia|lia].
Qed.

(** The quotient of a positive number by one of no smaller magnitude is
    zero or positive, of magnitude at most 2. *)
Lemma SFdiv_smaller x y :
  isPositive x -> isPositive y -> magnitude x <= magnitude y ->
  -1000 <= magnitude x - magnitude y ->
  let q := SFdiv prec emax x y in
  isZeroOrPositive q /\ magnitude q <= 2.
Proof.
  destruct x as [| | |s1 m1 e1]; try done. destruct y as [| | |s2 m2 e2]; try done.
  cbn [isPositive magnitude]. intros -> -> Hmag Hlow. cbn [SFdiv xorb].
  unfold SFdiv_core_binary.
  change (Z.pos (digits2_pos m1)) with (Zdigits2 (Z.pos m1)) in *.
  change (Z.pos (digits2_pos m2)) with (Zdigits2 (Z.pos m2)) in *.
  set (d1 := Zdigits2 (Z.pos m1)) in *. set (d2 := Zdigits2 (Z.pos m2)) in *.
  rewrite fexp_eq.
  set (e' := Z.min (Z.max (d1 + e1 - (d2 + e2) - 53) (-1074)) (e1 - e2)).
  set (s := e1 - e2 - e').
  assert (Hs : 0 <= s) by lia.
  set (m' := match s with Z.pos _ => Z.shiftl (Z.pos m1) s | 0 => Z.pos m1 | Z.neg _ => 0 end).
  assert (Hm' : m' = Z.pos m1 * 2 ^ s).
  { subst m'. destruct s as [|p|p] eqn:Hp; [simpl; lia| |lia].
    by rewrite Z.shiftl_mul_pow2. }
  assert (Hq : Z.div_eucl m' (Z.pos m2) = (m' / Z.pos m2, m' mod Z.pos m2)).
  { unfold Z.div, Z.modulo. by destruct (Z.div_eucl m' (Z.pos m2)). }
  rewrite Hq. set (q := m' / Z.pos m2).
  assert (Hd1 : 1 <= d1) by (subst d1; simpl; lia).
  assert (Hd2 : 1 <= d2) by (subst d2; simpl; lia).
  assert (H0 : 0 <= q) by (apply Z.div_pos; lia).
  assert (Hdq : Zdigits2 q <= Z.max (d1 + s - d2 + 1) 0).
  { apply Zdigits2_upper; [done|lia|].
    pose proof (Z.mul_div_le m' (Z.pos m2) ltac:(lia)) as Hle. fold q in Hle.
    pose proof (Zdigits2_gt (Z.pos m1) ltac:(lia)) as Hg1. fold d1 in Hg1.
    pose proof (Zdigits2_le (Z.pos m2) ltac:(lia)) as Hg2. fold d2 in Hg2.
    pose proof (Z.pow_pos_nonneg 2 s ltac:(lia) Hs) as Hps.
    pose proof (Z.pow_pos_nonneg 2 (d2 - 1) ltac:(lia) ltac:(lia)) as Hpd.
    assert (Hlt : q * 2 ^ (d2 - 1) < 2 ^ (d1 + s)).
    { rewrite Z.pow_add_r by lia. nia. }
    destruct (Z_lt_le_dec q (2 ^ Z.max (d1 + s - d2 + 1) 0)) as [|Hge]; [done|].
    assert (2 ^ (Z.max (d1 + s - d2 + 1) 0 + (d2 - 1)) < 2 ^ (d1 + s)).
    { rewrite Z.pow_add_r by lia. nia. }
    apply Z.pow_lt_mono_r_iff in H; lia. }
  pose proof (binary_round_aux_spec false q e' (new_location (Z.pos m2) (m' mod Z.pos m2)) 1)
    as H.
  specialize (H H0 ltac:(lia) ltac:(lia) ltac:(lia)).
  destruct (binary_round_aux _ _ _ _ _ _) as [| | |s' m e]; try done.
  cbn [isZeroOrPositive magnitude]. destruct H as (-> & _ & H). split; [done|lia].
Qed.

(** A hundred times a number of magnitude at most 2 has magnitude at most
    10: it is below 1024. *)
Lemma SFmul_hundred q :
  isZeroOrPositive q -> magnitude q <= 2 ->
  let r := SFmul prec emax q hundred in
  isZeroOrPositive r /\ magnitude r <= 10.
Proof.
  destruct q as [s| | |s m e]; try done; cbn [isZeroOrPositive magnitude].
  intros -> Hmag. cbn [SFmul hundred xorb].
  change (Z.pos (digits2_pos m)) with (Zdigits2 (Z.pos m)) in *.
  pose proof (Zdigits2_mul (Z.pos m) 7036874417766400 ltac:(lia) ltac:(lia)) as Hd.
  change (Zdigits2 7036874417766400) with 53 in Hd.
  change (Z.pos m * 7036874417766400) with (Z.pos (m * 7036874417766400)) in Hd.
  assert (1 <= Zdigits2 (Z.pos m)) by (simpl; lia).
  pose proof (binary_round_aux_spec false (Z.pos (m * 7036874417766400)) (e + -46)
                loc_Exact 9) as H'.
  specialize (H' ltac:(lia) ltac:(lia) ltac:(lia) ltac:(lia)).
  destruct (binary_round_aux _ _ _ _ _ _) as [| | |s' m' e']; try done.
  cbn [isZeroOrPositive magnitude]. destruct H' as (-> & _ & H'). split; [done|lia].
Qed.

Lemma number_zero : number 0 = S754_zero false.
Proof. reflexivity. Qed.

Lemma number_hundred : number 100 = hundred.
Proof. reflexivity. Qed.

Lemma number_counter n :
  (0 < n)%nat -> Z.of_nat n < 2 ^ 53 -> counterLike (number n).
Proof. intros Hn Hlt. apply normalize_counter. lia. Qed.

Lemma append_assoc (a b c : string) : (a +:+ b) +:+ c = a +:+ (b +:+ c).
Proof.
  induction a as [|x a IH]; [reflexivity|].
  change (String x ((a +:+ b) +:+ c) = String x (a +:+ (b +:+ c))). by rewrite IH.
Qed.

Lemma pretty_digit z :
  0 <= z < 10 ->
  exists c, pretty z = String c EmptyString /\ isDecimalDigit c = true.
Proof.
  intros Hz.
  assert (H : z = 0 \/ z = 1 \/ z = 2 \/ z = 3 \/ z = 4 \/ z = 5 \/ z = 6 \/
              z = 7 \/ z = 8 \/ z = 9) by lia.
  repeat (destruct H as [->|H]; [by eexists|]). subst z. by eexists.
Qed.

Lemma twoDigits_spec k :
  0 <= k < 100 ->
  exists d1 d2, twoDigits k = String d1 (String d2 EmptyString) /\
                isDecimalDigit d1 = true /\ isDecimalDigit d2 = true.
Proof.
  intros Hk. unfold twoDigits.
  destruct (pretty_digit (k / 10)) as (d1 & -> & H1).
  { split; [apply Z.div_pos; lia|apply Z.div_lt_upper_bound; lia]. }
  destruct (pretty_digit (k mod 10)) as (d2 & -> & H2).
  { apply Z.mod_pos_bound. lia. }
  by exists d1, d2.
Qed.

(** [toFixed(2)] of a number that is zero or positive and below [2^10]:
    an integer part of at most 1024, the point, and two digits. *)
Lemma toFixed2_shape x :
  isZeroOrPositive x -> magnitude x <= 10 ->
  exists whole d1 d2,
    toFixed2 x = pretty whole +:+ "." +:+ String d1 (String d2 EmptyString) /\
    0 <= whole <= 1024 /\ isDecimalDigit d1 = true /\ isDecimalDigit d2 = true.
Proof.
  destruct x as [s| | |s m e]; try done; cbn [isZeroOrPositive magnitude].
  - intros _ _. exists 0, "0"%char, "0"%char. by split_and!.
  - intros -> Hmag. cbn [toFixed2].
    change (Z.pos (digits2_pos m)) with (Zdigits2 (Z.pos m)) in Hmag.
    pose proof (Zdigits2_gt (Z.pos m) ltac:(lia)) as Hm.
    assert (Hd : 1 <= Zdigits2 (Z.pos m)) by (simpl; lia).
    set (n := match e with
              | Z.neg p => (200 * Z.pos m + 2 ^ Z.pos p) / (2 * 2 ^ Z.pos p)
              | _ => 100 * Z.pos m * 2 ^ e
              end).
    assert (Hn : 0 <= n <= 102400).
    { subst n. destruct e as [|p|p].
      - assert (2 ^ Zdigits2 (Z.pos m) <= 2 ^ 10) by (apply Z.pow_le_mono_r; lia). lia.
      - assert (Z.pos m * 2 ^ Z.pos p < 2 ^ 10).
        { eapply Z.lt_le_trans; [|apply (Z.pow_le_mono_r 2 (Zdigits2 (Z.pos m) + Z.pos p)); lia].
          rewrite Z.pow_add_r by lia.
          pose proof (Z.pow_pos_nonneg 2 (Z.pos p) ltac:(lia) ltac:(lia)). nia. }
        pose proof (Z.pow_pos_nonneg 2 (Z.pos p) ltac:(lia) ltac:(lia)). nia.
      - pose proof (Z.pow_pos_nonneg 2 (Z.pos p) ltac:(lia) ltac:(lia)) as HP.
        assert (Z.pos m < 1024 * 2 ^ Z.pos p).
        { eapply Z.lt_le_trans; [exact Hm|].
          change 1024 with (2 ^ 10). rewrite <- Z.pow_add_r by lia.
          apply Z.pow_le_mono_r; lia. }
        split.
        + apply Z.div_pos; lia.
        + apply Z.lt_succ_r, Z.div_lt_upper_bound; lia. }
    destruct (twoDigits_spec (n mod 100)) as (d1 & d2 & -> & H1 & H2).
    { apply Z.mod_pos_bound. lia. }
    exists (n / 100), d1, d2. split_and!; try done.
    + apply Z.div_pos; lia.
    + apply Z.div_le_upper_bound; lia.
Qed.

(** C5: the reported hit rate is ["0.00%"] as long as nothing was looked
    up, ["70.00%"] after seven hits and three misses, and for counters below
    [2^53] with at least one lookup it is [toFixed(2)] of
    [hits / (hits + misses) * 100] followed by [%]: an integer part, the
    point, exactly two digits and the percent sign. *)
Theorem hitRate_format :
  (forall st, (hits st + misses st = 0)%nat -> hitRate st = "0.00%") /\
  (forall n, hitRate {| hits := 7; misses := 3; sets := n |} = "70.00%") /\
  (forall st,
     (0 < hits st + misses st)%nat ->
     Z.of_nat (hits st) < 2 ^ 53 ->
     Z.of_nat (misses st) < 2 ^ 53 ->
     let h := number (hits st) in
     let m := number (misses st) in
     hitRate st =
       toFixed2 (Number_mul (Number_div h (Number_add h m)) (number 100)) +:+ "%" /\
     exists whole d1 d2,
       hitRate st = pretty whole +:+ "." +:+ String d1 (String d2 "%") /\
       0 <= whole <= 1024 /\ isDecimalDigit d1 = true /\ isDecimalDigit d2 = true).
Proof.
  split_and!.
  - intros [h m n] H. simpl in H. assert (h = 0%nat) by lia. assert (m = 0%nat) by lia.
    subst. reflexivity.
  - intros n. vm_compute. reflexivity.
  - intros [hs ms n] Hsum Hh Hm h m. cbn [hits misses] in *.
    assert (Ht : isPositive (Number_add h m) /\
                 (isPositive h -> magnitude h <= magnitude (Number_add h m) /\
                                  -1000 <= magnitude h - magnitude (Number_add h m))).
    { subst h m. destruct hs as [|hs]; [|destruct ms as [|ms]].
      - destruct (number_counter ms ltac:(lia) Hm) as (Hp & He & Hg).
        rewrite number_zero. split; [|done].
        unfold Number_add. by destruct (number ms).
      - destruct (number_counter (S hs) ltac:(lia) Hh) as (Hp & He & Hg).
        rewrite number_zero.
        assert (Number_add (number (S hs)) (S754_zero false) = number (S hs)) as ->
          by (unfold Number_add; by destruct (number (S hs))).
        split; [done|]. lia.
      - pose proof (number_counter (S hs) ltac:(lia) Hh) as H1.
        pose proof (number_counter (S ms) ltac:(lia) Hm) as H2.
        destruct (SFadd_counters _ _ H1 H2) as (Hp & Hg1 & Hg2 & Hg3).
        destruct H1 as (_ & _ & H1). split; [done|]. unfold Number_add. lia. }
    destruct Ht as [Hpos Hmag].
    assert (Hgt : Number_gt (Number_add h m) (number 0) = true).
    { rewrite number_zero. unfold Number_gt. destruct (Number_add h m) as [| | |s m' e]; try done.
      simpl in Hpos. by subst s. }
    assert (Hq : isZeroOrPositive (Number_div h (Number_add h m)) /\
                 magnitude (Number_div h (Number_add h m)) <= 2).
    { subst h. destruct hs as [|hs].
      - rewrite number_zero. unfold Number_div.
        by destruct (Number_add _ m) as [| | |s m' e].
      - destruct (number_counter (S hs) ltac:(lia) Hh) as (Hp & _).
        destruct (Hmag Hp) as [H1 H2]. by apply SFdiv_smaller. }
    destruct Hq as [Hq1 Hq2].
    destruct (SFmul_hundred _ Hq1 Hq2) as [Hr1 Hr2].
    destruct (toFixed2_shape _ Hr1 Hr2) as (whole & d1 & d2 & Hfix & Hw & H1 & H2).
    assert (Hrate : hitRate {| hits := hs; misses := ms; sets := n |} =
              toFixed2 (Number_mul (Number_div h (Number_add h m)) (number 100)) +:+ "%").
    { unfold hitRate. cbn [hits misses]. fold h m. by rewrite Hgt. }
    split; [exact Hrate|].
    exists whole, d1, d2. split_and!; try done; try lia.
    rewrite Hrate, number_hundred. unfold Number_mul. rewrite Hfix.
    rewrite append_assoc. reflexivity.
Qed.

End StatsProperties.

(** ** Batch against single resolve *)
Section BatchAgainstSingle.
Import Reference.

(** C7, at a name without an address: the resolve route answers 404 and
    caches nothing; a batch with the one resolve sub-operation for the same
    name is answered, under every schedule, with a fulfilled entry whose
    address is [null], and leaves that value under the cache key of the
    resolve route, which then serves it with status 200. *)
Theorem batch_resolve_null_is_cached (sched : list nat) :
  let st := state0 true world0 in
  let op := JObj [("type", JStr "resolve"); ("name", JStr "nobody.eth")] in
  let reqBody := JObj [("operations", JArr [op])] in
  let found := JObj [("name", JStr "nobody.eth"); ("address", JNull)] in
  snd (run (resolveRoute "nobody.eth") st) =
    Thrown (createError "ENS name not found" 404) /\
  snd (batchRoute sched reqBody st) =
    Returned (JObj [("results", JArr [settledEntry 0 (Returned found)])]) /\
  snd (run (resolveRoute "nobody.eth") (fst (batchRoute sched reqBody st))) =
    Returned (JObj [("name", JStr "nobody.eth"); ("address", JNull);
                    ("cached", JBool true)]).
Proof.
  intros st op reqBody found.
  assert (Hbatch : batchRoute sched reqBody st =
            (fst (run (batchOperation op) st),
             Returned (JObj [("results",
                JArr (imap settledEntry [snd (run (batchOperation op) st)]))]))).
  { change (batchRoute sched reqBody st) with
      (let '(s', results) := allSettled sched [batchOperation op] st in
       (s', Returned (JObj [("results", JArr (imap settledEntry results))]))).
    by rewrite allSettled_single. }
  rewrite Hbatch. split_and!; vm_compute; reflexivity.
Qed.

End BatchAgainstSingle.

(** ** Calls of [executeWithFallback] that run together *)
Section ConcurrentCalls.
Import Reference.

(** C2, at calls that run together.  The endpoint of an attempt is read
    before the [await], the cursor that names the counter to change and
    the index to move on from is read after it.  Endpoints 0 and 1 are down,
    2 and 3 answer.  One call alone leaves the counters at 1, 1, 0, 0 and
    the cursor on 2.  Of two calls started together both first try endpoint
    0; the failure of the second is counted for endpoint 1 and the failure
    of endpoint 1 for endpoint 2, which never failed, and the success on
    endpoint 2 sets the counter of endpoint 3: the counters end at 1, 1, 1,
    0 and the cursor on 3, and the warnings name endpoint 1 with the error
    of endpoint 0 and endpoint 2 with the error of endpoint 1.  The same
    happens in one batch request of two sub-operations.  In one search
    request the failure of endpoint 1 moves the cursor from 3 to 0, so the
    third attempt of the lookup of [vitalik.eth] goes to endpoint 0 again
    and the lookup fails although endpoints 2 and 3 answer. *)
Theorem concurrent_calls_miscount_failures :
  let call := executeWithFallback (resolveNameOp "vitalik.eth") 3 in
  let st := state0 false world0 in
  let counters := fun s : State => map (count (providerManager s)) [0; 1; 2; 3]%nat in
  let alone := run call st in
  let together := allSettled [0; 1; 0; 1]%nat [call; call] st in
  let batch :=
    batchRoute [0; 1; 0; 1; 0; 1; 0; 1]%nat
      (JObj [("operations",
              JArr [JObj [("type", JStr "resolve"); ("name", JStr "vitalik.eth")];
                    JObj [("type", JStr "reverse"); ("address", JStr vitalik)]])]) st in
  let search := searchRoute [0; 1; 2; 0; 1; 2; 0; 1; 2; 0; 1; 2]%nat "vitalik" st in
  (fst (endpoint "https://eth.llamarpc.com" (ResolveName "vitalik.eth") world0) =
     Thrown (newError "could not detect network: https://eth.llamarpc.com") /\
   fst (endpoint "https://rpc.ankr.com/eth" (ResolveName "vitalik.eth") world0) =
     Thrown (newError "could not detect network: https://rpc.ankr.com/eth") /\
   fst (endpoint "https://cloudflare-eth.com" (ResolveName "vitalik.eth") world0) =
     Returned (Some vitalik) /\
   fst (endpoint "https://ethereum.publicnode.com" (ResolveName "vitalik.eth") world0) =
     Returned (Some vitalik)) /\
  (snd alone = Returned (Some vitalik) /\
   counters (fst alone) = [1; 1; 0; 0]%nat /\
   currentIndex (providerManager (fst alone)) = 2%nat) /\
  (snd together = [Returned (Some vitalik); Returned (Some vitalik)] /\
   counters (fst together) = [1; 1; 1; 0]%nat /\
   currentIndex (providerManager (fst together)) = 3%nat /\
   trace (fst together) =
     [ProviderFailed 0 1 3 "could not detect network: https://eth.llamarpc.com";
      ProviderFailed 1 1 3 "could not detect network: https://eth.llamarpc.com";
      ProviderFailed 2 2 3 "could not detect network: https://rpc.ankr.com/eth"]) /\
  (counters (fst batch) = [1; 1; 1; 0]%nat /\
   currentIndex (providerManager (fst batch)) = 3%nat /\
   trace (fst batch) =
     [ProviderFailed 0 1 3 "could not detect network: https://eth.llamarpc.com";
      ProviderFailed 1 1 3 "could not detect network: https://eth.llamarpc.com";
      ProviderFailed 2 2 3 "could not detect network: https://rpc.ankr.com/eth"]) /\
  (snd search =
     Returned (JObj [("query", JStr "vitalik");
                     ("suggestions", JArr [JStr "vitalik.eth"; JStr "vitalik-dao.eth";
                                           JStr "vitalik-nft.eth"]);
                     ("found", JArr [])]) /\
   counters (fst search) = [1; 1; 1; 1]%nat /\
   currentIndex (providerManager (fst search)) = 1%nat /\
   trace (fst search) =
     [ProviderFailed 0 1 3 "could not detect network: https://eth.llamarpc.com";
      ProviderFailed 1 1 3 "could not detect network: https://eth.llamarpc.com";
      ProviderFailed 2 1 3 "could not detect network: https://eth.llamarpc.com";
      ProviderFailed 3 2 3 "could not detect network: https://rpc.ankr.com/eth";
      ProviderFailed 0 3 3 "could not detect network: https://eth.llamarpc.com"]).
Proof.
  intros call st counters alone together batch search.
  split_and!; vm_compute; reflexivity.
Qed.

End ConcurrentCalls.

(** ** [get] under a key that names a property of [Object.prototype] *)
Section InheritedKeys.
Import Reference.


End InheritedKeys.

(** ** The theorems at work in the reference runtime *)
Section Witnesses.
Import Reference Examples.

Lemma executeWithFallback_exhausted_witness :
  exists s',
    run (executeWithFallback (resolveNameOp "vitalik.eth") 3) (state0 false blackout) =
      (s', Thrown (newError
         "All providers failed after 3 attempts: could not detect network: https://cloudflare-eth.com")) /\
    length (trace s') = 3%nat.
Proof.
  edestruct (executeWithFallback_exhausted (resolveNameOp "vitalik.eth") 3
               (state0 false blackout))
    as (s' & Hrun & _ & Htrace & _).
  - vm_compute. lia.
  - lia.
  - vm_compute. reflexivity.
  - exists s'. split; [exact Hrun|]. rewrite Htrace. reflexivity.
Defined.

Lemma executeWithFallback_rotation_witness :
  (exists s',
     run (executeWithFallback (resolveNameOp "vitalik.eth") 3) (state0 false world0) =
       (s', Returned (Some vitalik)) /\
     currentIndex (providerManager s') = 2%nat /\
     failureCount (providerManager s') !! 2%nat = Some 0%nat /\
     count (providerManager s') 0 = 1%nat /\
     count (providerManager s') 1 = 1%nat /\
     count (providerManager s') 3 = 0%nat) /\
  (exists s',
     run (executeWithFallback (lookupAddressOp vitalik) 5) (state0 false world0) =
       (s', Returned (Some "vitalik.eth")) /\
     currentIndex (providerManager s') = ((0 + 2) mod 4)%nat /\
     cache s' = cache (state0 false world0)).
Proof.
  split.
  - edestruct (proj2 executeWithFallback_rotation _ (resolveNameOp "vitalik.eth") 3
                 (state0 false world0))
      as (s' & Hrun & Hcur & Hzero & H0 & H1 & H3 & _).
    + reflexivity.
    + reflexivity.
    + lia.
    + vm_compute. reflexivity.
    + vm_compute. reflexivity.
    + vm_compute. reflexivity.
    + exists s'. repeat split; assumption.
  - edestruct (proj1 executeWithFallback_rotation _ (lookupAddressOp vitalik) 5
                 (state0 false world0) 2%nat)
      as (s' & Hrun & Hcur & _ & _ & _ & _ & _ & _ & Hcache).
    + simpl. lia.
    + lia.
    + vm_compute. reflexivity.
    + vm_compute. reflexivity.
    + exists s'. split_and!; [exact Hrun|exact Hcur|exact Hcache].
Defined.

Lemma CacheManager_get_tiers_witness :
  let answer := JObj [("name", JStr "vitalik.eth"); ("address", JStr vitalik);
                      ("timestamp", JStr "T+1000ms")] in
  let warm := fst (run (resolveRoute "vitalik.eth") (state0 true world0)) in
  (exists s',
     run (CacheManager_get "resolve:vitalik.eth") warm = (s', Returned answer) /\
     stats (cache s') = {| hits := 1; misses := 1; sets := 1 |} /\
     trace s' = trace warm) /\
  (exists s',
     run (CacheManager_get "resolve:vitalik.eth") restarted = (s', Returned answer) /\
     stats (cache s') = {| hits := 1; misses := 0; sets := 0 |} /\
     NodeCache.data (memoryCache (cache s')) !! "resolve:vitalik.eth" =
       Some (NodeCache.mkEntry answer 301000)) /\
  (exists s',
     run (CacheManager_get "resolve:vitalik.eth") (state0 true world0) =
       (s', Returned JNull) /\
     stats (cache s') = {| hits := 0; misses := 1; sets := 0 |}).
Proof.
  intros answer warm. split_and!.
  - edestruct (proj1 (CacheManager_get_tiers "resolve:vitalik.eth" warm))
      as (s' & Hrun & Hhits & Hmisses & Hsets & _ & Htrace & _).
    + vm_compute. reflexivity.
    + exists s'. split_and!; [exact Hrun| |exact Htrace].
      destruct (stats (cache s')) as [h m n]. simpl in *. subst h m n.
      vm_compute. reflexivity.
  - edestruct (proj1 (proj2 (CacheManager_get_tiers "resolve:vitalik.eth" restarted)))
      as (s' & Hrun & _ & Hentry & _ & Hhits & Hmisses & Hsets & _).
    + vm_compute. reflexivity.
    + reflexivity.
    + vm_compute. reflexivity.
    + vm_compute. discriminate.
    + vm_compute. reflexivity.
    + exists s'. split_and!; [exact Hrun| |].
      * destruct (stats (cache s')) as [h m n]. simpl in *. subst h m n.
        vm_compute. reflexivity.
      * rewrite Hentry. vm_compute. reflexivity.
  - edestruct (proj2 (proj2 (CacheManager_get_tiers "resolve:vitalik.eth"
                               (state0 true world0))))
      as (s' & Hrun & _ & _ & Hmisses & Hhits & Hsets).
    + vm_compute. reflexivity.
    + right. vm_compute. reflexivity.
    + exists s'. split; [exact Hrun|].
      destruct (stats (cache s')) as [h m n]. simpl in *. subst h m n.
      vm_compute. reflexivity.
Defined.

Lemma CacheManager_set_never_throws_witness :
  exists s',
    run (CacheManager_set "k" (JStr "v") (Some 60)) (state0 true redisLost) =
      (s', Returned tt) /\
    trace s' = [RedisSent (SETEX "k" 60 (stringify (JStr "v")));
                RedisSetError (newError "Connection is closed.")].
Proof.
  destruct (CacheManager_set_never_throws "k" (JStr "v") (Some 60) (state0 true redisLost))
    as (s' & Hrun & _ & _ & _ & _ & _ & _ & Herr).
  exists s'. split; [exact Hrun|].
  apply (Herr (newError "Connection is closed.") redisLost); vm_compute; reflexivity.
Defined.

Lemma outcome_eq {S A} (x : S * Outcome A) (o : Outcome A) :
  snd x = o -> x = (fst x, o).
Proof. intros <-. by destruct x. Qed.

Lemma null_lookup_policy_witness :
  snd (run (resolveRoute "nobody.eth") (state0 false world0)) =
    Thrown (createError "ENS name not found" 404) /\
  snd (run (reverseRoute nobody) (state0 false world0)) =
    Returned (JObj [("address", JStr nobody); ("name", JNull);
                    ("timestamp", JStr "T+1000ms"); ("cached", JBool false)]).
Proof.
  split.
  - edestruct (proj1 null_lookup_policy)
      with (param := "nobody.eth") (s := state0 false world0) (requestId := "r") (now := 0)
      as (Hrun & _).
    + vm_compute. reflexivity.
    + apply outcome_eq. vm_compute. reflexivity.
    + reflexivity.
    + apply outcome_eq. vm_compute. reflexivity.
    + rewrite Hrun. reflexivity.
  - edestruct (proj2 null_lookup_policy)
      with (param := nobody) (s := state0 false world0) (requestId := "r") (now := 0)
      as (Hrun & _).
    + vm_compute. reflexivity.
    + apply outcome_eq. vm_compute. reflexivity.
    + reflexivity.
    + apply outcome_eq. vm_compute. reflexivity.
    + rewrite Hrun. vm_compute. reflexivity.
Defined.

Lemma batchRoute_settles_all_witness :
  let sched := [2; 0; 1; 1; 0; 2; 2; 0]%nat in
  let reqBody := JObj [("operations", JArr threeOperations)] in
  (exists s' entries steps,
     batchRoute sched reqBody (state0 true world0) =
       (s', Returned (JObj [("results", JArr entries)])) /\
     length entries = 3%nat /\
     chained (state0 true world0) steps s') /\
  snd (batchRoute sched reqBody (state0 true world0)) =
    Returned (JObj [("results", JArr
      [ JObj [("index", JNum 0); ("status", JStr "fulfilled");
              ("data", JObj [("name", JStr "vitalik.eth"); ("address", JStr vitalik)]);
              ("error", JNull)];
        JObj [("index", JNum 1); ("status", JStr "rejected"); ("data", JNull);
              ("error", JStr "Invalid operation type")];
        JObj [("index", JNum 2); ("status", JStr "fulfilled");
              ("data", JObj [("address", JStr vitalik); ("name", JStr "vitalik.eth")]);
              ("error", JNull)] ])]).
Proof.
  intros sched reqBody. split.
  - destruct (proj1 (batchRoute_settles_all sched reqBody threeOperations
                       (state0 true world0) "r" 0 eq_refl))
      as (s' & entries & steps & Hrun & _ & Hlen & Hch & _).
    + simpl. lia.
    + by exists s', entries, steps.
  - vm_compute. reflexivity.
Defined.

Lemma unanswered_probe_ends_broadcasts_witness :
  let between := [Notifier.Block 101 2; Notifier.Frame 7 None 3] in
  let after := [Notifier.Block 102 4; Notifier.Pong 7; Notifier.Closed 7;
                Notifier.Block 103 5] in
  let sv1 := Notifier.steps oneSubscriber
               (Notifier.Tick 7 :: between ++ [Notifier.Tick 7]) in
  Notifier.blocksSent 7 (Notifier.steps sv1 after) =
    [Notifier.BlockEvent 100 1; Notifier.BlockEvent 101 2] /\
  ~ In 7%nat (Notifier.connectedClients (Notifier.steps sv1 after)).
Proof.
  intros between after sv1.
  edestruct NotifierProperties.unanswered_probe_ends_broadcasts
    with (sv := oneSubscriber) (c := 7%nat) (between := between) (after := after)
    as (_ & Hblocks & Hgone).
  - vm_compute. reflexivity.
  - reflexivity.
  - reflexivity.
  - simpl. intros [H|[H|[]]]; discriminate.
  - split.
    + fold sv1 in Hblocks. rewrite Hblocks. vm_compute. reflexivity.
    + apply Hgone. simpl. tauto.
Defined.

Lemma set_without_ttl_expiry_witness :
  (exists s' l,
     run (CacheManager_set "k" (JStr "v") None) (state0 true world0) = (s', Returned tt) /\
     trace s' = (RedisSent (SET "k" (stringify (JStr "v"))) :: l)%list) /\
  fst (redisServer (GET "k")
         (elapse 86400000000 (snd (redisServer (SET "k" "v") world0)))) =
    Returned (Some "v") /\
  fst (redisServer (GET "k")
         (elapse 60000 (snd (redisServer (SETEX "k" 60 "v") world0)))) =
    Returned None.
Proof.
  destruct set_without_ttl_expiry as (Hset & _ & Hnever & Hexpires).
  split_and!.
  - destruct (Hset runtime "k" (JStr "v") (state0 true world0))
      as (s' & l & Hrun & _ & Htrace & _).
    + reflexivity.
    + reflexivity.
    + exists s', l. split; [exact Hrun|exact Htrace].
  - apply Hnever; [reflexivity|lia].
  - apply Hexpires; [reflexivity|lia|lia].
Defined.

Lemma hitRate_format_witness :
  Stats.hitRate {| hits := 1; misses := 2; sets := 0 |} = "33.33%" /\
  exists whole d1 d2,
    Stats.hitRate {| hits := 1; misses := 2; sets := 0 |} =
      pretty whole +:+ "." +:+ String d1 (String d2 "%") /\
    0 <= whole <= 1024 /\
    Stats.isDecimalDigit d1 = true /\ Stats.isDecimalDigit d2 = true.
Proof.
  destruct (proj2 (proj2 StatsProperties.hitRate_format)
              {| hits := 1; misses := 2; sets := 0 |}) as [Hrate Hshape].
  - simpl. lia.
  - reflexivity.
  - reflexivity.
  - split; [|exact Hshape]. rewrite Hrate. vm_compute. reflexivity.
Defined.

End Witnesses.

(** * Further properties of the program *)

(** ** Outcomes of asynchronous calls *)
Section Postconditions.
Context {R : Runtime}.

Lemma post_ret {A} (Q : Outcome A -> Prop) (a : A) : Q (Returned a) -> asyncPost Q (ret a).
Proof. by intros H s. Qed.

Lemma post_throw {A} (Q : Outcome A -> Prop) (e : Error) :
  Q (Thrown e) -> asyncPost Q (throw e).
Proof. by intros H s. Qed.

Lemma post_liftOutcome {A} (Q : Outcome A -> Prop) (o : Outcome A) :
  Q o -> asyncPost Q (liftOutcome o).
Proof. by intros H s. Qed.

Lemma post_weaken {A} (Q Q' : Outcome A -> Prop) (c : Co A) :
  (forall o, Q o -> Q' o) -> coPost Q c -> coPost Q' c.
Proof.
  intros HQ. induction c as [o|k IH] using Co_induction; simpl; [apply HQ|].
  intros Hk s. apply IH, Hk.
Qed.

Lemma post_bindCo {A B} (QA : Outcome A -> Prop) (QB : Outcome B -> Prop)
    (c : Co A) (f : A -> Async B) :
  coPost QA c ->
  (forall a, QA (Returned a) -> asyncPost QB (f a)) ->
  (forall e, QA (Thrown e) -> QB (Thrown e)) ->
  forall s, coPost QB (snd (bindCo c f s)).
Proof.
  intros Hc Hf He. induction c as [o|k IH] using Co_induction; intros s.
  - destruct o as [a|e]; simpl in *; [by apply Hf|by apply He].
  - simpl. intros s1. specialize (IH s1 (Hc s1)).
    destruct (k s1) as [s2 c']. apply IH.
Qed.

Lemma post_bind {A B} (QA : Outcome A -> Prop) (QB : Outcome B -> Prop)
    (m : Async A) (f : A -> Async B) :
  asyncPost QA m ->
  (forall a, QA (Returned a) -> asyncPost QB (f a)) ->
  (forall e, QA (Thrown e) -> QB (Thrown e)) ->
  asyncPost QB (bind m f).
Proof.
  intros Hm Hf He s. unfold bind. specialize (Hm s).
  destruct (m s) as [s1 c]. by eapply post_bindCo.
Qed.

Lemma post_catchCo {A} (QA Q : Outcome A -> Prop) (c : Co A) (h : Error -> Async A) :
  coPost QA c ->
  (forall a, QA (Returned a) -> Q (Returned a)) ->
  (forall e, QA (Thrown e) -> asyncPost Q (h e)) ->
  forall s, coPost Q (snd (catchCo c h s)).
Proof.
  intros Hc Ha Hh. induction c as [o|k IH] using Co_induction; intros s.
  - destruct o as [a|e]; simpl in *; [by apply Ha|by apply Hh].
  - simpl. intros s1. specialize (IH s1 (Hc s1)).
    destruct (k s1) as [s2 c']. apply IH.
Qed.

Lemma post_tryCatch {A} (QA Q : Outcome A -> Prop) (m : Async A) (h : Error -> Async A) :
  asyncPost QA m ->
  (forall a, QA (Returned a) -> Q (Returned a)) ->
  (forall e, QA (Thrown e) -> asyncPost Q (h e)) ->
  asyncPost Q (tryCatch m h).
Proof.
  intros Hm Ha Hh s. unfold tryCatch. specialize (Hm s).
  destruct (m s) as [s1 c]. by eapply post_catchCo.
Qed.

Lemma post_awaitCo {A} (Q : Outcome A -> Prop) (c : Co A) :
  coPost Q c -> coPost Q (awaitCo c).
Proof.
  induction c as [o|k IH] using Co_induction; intros Hc.
  - by intros s.
  - simpl. intros s1. specialize (IH s1 (Hc s1)). by destruct (k s1) as [s2 c'].
Qed.

Lemma post_await {A} (Q : Outcome A -> Prop) (m : Async A) :
  asyncPost Q m -> asyncPost Q (await m).
Proof.
  intros Hm s. unfold await. specialize (Hm s).
  destruct (m s) as [s1 c]. by apply post_awaitCo.
Qed.

Lemma post_reach {A} (Q : Outcome A -> Prop) (c c' : Co A) :
  reach c c' -> coPost Q c -> coPost Q c'.
Proof. induction 1 as [c|k s c _ IH]; [done|]. intros Hk. apply IH, Hk. Qed.

Lemma post_settles {A} (Q : Outcome A -> Prop) (m : Async A) (o : Outcome A) :
  asyncPost Q m -> settles m o -> Q o.
Proof. intros Hm [s Hs]. by apply (post_reach Q _ _ Hs), Hm. Qed.

Lemma post_complete {A} (Q : Outcome A -> Prop) (c : Co A) :
  coPost Q c -> forall s, Q (snd (complete c s)).
Proof.
  induction c as [o|k IH] using Co_induction; intros Hc s; [done|].
  simpl. specialize (IH s (Hc s)). by destruct (k s) as [s2 c'].
Qed.

Lemma post_run {A} (Q : Outcome A -> Prop) (m : Async A) :
  asyncPost Q m -> forall s, Q (snd (run m s)).
Proof.
  intros Hm s. unfold run. specialize (Hm s).
  destruct (m s) as [s1 c]. by apply post_complete.
Qed.

End Postconditions.

Lemma post_any {R : Runtime} {A} (c : Co A) : coPost (fun _ => True) c.
Proof. induction c as [o|k IH] using Co_induction; [done|]. intros s. apply IH. Qed.

(** ** What every route keeps of the provider manager

    A property of the state that survives a counted success and a counted
    failure, and does not depend on the cache, the world or the log. *)
Section UpstreamInvariant.
Context {R : Runtime}.
Variable P : State -> Prop.
Hypothesis P_cache : forall cm s, P s -> P (withCache cm s).
Hypothesis P_world : forall w s, P s -> P (withWorld w s).
Hypothesis P_emit : forall ev s, P s -> P (emit ev s).
Hypothesis P_success :
  forall s, P s -> P (withProviderManager (recordSuccess (providerManager s)) s).
Hypothesis P_failure :
  forall s, P s -> P (withProviderManager (recordFailure (providerManager s)) s).

Lemma keeps_attemptOnce {T} (operation : Operation T) attempt maxRetries :
  asyncInv P (attemptOnce operation attempt maxRetries).
Proof.
  unfold attemptOnce. repeat inv_step; auto.
  match goal with |- P (withProviderManager _ (emit ?ev ?s)) =>
    apply (P_failure (emit ev s)), P_emit; assumption end.
Qed.

Lemma keeps_executeWithFallback {T} (operation : Operation T) maxRetries :
  asyncInv P (executeWithFallback operation maxRetries).
Proof.
  unfold executeWithFallback. generalize 0 (@None Error).
  induction (Z.to_nat maxRetries) as [|fuel IH]; intros attempt lastError; simpl.
  - apply inv_throw.
  - apply inv_bind; [apply keeps_attemptOnce|]. intros [r|e]; [apply inv_ret|apply IH].
Qed.

Lemma keeps_memoryGet key : asyncInv P (memoryGet key).
Proof.
  intros s Hs. unfold memoryGet. destruct (NodeCache.get _ _ _). simpl.
  split; [by apply P_cache|done].
Qed.

Lemma keeps_memorySet key value ttl : asyncInv P (memorySet key value ttl).
Proof. apply inv_modify. intros. by apply P_cache. Qed.

Lemma keeps_awaitRedis cmd : asyncInv P (awaitRedis cmd).
Proof.
  unfold awaitRedis. apply inv_bind.
  - apply inv_modify. intros. by apply P_emit.
  - intros _. apply inv_awaitWorld. intros. by apply P_world.
Qed.

Ltac keeps_step :=
  first [ apply keeps_memoryGet | apply keeps_memorySet | apply keeps_executeWithFallback
        | apply keeps_awaitRedis
        | inv_step
        | assumption
        | apply P_cache | apply P_emit | apply P_world ].

Lemma keeps_CacheManager_get key : asyncInv P (CacheManager_get key).
Proof. unfold CacheManager_get, redisLookup. repeat keeps_step. Qed.

Lemma keeps_CacheManager_set key value ttl : asyncInv P (CacheManager_set key value ttl).
Proof. unfold CacheManager_set. repeat keeps_step. Qed.

Ltac keeps_handler :=
  first [ apply keeps_CacheManager_get | apply keeps_CacheManager_set | keeps_step ].

Lemma keeps_resolveRoute param : asyncInv P (resolveRoute param).
Proof. unfold resolveRoute. repeat keeps_handler. Qed.

Lemma keeps_reverseRoute param : asyncInv P (reverseRoute param).
Proof. unfold reverseRoute. repeat keeps_handler. Qed.

Lemma keeps_avatarRoute param : asyncInv P (avatarRoute param).
Proof. unfold avatarRoute. repeat keeps_handler. Qed.

Lemma keeps_recordsRoute param : asyncInv P (recordsRoute param).
Proof. unfold recordsRoute. repeat keeps_handler. Qed.

Lemma keeps_batchOperation op : asyncInv P (batchOperation op).
Proof. unfold batchOperation. repeat keeps_handler. Qed.

Lemma keeps_searchOne name : asyncInv P (searchOne name).
Proof. unfold searchOne. repeat keeps_handler. Qed.

Lemma keeps_batchRoute sched reqBody s : P s -> P (fst (batchRoute sched reqBody s)).
Proof.
  intros Hs. unfold batchRoute.
  destruct (bodyOperations reqBody) as [[| | | |[|op ops]|]|]; try done.
  destruct (10 <? _)%nat; [done|].
  assert (H : P (fst (allSettled sched (map batchOperation (op :: ops)) s))).
  { apply inv_allSettled; [|done].
    apply Forall_map, Forall_forall. intros x _. apply keeps_batchOperation. }
  by destruct (allSettled _ _ s) as [s' results].
Qed.

Lemma keeps_searchRoute sched param s : P s -> P (fst (searchRoute sched param s)).
Proof.
  intros Hs. unfold searchRoute. destruct (_ <? 3)%nat; [done|].
  assert (H : P (fst (allSettled sched (map searchOne (suggestions (sanitizeInput param))) s))).
  { apply inv_allSettled; [|done].
    apply Forall_map, Forall_forall. intros x _. apply keeps_searchOne. }
  by destruct (allSettled _ _ s) as [s' results].
Qed.

End UpstreamInvariant.

Section ProviderInvariants.
Context {R : Runtime}.

Lemma cursorValid_success ps pm : cursorValid ps pm -> cursorValid ps (recordSuccess pm).
Proof.
  intros (Hps & Hcur & Hkeys). split_and!; [done|done|]. simpl.
  intros i [x Hi]. destruct (decide (currentIndex pm = i)) as [<-|Hne]; [done|].
  rewrite lookup_insert_ne in Hi by done. by apply Hkeys.
Qed.

Lemma cursorValid_failure ps pm : cursorValid ps pm -> cursorValid ps (recordFailure pm).
Proof.
  intros (Hps & Hcur & Hkeys). split_and!; [done| |]; simpl.
  - rewrite Hps. apply Nat.mod_upper_bound. lia.
  - intros i [x Hi]. destruct (decide (currentIndex pm = i)) as [<-|Hne]; [done|].
    rewrite lookup_insert_ne in Hi by done. by apply Hkeys.
Qed.

(** X1: the rotation cursor never leaves the provider list.  If the cursor
    and every index that has a failure counter lie inside the provider
    list, they still do after each of the lookup routes, after the batch
    route and after the search route, for every interleaving of the
    sub-operations of the last two; the list itself is never changed. *)
Theorem cursor_stays_valid (ps : list string) (param : string) (sched : list nat)
    (reqBody : json) (s : State) :
  cursorValid ps (providerManager s) ->
  cursorValid ps (providerManager (fst (run (resolveRoute param) s))) /\
  cursorValid ps (providerManager (fst (run (reverseRoute param) s))) /\
  cursorValid ps (providerManager (fst (run (avatarRoute param) s))) /\
  cursorValid ps (providerManager (fst (run (recordsRoute param) s))) /\
  cursorValid ps (providerManager (fst (batchRoute sched reqBody s))) /\
  cursorValid ps (providerManager (fst (searchRoute sched param s))).
Proof.
  intros Hs.
  set (P := fun s : State => cursorValid ps (providerManager s)).
  assert (Hc : forall cm s, P s -> P (withCache cm s)) by done.
  assert (Hw : forall w s, P s -> P (withWorld w s)) by done.
  assert (He : forall ev s, P s -> P (emit ev s)) by done.
  assert (Hok : forall s, P s -> P (withProviderManager (recordSuccess (providerManager s)) s)).
  { intros s1 H1. by apply cursorValid_success. }
  assert (Hko : forall s, P s -> P (withProviderManager (recordFailure (providerManager s)) s)).
  { intros s1 H1. by apply cursorValid_failure. }
  split_and!.
  - by apply (inv_run P), Hs; apply keeps_resolveRoute.
  - by apply (inv_run P), Hs; apply keeps_reverseRoute.
  - by apply (inv_run P), Hs; apply keeps_avatarRoute.
  - by apply (inv_run P), Hs; apply keeps_recordsRoute.
  - by apply (keeps_batchRoute P).
  - by apply (keeps_searchRoute P).
Qed.

End ProviderInvariants.

(** ** The search route *)
Section SearchProperties.
Context {R : Runtime}.

(** What one lookup of the search route settles with for [name] *)
Lemma post_searchOne name :
  asyncPost (fun r => r = Returned JNull \/
                      exists address, address <> "" /\
                        r = Returned (JObj [("name", JStr name); ("address", JStr address);
                                            ("available", JBool false)]))
            (searchOne name).
Proof.
  unfold searchOne.
  set (Q := fun r : Outcome json => r = Returned JNull \/ _).
  apply (post_tryCatch (fun r => match r with
                                 | Returned _ => Q r
                                 | Thrown _ => True
                                 end)).
  - apply (post_bind (fun _ => True)).
    + intros s. apply post_any.
    + intros [address|] _; apply post_ret; simpl; [|by left].
      destruct (String.eqb address "") eqn:E; simpl; [by left|].
      right. exists address. split; [|done]. intros ->. by rewrite String.eqb_refl in E.
    + done.
  - intros a Ha. exact Ha.
  - intros e _. apply post_ret. by left.
Qed.

Lemma searchOne_frame (c0 : CacheManager) (t0 : list Event) name :
  asyncInv (fun s => cache s = c0 /\
                     exists l, trace s = (t0 ++ l)%list /\ Forall isWarning l)
           (searchOne name).
Proof.
  unfold searchOne. apply inv_tryCatch; [|intros; apply inv_ret].
  apply inv_bind; [|intros; apply inv_ret].
  apply inv_await, inv_executeWithFallback.
  - by intros pm s1 [? ?].
  - by intros w s1 [? ?].
  - intros i a m msg s1 [Hc (l & Hl & Hw)]. split; [done|].
    exists (l ++ [ProviderFailed i a m msg])%list. simpl. rewrite Hl, app_assoc.
    split; [done|]. apply Forall_app. split; [done|]. by constructor.
Qed.

(** [bind] with a continuation that only computes and [tryCatch] with a
    handler that only computes run in the pieces of the call inside. *)
Lemma bindCo_pure_fst {A B} (g : A -> B) (c : Co A) s :
  fst (bindCo c (fun a => ret (g a)) s) = s.
Proof. by destruct c as [[a|e]|k]. Qed.

Lemma progress_bindCo_pure {A B} (g : A -> B) (c : Co A) :
  forall s l r,
  progress (snd (bindCo c (fun a => ret (g a)) s)) l (Done r) ->
  exists o, progress c l (Done o) /\
            r = match o with
                | Returned a => Returned (g a)
                | Thrown e => Thrown e
                end.
Proof.
  induction c as [o|k IH] using Co_induction; intros s l r H.
  - exists o. destruct o as [a|e]; simpl in H; inversion H; subst; split; constructor.
  - simpl in H. inversion H as [|k' s1 l' c' H' Hk]; subst.
    destruct (k s1) as [s2 c2] eqn:Hk. simpl in H'.
    specialize (IH s1). rewrite Hk in IH. destruct (IH _ _ _ H') as (o & Ho & Hr).
    exists o. split; [|done].
    rewrite bindCo_pure_fst.
    replace s2 with (fst (k s1)) by by rewrite Hk.
    apply progress_resume. by rewrite Hk.
Qed.

Lemma executes_bind_pure {A B} (g : A -> B) (m : Async A) l r :
  executes (bind m (fun a => ret (g a))) l r ->
  exists o, executes m l o /\
            r = match o with
                | Returned a => Returned (g a)
                | Thrown e => Thrown e
                end.
Proof.
  destruct l as [|[b a] l]; [done|]. unfold executes, started, bind.
  destruct (m b) as [s1 c] eqn:Hm. rewrite bindCo_pure_fst. intros [<- H].
  destruct (progress_bindCo_pure g c _ _ _ H) as (o & Ho & Hr). by exists o.
Qed.

Lemma catchCo_pure_fst {A} (d : A) (c : Co A) s :
  fst (catchCo c (fun _ => ret d) s) = s.
Proof. by destruct c as [[a|e]|k]. Qed.

Lemma progress_catchCo_pure {A} (d : A) (c : Co A) :
  forall s l r,
  progress (snd (catchCo c (fun _ => ret d) s)) l (Done r) ->
  exists o, progress c l (Done o) /\
            r = match o with
                | Returned a => Returned a
                | Thrown _ => Returned d
                end.
Proof.
  induction c as [o|k IH] using Co_induction; intros s l r H.
  - exists o. destruct o as [a|e]; simpl in H; inversion H; subst; split; constructor.
  - simpl in H. inversion H as [|k' s1 l' c' H' Hk]; subst.
    destruct (k s1) as [s2 c2] eqn:Hk. simpl in H'.
    specialize (IH s1). rewrite Hk in IH. destruct (IH _ _ _ H') as (o & Ho & Hr).
    exists o. split; [|done].
    rewrite catchCo_pure_fst.
    replace s2 with (fst (k s1)) by by rewrite Hk.
    apply progress_resume. by rewrite Hk.
Qed.

Lemma executes_tryCatch_pure {A} (d : A) (m : Async A) l r :
  executes (tryCatch m (fun _ => ret d)) l r ->
  exists o, executes m l o /\
            r = match o with
                | Returned a => Returned a
                | Thrown _ => Returned d
                end.
Proof.
  destruct l as [|[b a] l]; [done|]. unfold executes, started, tryCatch.
  destruct (m b) as [s1 c] eqn:Hm. rewrite catchCo_pure_fst. intros [<- H].
  destruct (progress_catchCo_pure d c _ _ _ H) as (o & Ho & Hr). by exists o.
Qed.

(** One lookup of the search route runs in the pieces of the call of
    [executeWithFallback] it awaits, and settles with an entry exactly when
    that call returned a non-empty address. *)
Lemma executes_searchOne name l r :
  executes (searchOne name) l r ->
  exists o,
    executes (await (executeWithFallback (resolveNameOp name) 3)) l o /\
    r = Returned match o with
                 | Returned (Some address) =>
                     if String.eqb address "" then JNull
                     else JObj [("name", JStr name); ("address", JStr address);
                                ("available", JBool false)]
                 | _ => JNull
                 end.
Proof.
  unfold searchOne. intros H.
  apply executes_tryCatch_pure in H as (o1 & H1 & ->).
  apply executes_bind_pure in H1 as (o & Ho & ->).
  exists o. split; [done|].
  destruct o as [[address|]|e]; simpl; [|done|done].
  by destruct (String.eqb address "").
Qed.

(** X2: the search route never fails on a query of three code units or
    more, whatever the providers do and however its three lookups
    interleave.  It is one run, piece after piece from the state of the
    request, of three awaited calls of [executeWithFallback], one for each
    suggested name, and of nothing else; it answers with the query, the three suggested names
    and, under [found] and in the order of the suggestions, the entry
    [{name, address, available: false}] of every name whose call returned a
    non-empty address in that run, and nothing for a name whose call failed
    or returned [null] or the empty string.  It does not read or write the
    cache and logs provider warnings only.  A shorter query is rejected with
    status 400 and nothing is done. *)
Theorem searchRoute_never_fails (sched : list nat) (param : string) (s : State) :
  let query := sanitizeInput param in
  let lookup := fun name => await (executeWithFallback (resolveNameOp name) 3) in
  let entry := fun (name : string) (o : Outcome (option string)) =>
    match o with
    | Returned (Some address) =>
        if String.eqb address "" then []
        else [JObj [("name", JStr name); ("address", JStr address);
                    ("available", JBool false)]]
    | _ => []
    end in
  ((3 <= String_length query)%nat ->
   exists s' steps o1 o2 o3,
     chained s steps s' /\
     Forall (fun step => (step.1 < 3)%nat) steps /\
     executes (lookup (query +:+ ".eth")) (piecesOf 0 steps) o1 /\
     executes (lookup (query +:+ "-dao.eth")) (piecesOf 1 steps) o2 /\
     executes (lookup (query +:+ "-nft.eth")) (piecesOf 2 steps) o3 /\
     searchRoute sched param s =
       (s', Returned (JObj [("query", JStr query);
                            ("suggestions", JArr [JStr (query +:+ ".eth");
                                                  JStr (query +:+ "-dao.eth");
                                                  JStr (query +:+ "-nft.eth")]);
                            ("found", JArr (entry (query +:+ ".eth") o1 ++
                                            entry (query +:+ "-dao.eth") o2 ++
                                            entry (query +:+ "-nft.eth") o3))])) /\
     cache s' = cache s /\
     exists l, trace s' = (trace s ++ l)%list /\ Forall isWarning l) /\
  ((String_length query < 3)%nat ->
   let tooShort := createError "Query must be at least 3 characters" 400 in
   searchRoute sched param s = (s, Thrown tooShort) /\
   forall requestId now, status (respond (Thrown tooShort) requestId now) = 400).
Proof.
  intros query lookup entry. split.
  - intros Hlen. unfold searchRoute. fold query.
    destruct (String_length query <? 3)%nat eqn:E; [apply Nat.ltb_lt in E; lia|].
    destruct (allSettled_executes sched (map searchOne (suggestions query)) s)
      as (steps & Hch & Hidx & Hlen3 & Hall).
    pose proof (inv_allSettled _ sched (map searchOne (suggestions query))
                  (proj2 (Forall_map _ _ _)
                     (proj2 (Forall_forall _ _)
                        (fun name _ => searchOne_frame (cache s) (trace s) name)))
                  s) as Hinv.
    destruct (allSettled sched (map searchOne (suggestions query)) s) as [s' results].
    cbn [fst snd] in Hch, Hlen3, Hall, Hinv. simpl in Hidx.
    destruct (Hall 0%nat _ eq_refl) as (r1 & Hr1 & Hx1).
    destruct (Hall 1%nat _ eq_refl) as (r2 & Hr2 & Hx2).
    destruct (Hall 2%nat _ eq_refl) as (r3 & Hr3 & Hx3).
    apply executes_searchOne in Hx1 as (o1 & Ho1 & ->).
    apply executes_searchOne in Hx2 as (o2 & Ho2 & ->).
    apply executes_searchOne in Hx3 as (o3 & Ho3 & ->).
    destruct results as [|x1 [|x2 [|x3 [|x4 rest]]]]; try done.
    simpl in Hr1, Hr2, Hr3. injection Hr1 as ->. injection Hr2 as ->. injection Hr3 as ->.
    exists s', steps, o1, o2, o3. split_and!; try done.
    + do 5 f_equal. unfold entry.
      destruct o1 as [[a1|]|e1], o2 as [[a2|]|e2], o3 as [[a3|]|e3]; simpl;
        repeat match goal with |- context [String.eqb ?a ""] => destruct (String.eqb a "") end;
        reflexivity.
    + apply Hinv. split; [done|]. exists []. by rewrite app_nil_r.
    + apply Hinv. split; [done|]. exists []. by rewrite app_nil_r.
  - intros Hlen tooShort. unfold searchRoute. fold query.
    destruct (String_length query <? 3)%nat eqn:E; [|apply Nat.ltb_ge in E; lia].
    done.
Qed.

End SearchProperties.

(** ** The cache *)
Section CacheRoundTrips.
Context {R : Runtime}.

(** [get], run to completion, case by case. *)
Lemma run_CacheManager_get key s :
  run (CacheManager_get key) s =
  let local := NodeCache.get (Date_now (world s)) key (memoryCache (cache s)) in
  let s0 := withCache (withMemoryCache (snd local) (cache s)) s in
  match fst local with
  | Some value => (withCache (hitsIncr (cache s0)) s0, Returned value)
  | None =>
      if redisClient (cache s) then
        let reply := redis (GET key) (world s) in
        let s1 := withWorld (snd reply) (emit (RedisSent (GET key)) s0) in
        let missed s2 := (withCache (missesIncr (cache s2)) s2, Returned JNull) in
        match fst reply with
        | Returned text =>
            match nonEmpty text with
            | Some text =>
                match JSON_parse text with
                | Returned parsed =>
                    let s2 := withCache (withMemoryCache
                                (NodeCache.set (Date_now (world s1)) key parsed None
                                   (memoryCache (cache s1))) (cache s1)) s1 in
                    (withCache (hitsIncr (cache s2)) s2, Returned parsed)
                | Thrown e => missed (emit (RedisGetError e) s1)
                end
            | None => missed s1
            end
        | Thrown e => missed (emit (RedisGetError e) s1)
        end
      else (withCache (missesIncr (cache s0)) s0, Returned JNull)
  end.
Proof.
  unfold CacheManager_get. rewrite run_bind, run_memoryGet. cbn zeta iota.
  destruct (fst (NodeCache.get _ _ _)) as [value|].
  - rewrite run_bind, run_modify. cbn iota. by rewrite ?run_ret.
  - rewrite run_bind, run_gets. cbn iota. cbn [cache withCache redisClient withMemoryCache].
    destruct (redisClient (cache s)).
    + rewrite run_bind. unfold redisLookup.
      rewrite run_tryCatch, run_bind, run_awaitRedis. cbn [world withCache].
      destruct (redis (GET key) (world s)) as [[text|e] w]; cbn [fst snd]; cbn iota.
      * destruct (nonEmpty text) as [text'|].
        -- destruct (JSON_parse text') as [parsed|e].
           ++ rewrite run_bind, run_memorySet. cbn iota.
              rewrite run_bind, run_modify. cbn iota. rewrite !run_ret. cbn iota.
              by rewrite ?run_ret.
           ++ rewrite run_throw. cbn iota. rewrite run_bind, run_modify. cbn iota.
              rewrite run_ret. cbn iota. rewrite run_bind, run_modify. cbn iota.
              by rewrite ?run_ret.
        -- rewrite !run_ret. cbn iota. rewrite run_bind, run_modify. cbn iota.
           by rewrite ?run_ret.
      * rewrite run_bind, run_modify. cbn iota.
        rewrite run_ret. cbn iota. rewrite run_bind, run_modify. cbn iota.
        by rewrite ?run_ret.
    + rewrite run_bind, run_ret. cbn iota. rewrite run_bind, run_modify. cbn iota.
      by rewrite ?run_ret.
Qed.


(** X3: [get] never throws and counts every call once: it returns a
    value with [hits] one higher, or [null] with [misses] one higher; it
    leaves [sets], the provider manager and the Redis setting alone, and
    without a Redis client it does not touch the world or the log. *)
Theorem CacheManager_get_counts_once (key : string) (s : State) :
  exists s' value,
    run (CacheManager_get key) s = (s', Returned value) /\
    ((hits (stats (cache s')) = S (hits (stats (cache s))) /\
      misses (stats (cache s')) = misses (stats (cache s))) \/
     (hits (stats (cache s')) = hits (stats (cache s)) /\
      misses (stats (cache s')) = S (misses (stats (cache s))) /\
      value = JNull)) /\
    sets (stats (cache s')) = sets (stats (cache s)) /\
    providerManager s' = providerManager s /\
    redisClient (cache s') = redisClient (cache s) /\
    (redisClient (cache s) = false -> world s' = world s /\ trace s' = trace s).
Proof.
  rewrite run_CacheManager_get. cbn zeta.
  destruct (fst (NodeCache.get _ _ _)) as [value|].
  { eexists _, _. split; [reflexivity|]. simpl. split_and!; auto. }
  destruct (redisClient (cache s)) eqn:Hredis.
  2:{ eexists _, _. split; [reflexivity|]. simpl. split_and!; auto. }
  destruct (fst (redis _ _)) as [text|e].
  2:{ eexists _, _. split; [reflexivity|]. simpl. split_and!; auto. done. }
  destruct (nonEmpty text) as [text'|].
  2:{ eexists _, _. split; [reflexivity|]. simpl. split_and!; auto. done. }
  destruct (JSON_parse text') as [parsed|e].
  - eexists _, _. split; [reflexivity|]. simpl. split_and!; auto. done.
  - eexists _, _. split; [reflexivity|]. simpl. split_and!; auto. done.
Qed.

(** X4: a failure of the persistent tier on a read is a miss.  When the
    key is not in the memory cache and the Redis [GET] rejects, or answers
    with text that [JSON.parse] rejects, [get] logs the error, counts a miss
    and returns [null]; an empty text is a miss with nothing logged.  The
    memory cache gets no entry. *)
Theorem CacheManager_get_redis_failure (key : string) (s : State) :
  let local := NodeCache.get (Date_now (world s)) key (memoryCache (cache s)) in
  fst local = None ->
  redisClient (cache s) = true ->
  (forall e w,
     redis (GET key) (world s) = (Thrown e, w) ->
     exists s',
       run (CacheManager_get key) s = (s', Returned JNull) /\
       trace s' = (trace s ++ [RedisSent (GET key); RedisGetError e])%list /\
       stats (cache s') = stats (missesIncr (cache s)) /\
       memoryCache (cache s') = snd local /\
       world s' = w) /\
  (forall text e w,
     redis (GET key) (world s) = (Returned (Some text), w) ->
     text <> "" ->
     JSON_parse text = Thrown e ->
     exists s',
       run (CacheManager_get key) s = (s', Returned JNull) /\
       trace s' = (trace s ++ [RedisSent (GET key); RedisGetError e])%list /\
       stats (cache s') = stats (missesIncr (cache s)) /\
       memoryCache (cache s') = snd local /\
       world s' = w) /\
  (forall w,
     redis (GET key) (world s) = (Returned (Some ""), w) ->
     exists s',
       run (CacheManager_get key) s = (s', Returned JNull) /\
       trace s' = (trace s ++ [RedisSent (GET key)])%list /\
       stats (cache s') = stats (missesIncr (cache s)) /\
       memoryCache (cache s') = snd local /\
       world s' = w).
Proof.
  intros local Hlocal Hredis. split_and!.
  - intros e w Hget. rewrite run_CacheManager_get. cbn zeta. fold local.
    rewrite Hlocal, Hredis, Hget. cbn [fst snd].
    eexists. split; [reflexivity|]. simpl. by rewrite <- app_assoc.
  - intros text e w Hget Htext Hparse. rewrite run_CacheManager_get. cbn zeta. fold local.
    rewrite Hlocal, Hredis, Hget. cbn [fst snd nonEmpty].
    destruct (String.eqb_spec text ""); [done|]. rewrite Hparse.
    eexists. split; [reflexivity|]. simpl. by rewrite <- app_assoc.
  - intros w Hget. rewrite run_CacheManager_get. cbn zeta. fold local.
    rewrite Hlocal, Hredis, Hget. cbn [fst snd nonEmpty String.eqb].
    eexists. split; [reflexivity|]. done.
Qed.

(** X5: what [set] stores is served by [get] until it expires.  After
    [set(key, value, ttl)], in whatever world the next call finds: while
    the clock has not passed the expiry time of the entry (or the entry has
    none), [get(key)] returns [value] as a hit and touches nothing else;
    once the clock has passed it, and with no Redis client, [get(key)] is a
    miss and the entry is deleted.  Entries under other keys are as they
    were before the [set]. *)
Theorem set_then_get_until_expiry (key : string) (value : json) (ttl : option Z)
    (s : State) (later : World) :
  let expiry := NodeCache.livetime (Date_now (world s)) (memoryCache (cache s)) ttl in
  let s1 := withWorld later (fst (run (CacheManager_set key value ttl) s)) in
  (expiry = 0 \/ Date_now later <= expiry ->
   run (CacheManager_get key) s1 = (withCache (hitsIncr (cache s1)) s1, Returned value)) /\
  (expiry <> 0 -> expiry < Date_now later -> redisClient (cache s) = false ->
   exists s2,
     run (CacheManager_get key) s1 = (s2, Returned JNull) /\
     NodeCache.data (memoryCache (cache s2)) !! key = None /\
     stats (cache s2) = stats (missesIncr (cache s1))) /\
  (forall key', key' <> key ->
     NodeCache.data (memoryCache (cache s1)) !! key' =
     NodeCache.data (memoryCache (cache s)) !! key').
Proof.
  intros expiry s1.
  assert (Hentry : NodeCache.data (memoryCache (cache s1)) !! key =
                   Some (NodeCache.mkEntry value expiry)).
  { unfold s1. rewrite run_CacheManager_set. cbn [fst cache withWorld].
    apply afterSet_entry. }
  assert (Hredis : redisClient (cache s1) = redisClient (cache s)).
  { unfold s1. rewrite run_CacheManager_set. cbn [fst cache withWorld].
    unfold afterSet. cbn zeta.
    destruct (redisClient (cache s)) eqn:E; [destruct (fst (redis _ _))|];
      simpl; by rewrite ?E. }
  split_and!.
  - intros Hlive. rewrite run_CacheManager_get. cbn zeta.
    unfold NodeCache.get. rewrite Hentry. unfold NodeCache.expired. cbn [NodeCache.t NodeCache.v].
    assert (E : negb (expiry =? 0) && (expiry <? Date_now (world s1)) = false).
    { change (world s1) with later. destruct Hlive as [->|Hle]; [done|].
      apply andb_false_iff. right. by apply Z.ltb_ge. }
    rewrite E. cbn [fst snd]. by destruct s1 as [pm [mc rc st] w tr].
  - intros Hne Hlt Hno. rewrite run_CacheManager_get. cbn zeta.
    unfold NodeCache.get. rewrite Hentry. unfold NodeCache.expired. cbn [NodeCache.t NodeCache.v].
    assert (E : negb (expiry =? 0) && (expiry <? Date_now (world s1)) = true).
    { change (world s1) with later. apply andb_true_iff. split.
      - apply negb_true_iff. by apply Z.eqb_neq.
      - by apply Z.ltb_lt. }
    rewrite E. cbn [fst snd]. rewrite Hredis, Hno.
    eexists. split; [reflexivity|]. simpl. by rewrite lookup_delete_eq.
  - intros key' Hne. unfold s1. rewrite run_CacheManager_set. cbn [fst cache withWorld].
    unfold afterSet.
    assert (H : forall s3 : State,
              NodeCache.data (memoryCache (cache (withCache (setsIncr (cache s3)) s3))) =
              NodeCache.data (memoryCache (cache s3))) by done.
    rewrite H. destruct (redisClient (cache s)); [destruct (fst (redis _ _))|];
      simpl; by rewrite lookup_insert_ne.
Qed.

End CacheRoundTrips.

(** ** Names and error responses *)
Section Validation.
Context {R : Runtime}.

Lemma matchesEnsName_spec (s : string) : forall seen,
  matchesEnsName seen s = true <->
  exists label, s = label +:+ ".eth" /\
    forallb isLabelChar (String.list_ascii_of_string label) = true /\
    (seen = true \/ label <> "").
Proof.
  induction s as [|c rest IH]; intros seen.
  - split; [done|]. intros ([|c l] & Hs & _); discriminate Hs.
  - cbn [matchesEnsName]. destruct (isLabelChar c) eqn:Hc.
    + rewrite IH. split.
      * intros (label & -> & Hall & _). exists (String c label). simpl.
        rewrite Hc. split_and!; [done|done|by right].
      * intros ([|c' label] & Hs & Hall & Hseen).
        { simpl in Hs. injection Hs as -> _. done. }
        simpl in Hs, Hall. injection Hs as -> ->. rewrite Hc in Hall.
        exists label. split_and!; [done|done|by left].
    + split.
      * intros [-> Heq]%andb_true_iff. apply String.eqb_eq in Heq.
        exists "". split_and!; [done|done|by left].
      * intros ([|c' label] & Hs & Hall & Hseen).
        -- simpl in Hs. destruct Hseen as [->|]; [|done].
           rewrite Hs. done.
        -- simpl in Hs, Hall. injection Hs as -> _. by rewrite Hc in Hall.
Qed.

(** X6: [isValidENSName] accepts exactly the names that, in lower case,
    are one label and [.eth]: the label is not empty and has letters [a-z],
    digits and hyphens only.  So a name with a second dot, an empty label or
    another ending is refused. *)
Theorem isValidENSName_one_label (name : string) :
  isValidENSName name = true <->
  exists label,
    String_toLowerCase name = label +:+ ".eth" /\
    label <> "" /\
    forallb isLabelChar (String.list_ascii_of_string label) = true.
Proof.
  unfold isValidENSName. rewrite matchesEnsName_spec. split.
  - intros (label & Hs & Hall & [?|Hne]); [done|]. by exists label.
  - intros (label & Hs & Hne & Hall). exists label. split_and!; [done|done|by right].
Qed.

End Validation.

(** ** What the routes can answer *)
Section RouteOutcomes.
Context {R : Runtime}.

Lemma returns_memoryGet key : asyncPost isReturned (memoryGet key).
Proof. intros s. unfold memoryGet. by destruct (NodeCache.get _ _ _). Qed.

Lemma returns_modify f : asyncPost isReturned (modify f).
Proof. by intros s. Qed.

Lemma returns_gets {A} (f : State -> A) : asyncPost isReturned (gets f).
Proof. by intros s. Qed.

Lemma returns_bind {A B} (m : Async A) (f : A -> Async B) :
  asyncPost isReturned m -> (forall a, asyncPost isReturned (f a)) ->
  asyncPost isReturned (bind m f).
Proof. intros Hm Hf. apply (post_bind isReturned); [done|by intros|by intros ? []]. Qed.

Lemma returns_tryCatch {A} (m : Async A) (h : Error -> Async A) :
  (forall e, asyncPost isReturned (h e)) -> asyncPost isReturned (tryCatch m h).
Proof.
  intros Hh. apply (post_tryCatch (fun _ => True)); [|done|by intros].
  intros s. apply post_any.
Qed.

Ltac returns_step :=
  match goal with
  | |- asyncPost isReturned (bind _ _) => apply returns_bind
  | |- asyncPost isReturned (tryCatch _ _) => apply returns_tryCatch
  | |- asyncPost isReturned (await _) => apply post_await
  | |- asyncPost isReturned (ret _) => by apply post_ret
  | |- asyncPost isReturned (gets _) => apply returns_gets
  | |- asyncPost isReturned timestamp => apply returns_gets
  | |- asyncPost isReturned (modify _) => apply returns_modify
  | |- asyncPost isReturned (memoryGet _) => apply returns_memoryGet
  | |- asyncPost isReturned (memorySet _ _ _) => apply returns_modify
  | |- asyncPost _ (if ?b then _ else _) => destruct b
  | |- asyncPost _ (match ?x with _ => _ end) => destruct x
  | |- forall _, _ => intro
  end.

Lemma returns_CacheManager_get key : asyncPost isReturned (CacheManager_get key).
Proof. unfold CacheManager_get, redisLookup. repeat returns_step. Qed.

Lemma returns_CacheManager_set key value ttl :
  asyncPost isReturned (CacheManager_set key value ttl).
Proof. unfold CacheManager_set. repeat returns_step. Qed.

Lemma returns_attemptOnce {T} (operation : Operation T) attempt maxRetries :
  asyncPost isReturned (attemptOnce operation attempt maxRetries).
Proof. unfold attemptOnce. repeat returns_step. Qed.

(** [executeWithFallback] fails with its own error only. *)
Lemma post_executeWithFallback {T} (operation : Operation T) maxRetries :
  asyncPost (fun o => match o with
                      | Returned _ => True
                      | Thrown e => exists last,
                          e = newError (exhaustedMessage maxRetries last)
                      end)
            (executeWithFallback operation maxRetries).
Proof.
  unfold executeWithFallback. generalize 0 (@None Error).
  induction (Z.to_nat maxRetries) as [|fuel IH]; intros attempt lastError; simpl.
  - apply post_throw. by exists lastError.
  - apply (post_bind isReturned); [apply returns_attemptOnce| |by intros ? []].
    intros [r|e] _; [by apply post_ret|apply IH].
Qed.


Ltac route_outcome :=
  match goal with
  | |- asyncPost (routeOutcome _ _) (bind (await (CacheManager_get _)) _) =>
      apply (post_bind isReturned);
      [apply post_await, returns_CacheManager_get|intros ? _|by intros ? []]
  | |- asyncPost (routeOutcome _ _) (bind (await (CacheManager_set _ _ _)) _) =>
      apply (post_bind isReturned);
      [apply post_await, returns_CacheManager_set|intros ? _|by intros ? []]
  | |- asyncPost (routeOutcome _ _) (bind timestamp _) =>
      apply (post_bind isReturned); [apply returns_gets|intros ? _|by intros ? []]
  | |- asyncPost (routeOutcome _ _) (bind (await (executeWithFallback _ _)) _) =>
      eapply post_bind;
      [apply post_await, post_executeWithFallback|intros ? _
      |intros ? Hlast; right; right; exact Hlast]
  | |- asyncPost (routeOutcome _ _) (ret _) => by apply post_ret
  | |- asyncPost (routeOutcome _ _) (throw _) =>
      apply post_throw; first [by left|by right; left]
  | |- asyncPost _ (if ?b then _ else _) => destruct b
  end.

Lemma outcome_resolveRoute param :
  asyncPost (routeOutcome "Invalid ENS name format" true) (resolveRoute param).
Proof. unfold resolveRoute. repeat route_outcome. Qed.

Lemma outcome_reverseRoute param :
  asyncPost (routeOutcome "Invalid Ethereum address" false) (reverseRoute param).
Proof. unfold reverseRoute. repeat route_outcome. Qed.

Lemma outcome_avatarRoute param :
  asyncPost (routeOutcome "Invalid ENS name format" false) (avatarRoute param).
Proof. unfold avatarRoute. repeat route_outcome. Qed.

Lemma outcome_recordsRoute param :
  asyncPost (routeOutcome "Invalid ENS name format" false) (recordsRoute param).
Proof. unfold recordsRoute. repeat route_outcome. Qed.

Lemma respond_routeOutcome invalid notFound o requestId now :
  routeOutcome invalid notFound o ->
  let r := respond o requestId now in
  status r = 200 \/ status r = 400 \/
  (notFound = true /\ status r = 404) \/
  r = internalServerError requestId now.
Proof.
  destruct o as [b|e]; simpl; [by left|].
  intros [->|[[-> ->]|[last ->]]]; simpl; auto.
Qed.

(** X7: whatever the cache, Redis and the providers do, a lookup route
    answers with status 200, 400 or 500, the resolve route also with 404;
    the answer with status 500 is always
    [{error: "Internal server error", requestId, timestamp}], so no text
    of a provider error, and none of the records route's own
    "ENS resolver not found", reaches the client. *)
Theorem lookup_routes_status_codes (param : string) (s : State)
    (requestId : string) (now : Z) :
  (let r := respond (snd (run (resolveRoute param) s)) requestId now in
   status r = 200 \/ status r = 400 \/ status r = 404 \/
   r = internalServerError requestId now) /\
  (let r := respond (snd (run (reverseRoute param) s)) requestId now in
   status r = 200 \/ status r = 400 \/ r = internalServerError requestId now) /\
  (let r := respond (snd (run (avatarRoute param) s)) requestId now in
   status r = 200 \/ status r = 400 \/ r = internalServerError requestId now) /\
  (let r := respond (snd (run (recordsRoute param) s)) requestId now in
   status r = 200 \/ status r = 400 \/ r = internalServerError requestId now).
Proof.
  split_and!.
  - pose proof (post_run _ _ (outcome_resolveRoute param) s) as H.
    apply (respond_routeOutcome _ _ _ requestId now) in H. cbn zeta in *. tauto.
  - pose proof (post_run _ _ (outcome_reverseRoute param) s) as H.
    apply (respond_routeOutcome _ _ _ requestId now) in H. cbn zeta in *.
    destruct H as [?|[?|[[? _]|?]]]; auto; done.
  - pose proof (post_run _ _ (outcome_avatarRoute param) s) as H.
    apply (respond_routeOutcome _ _ _ requestId now) in H. cbn zeta in *.
    destruct H as [?|[?|[[? _]|?]]]; auto; done.
  - pose proof (post_run _ _ (outcome_recordsRoute param) s) as H.
    apply (respond_routeOutcome _ _ _ requestId now) in H. cbn zeta in *.
    destruct H as [?|[?|[[? _]|?]]]; auto; done.
Qed.

End RouteOutcomes.

(** ** The lookup routes, case by case *)
Section RouteScenarios.
Context {R : Runtime}.

Lemma run_get_hit key s e :
  NodeCache.data (memoryCache (cache s)) !! key = Some e ->
  NodeCache.expired (Date_now (world s)) e = false ->
  run (CacheManager_get key) s =
  (withCache (hitsIncr (cache s)) s, Returned (NodeCache.v e)).
Proof.
  intros He Hlive. rewrite run_CacheManager_get. cbn zeta.
  unfold NodeCache.get. rewrite He, Hlive. cbn [fst snd].
  by destruct s as [pm [mc rc st] w tr].
Qed.

(** X8: a live cache entry is answered without going upstream.  When the
    memory cache holds an entry under the key of the request that has not
    expired and whose value is not falsy, each lookup route answers 200
    with that value and [cached: true]; only the hit counter changes: no
    provider is called, nothing is sent to Redis, nothing is logged. *)
Theorem cached_answer_skips_upstream (param : string) (s : State)
    (e : NodeCache.entry) :
  let arg := sanitizeInput param in
  let hit := (withCache (hitsIncr (cache s)) s,
              Returned (withCachedFlag true (NodeCache.v e))) in
  NodeCache.expired (Date_now (world s)) e = false ->
  truthy (NodeCache.v e) = true ->
  (isValidENSName arg = true ->
   NodeCache.data (memoryCache (cache s)) !! ("resolve:" +:+ arg) = Some e ->
   run (resolveRoute param) s = hit) /\
  (isValidAddress arg = true ->
   NodeCache.data (memoryCache (cache s)) !! ("reverse:" +:+ arg) = Some e ->
   run (reverseRoute param) s = hit) /\
  (isValidENSName arg = true ->
   NodeCache.data (memoryCache (cache s)) !! ("avatar:" +:+ arg) = Some e ->
   run (avatarRoute param) s = hit) /\
  (isValidENSName arg = true ->
   NodeCache.data (memoryCache (cache s)) !! ("records:" +:+ arg) = Some e ->
   run (recordsRoute param) s = hit).
Proof.
  intros name hit Hlive Htruthy. split_and!; intros Hvalid He.
  - unfold resolveRoute. fold name. rewrite Hvalid. cbn [negb].
    rewrite run_bind, run_await, (run_get_hit _ _ e) by done. cbn iota.
    by rewrite Htruthy, run_ret.
  - unfold reverseRoute. fold name. rewrite Hvalid. cbn [negb].
    rewrite run_bind, run_await, (run_get_hit _ _ e) by done. cbn iota.
    by rewrite Htruthy, run_ret.
  - unfold avatarRoute. fold name. rewrite Hvalid. cbn [negb].
    rewrite run_bind, run_await, (run_get_hit _ _ e) by done. cbn iota.
    by rewrite Htruthy, run_ret.
  - unfold recordsRoute. fold name. rewrite Hvalid. cbn [negb].
    rewrite run_bind, run_await, (run_get_hit _ _ e) by done. cbn iota.
    by rewrite Htruthy, run_ret.
Qed.

(** X9: a resolved name is served from the cache for five minutes.  When
    the resolve route misses the cache and the lookup gives an address, it
    answers [{name, address, timestamp, cached: false}]; the same request
    made again, in whatever world, while the clock is at most 300 seconds
    past the first answer, gets the same name, address and timestamp with
    [cached: true], and nothing changes but the hit counter. *)
Theorem resolve_then_cached (param : string) (s s1 s2 : State) (cached : json)
    (addr : string) (later : World) :
  let name := sanitizeInput param in
  let cacheKey := "resolve:" +:+ name in
  let ts := toISOString (Date_now (world s2)) in
  let s3 := afterSet cacheKey
              (JObj [("name", JStr name); ("address", JStr addr); ("timestamp", JStr ts)])
              None s2 in
  let again := withWorld later s3 in
  isValidENSName name = true ->
  run (CacheManager_get cacheKey) s = (s1, Returned cached) ->
  truthy cached = false ->
  run (executeWithFallback (resolveNameOp name) 3) s1 = (s2, Returned (Some addr)) ->
  addr <> "" ->
  NodeCache.stdTTL (memoryCache (cache s2)) = CONFIG.CACHE_TTL ->
  Date_now later <= Date_now (world s2) + 300 * 1000 ->
  run (resolveRoute param) s =
    (s3, Returned (JObj [("name", JStr name); ("address", JStr addr);
                         ("timestamp", JStr ts); ("cached", JBool false)])) /\
  run (resolveRoute param) again =
    (withCache (hitsIncr (cache again)) again,
     Returned (JObj [("name", JStr name); ("address", JStr addr);
                     ("timestamp", JStr ts); ("cached", JBool true)])).
Proof.
  intros name cacheKey ts s3 again Hvalid Hget Hfalsy Hup Haddr Hstd Hlater.
  assert (Htruthy : truthy (JStr addr) = true).
  { simpl. destruct (String.eqb_spec addr ""); done. }
  split.
  - unfold resolveRoute. fold name cacheKey. rewrite Hvalid. cbn [negb].
    rewrite run_bind, run_await, Hget. cbn iota. rewrite Hfalsy.
    rewrite run_bind, run_await, Hup. cbn iota. cbn [ofNullable].
    rewrite Htruthy. cbn [negb].
    unfold timestamp. rewrite run_bind, run_gets. cbn iota.
    rewrite run_bind, run_await, run_CacheManager_set. cbn iota.
    by rewrite run_ret.
  - unfold resolveRoute. fold name cacheKey. rewrite Hvalid. cbn [negb].
    rewrite run_bind, run_await.
    rewrite (run_get_hit _ _ (NodeCache.mkEntry
               (JObj [("name", JStr name); ("address", JStr addr); ("timestamp", JStr ts)])
               (Date_now (world s2) + 300 * 1000))).
    + cbn iota. cbn [NodeCache.v truthy]. by rewrite run_ret.
    + unfold again, s3. cbn [cache withWorld]. rewrite afterSet_entry.
      unfold NodeCache.livetime. by rewrite Hstd.
    + unfold NodeCache.expired. cbn [NodeCache.t]. change (world again) with later.
      apply andb_false_iff. right. by apply Z.ltb_ge.
Qed.


Lemma run_fallback_exhausted {T} (operation : Operation T) (maxRetries : Z) s l w1 :
  0 <= maxRetries ->
  failures operation (providers (providerManager s)) (currentIndex (providerManager s))
           (world s) (Z.to_nat maxRetries) = Some (l, w1) ->
  run (executeWithFallback operation maxRetries) s =
  ({| providerManager := failN (Z.to_nat maxRetries) (providerManager s);
      cache := cache s; world := w1;
      trace := trace s ++ warnings 0 maxRetries l |},
   Thrown (newError (exhaustedMessage maxRetries (snd <$> last l)))).
Proof.
  intros Hmax Hf. unfold executeWithFallback.
  replace (Z.to_nat maxRetries) with (Z.to_nat maxRetries + 0)%nat at 1 by lia.
  rewrite (attemptLoop_failures _ _ _ _ _ _ _ l w1) by exact Hf.
  cbn [attemptLoop]. rewrite run_throw.
  do 4 f_equal. by destruct (last l) as [[? ?]|].
Qed.

(** What a route does after a cache miss when all three attempts fail. *)
Lemma outage_after_miss {T} (operation : Operation T) (s1 : State) l w1 requestId now :
  failures operation (providers (providerManager s1)) (currentIndex (providerManager s1))
           (world s1) 3 = Some (l, w1) ->
  exists s2 e,
    run (executeWithFallback operation 3) s1 = (s2, Thrown e) /\
    respond (Thrown e) requestId now = internalServerError requestId now /\
    cache s2 = cache s1 /\
    trace s2 = (trace s1 ++ warnings 0 3 l)%list /\
    length l = 3%nat.
Proof.
  intros Hf. eexists _, _. split; [by apply (run_fallback_exhausted operation 3)|].
  split_and!; try done. by eapply failures_length.
Qed.

(** X10: an outage of the providers is answered with status 500.  When a
    lookup route misses the cache and all three attempts of its upstream
    operation fail, it passes the error of [executeWithFallback] to
    [next], which answers [{error: "Internal server error", ...}] with
    status 500; three warnings are logged, and the cache is as the lookup
    left it: nothing is written. *)
Theorem upstream_outage_is_500 (param : string) (s s1 : State) (cached : json)
    (l : list (nat * Error)) (w1 : World) (requestId : string) (now : Z) :
  let arg := sanitizeInput param in
  let pm := providerManager s1 in
  truthy cached = false ->
  (isValidENSName arg = true ->
   run (CacheManager_get ("resolve:" +:+ arg)) s = (s1, Returned cached) ->
   failures (resolveNameOp arg) (providers pm) (currentIndex pm) (world s1) 3 = Some (l, w1) ->
   exists s2 e,
     run (resolveRoute param) s = (s2, Thrown e) /\
     respond (Thrown e) requestId now = internalServerError requestId now /\
     cache s2 = cache s1 /\ trace s2 = (trace s1 ++ warnings 0 3 l)%list /\
     length l = 3%nat) /\
  (isValidAddress arg = true ->
   run (CacheManager_get ("reverse:" +:+ arg)) s = (s1, Returned cached) ->
   failures (lookupAddressOp arg) (providers pm) (currentIndex pm) (world s1) 3 = Some (l, w1) ->
   exists s2 e,
     run (reverseRoute param) s = (s2, Thrown e) /\
     respond (Thrown e) requestId now = internalServerError requestId now /\
     cache s2 = cache s1 /\ trace s2 = (trace s1 ++ warnings 0 3 l)%list /\
     length l = 3%nat) /\
  (isValidENSName arg = true ->
   run (CacheManager_get ("avatar:" +:+ arg)) s = (s1, Returned cached) ->
   failures (avatarOp arg) (providers pm) (currentIndex pm) (world s1) 3 = Some (l, w1) ->
   exists s2 e,
     run (avatarRoute param) s = (s2, Thrown e) /\
     respond (Thrown e) requestId now = internalServerError requestId now /\
     cache s2 = cache s1 /\ trace s2 = (trace s1 ++ warnings 0 3 l)%list /\
     length l = 3%nat) /\
  (isValidENSName arg = true ->
   run (CacheManager_get ("records:" +:+ arg)) s = (s1, Returned cached) ->
   failures (recordsOp arg) (providers pm) (currentIndex pm) (world s1) 3 = Some (l, w1) ->
   exists s2 e,
     run (recordsRoute param) s = (s2, Thrown e) /\
     respond (Thrown e) requestId now = internalServerError requestId now /\
     cache s2 = cache s1 /\ trace s2 = (trace s1 ++ warnings 0 3 l)%list /\
     length l = 3%nat).
Proof.
  intros arg pm Hfalsy. split_and!; intros Hvalid Hget Hf;
    destruct (outage_after_miss _ s1 l w1 requestId now Hf) as (s2 & e & Hup & Hrest);
    exists s2, e; (split; [|exact Hrest]).
  - unfold resolveRoute. fold arg. rewrite Hvalid. cbn [negb].
    rewrite run_bind, run_await, Hget. cbn iota. rewrite Hfalsy.
    by rewrite run_bind, run_await, Hup.
  - unfold reverseRoute. fold arg. rewrite Hvalid. cbn [negb].
    rewrite run_bind, run_await, Hget. cbn iota. rewrite Hfalsy.
    by rewrite run_bind, run_await, Hup.
  - unfold avatarRoute. fold arg. rewrite Hvalid. cbn [negb].
    rewrite run_bind, run_await, Hget. cbn iota. rewrite Hfalsy.
    by rewrite run_bind, run_await, Hup.
  - unfold recordsRoute. fold arg. rewrite Hvalid. cbn [negb].
    rewrite run_bind, run_await, Hget. cbn iota. rewrite Hfalsy.
    by rewrite run_bind, run_await, Hup.
Qed.


Lemma run_fallback_first_try {T} (operation : Operation T) (maxRetries : Z) s r w1 :
  0 < maxRetries ->
  operation (getProvider (providerManager s)) (world s) = (Returned r, w1) ->
  run (executeWithFallback operation maxRetries) s =
  (withProviderManager (recordSuccess (providerManager s)) (withWorld w1 s), Returned r).
Proof.
  intros Hmax Hop. unfold executeWithFallback.
  destruct (Z.to_nat maxRetries) as [|fuel] eqn:E; [lia|].
  cbn [attemptLoop]. rewrite run_bind, run_attemptOnce. cbn zeta. rewrite Hop.
  by rewrite run_ret.
Qed.

(** X11: a name without a resolver is no "not found" for the records
    route.  The operation of the route throws its 404 error inside
    [executeWithFallback], which counts it as a failure of the provider:
    when the three providers tried report no resolver, the route has asked
    all three, logged three warnings, moved the cursor three places on, and
    answers 500 "Internal server error", not 404. *)
Theorem records_without_resolver (param : string) (s s1 : State) (cached : json)
    (u0 u1 u2 : string) (w1 w2 w3 : World) (requestId : string) (now : Z) :
  let name := sanitizeInput param in
  let pm := providerManager s1 in
  let n := length (providers pm) in
  let c0 := currentIndex pm in
  let c1 := ((c0 + 1) mod n)%nat in
  let c2 := ((c1 + 1) mod n)%nat in
  let e := newError "All providers failed after 3 attempts: ENS resolver not found" in
  isValidENSName name = true ->
  run (CacheManager_get ("records:" +:+ name)) s = (s1, Returned cached) ->
  truthy cached = false ->
  providers pm !! c0 = Some u0 ->
  providers pm !! c1 = Some u1 ->
  providers pm !! c2 = Some u2 ->
  rpc u0 (GetResolver name) (world s1) = (Returned None, w1) ->
  rpc u1 (GetResolver name) w1 = (Returned None, w2) ->
  rpc u2 (GetResolver name) w2 = (Returned None, w3) ->
  exists s2,
    run (recordsRoute param) s = (s2, Thrown e) /\
    respond (Thrown e) requestId now = internalServerError requestId now /\
    trace s2 = (trace s1 ++ [ProviderFailed c0 1 3 "ENS resolver not found";
                             ProviderFailed c1 2 3 "ENS resolver not found";
                             ProviderFailed c2 3 3 "ENS resolver not found"])%list /\
    currentIndex (providerManager s2) = ((c2 + 1) mod n)%nat /\
    (forall i, count (providerManager s2) i = (count pm i + attemptsOn n c0 3 i)%nat) /\
    cache s2 = cache s1 /\
    world s2 = w3.
Proof.
  intros name pm n c0 c1 c2 e Hvalid Hget Hfalsy H0 H1 H2 Hr0 Hr1 Hr2.
  assert (Hf : failures (recordsOp name) (providers pm) (currentIndex pm) (world s1) 3 =
               Some ([(c0, createError "ENS resolver not found" 404);
                      (c1, createError "ENS resolver not found" 404);
                      (c2, createError "ENS resolver not found" 404)], w3)).
  { cbn [failures]. fold c0 n c1 c2. unfold recordsOp.
    by rewrite H0, Hr0, H1, Hr1, H2, Hr2. }
  pose proof (run_fallback_exhausted (recordsOp name) 3 s1 _ _ ltac:(lia) Hf) as Hup.
  eexists. split.
  - unfold recordsRoute. fold name. rewrite Hvalid. cbn [negb].
    rewrite run_bind, run_await, Hget. cbn iota. rewrite Hfalsy.
    rewrite run_bind, run_await, Hup. cbn iota. reflexivity.
  - cbn [trace cache world providerManager]. split_and!; try done.
    intros i. change (Z.to_nat 3) with 3%nat. apply failN_count.
    by eapply lookup_lt_Some.
Qed.

(** X12: for the avatar route a name without a resolver is a success.
    When the current provider reports no resolver, the route answers 200
    with [avatar: null], after one attempt, and writes that result to the
    cache. *)
Theorem avatar_without_resolver (param : string) (s s1 : State) (cached : json)
    (url : string) (w1 : World) (requestId : string) (now : Z) :
  let name := sanitizeInput param in
  let cacheKey := "avatar:" +:+ name in
  let pm := providerManager s1 in
  let s2 := withProviderManager (recordSuccess pm) (withWorld w1 s1) in
  let ts := toISOString (Date_now w1) in
  let result := JObj [("name", JStr name); ("avatar", JNull); ("timestamp", JStr ts)] in
  let answer := JObj [("name", JStr name); ("avatar", JNull); ("timestamp", JStr ts);
                      ("cached", JBool false)] in
  isValidENSName name = true ->
  run (CacheManager_get cacheKey) s = (s1, Returned cached) ->
  truthy cached = false ->
  providers pm !! currentIndex pm = Some url ->
  rpc url (GetResolver name) (world s1) = (Returned None, w1) ->
  run (avatarRoute param) s = (afterSet cacheKey result None s2, Returned answer) /\
  status (respond (Returned answer) requestId now) = 200 /\
  NodeCache.v <$> NodeCache.data (memoryCache (cache (afterSet cacheKey result None s2)))
    !! cacheKey = Some result /\
  trace s2 = trace s1.
Proof.
  intros name cacheKey pm s2 ts result answer Hvalid Hget Hfalsy Hurl Hrpc.
  split_and!; [|done|by rewrite afterSet_entry|done].
  unfold avatarRoute. fold name cacheKey. rewrite Hvalid. cbn [negb].
  rewrite run_bind, run_await, Hget. cbn iota. rewrite Hfalsy.
  rewrite run_bind, run_await.
  rewrite (run_fallback_first_try (avatarOp name) 3 s1 None w1); [|lia|].
  2:{ unfold getProvider, avatarOp. fold pm. by rewrite Hurl, Hrpc. }
  cbn iota. unfold timestamp. rewrite run_bind, run_gets. cbn iota.
  rewrite run_bind, run_await, run_CacheManager_set. cbn iota.
  by rewrite run_ret.
Qed.

Lemma textRecords_spec url name keys :
  forall w,
  (fst (textRecords url name keys w)).*1 = keys /\
  Forall (fun kv => kv.2 = JNull \/ exists text, text <> "" /\ kv.2 = JStr text)
         (fst (textRecords url name keys w)).
Proof.
  induction keys as [|key keys IH]; intros w; [done|].
  cbn [textRecords]. destruct (rpc url (GetText name key) w) as [o w1].
  specialize (IH w1). destruct (textRecords url name keys w1) as [entries w2].
  cbn [fst] in *. destruct IH as [IH1 IH2]. split.
  - cbn. by rewrite IH1.
  - constructor; [|done]. cbn [snd].
    destruct o as [[text|]|e]; [|by left|by left].
    unfold orNull. cbn [ofNullable truthy].
    destruct (String.eqb_spec text ""); cbn [negb]; [by left|].
    right. by exists text.
Qed.

(** X13: once the resolver of a name is found, reading its text records
    cannot fail: the operation of the records route returns an object with
    exactly the eight keys [email], [url], [avatar], [description],
    [com.twitter], [com.github], [com.discord], [com.telegram], in this
    order; each value is a non-empty text or [null], the latter also when
    the [getText] call for that key fails. *)
Theorem records_of_resolver (name url resolver : string) (w w1 : World) :
  rpc url (GetResolver name) w = (Returned (Some resolver), w1) ->
  exists entries w2,
    recordsOp name (Some url) w = (Returned (JObj entries), w2) /\
    entries.*1 = [ "email"; "url"; "avatar"; "description"; "com.twitter";
                   "com.github"; "com.discord"; "com.telegram" ] /\
    Forall (fun kv => kv.2 = JNull \/ exists text, text <> "" /\ kv.2 = JStr text)
           entries /\
    (forall key e w' w'',
       rpc url (GetText name key) w' = (Thrown e, w'') ->
       fst (textRecords url name [key] w') = [(key, JNull)]).
Proof.
  intros Hres. unfold recordsOp. rewrite Hres.
  pose proof (textRecords_spec url name recordKeys w1) as [H1 H2].
  destruct (textRecords url name recordKeys w1) as [entries w2].
  exists entries, w2. split_and!; [done|exact H1|exact H2|].
  intros key e w' w'' Hget. cbn [textRecords]. by rewrite Hget.
Qed.

End RouteScenarios.

(** ** The batch route: what it refuses *)
Section BatchValidation.
Context {R : Runtime}.

Lemma batchRoute_cases sched reqBody s :
  (exists s' results,
     batchRoute sched reqBody s = (s', Returned (JObj [("results", JArr results)]))) \/
  (exists msg, batchRoute sched reqBody s = (s, Thrown (createError msg 400))).
Proof.
  unfold batchRoute.
  destruct (bodyOperations reqBody) as [[| | | |[|op ops]|]|]; try (right; by eexists).
  destruct (10 <? _)%nat; [right; by eexists|].
  destruct (allSettled _ _ s) as [s' results]. left. by eexists _, _.
Qed.

(** X14: the batch route answers 200 or 400 and nothing else.  A body
    without [operations], or with one that is no array or an empty array,
    is refused with "Invalid batch request format" and status 400; every
    refusal leaves the state untouched.  Whatever the sub-operations do,
    the route itself never fails otherwise.  (The body is what
    [express.json] delivers: an object or an array.) *)
Theorem batchRoute_200_or_400 (sched : list nat) (fields : list (string * json))
    (items : list json) (s : State) (requestId : string) (now : Z) :
  let invalid := createError "Invalid batch request format" 400 in
  ((forall op ops, getField "operations" fields <> Some (JArr (op :: ops))) ->
   batchRoute sched (JObj fields) s = (s, Thrown invalid)) /\
  batchRoute sched (JArr items) s = (s, Thrown invalid) /\
  status (respond (Thrown invalid) requestId now) = 400 /\
  (let r := batchRoute sched (JObj fields) s in
   status (respond (snd r) requestId now) = 200 \/
   (status (respond (snd r) requestId now) = 400 /\ fst r = s)).
Proof.
  intros invalid. split_and!.
  - intros Hno. unfold batchRoute, bodyOperations.
    destruct (getField "operations" fields) as [[| | | |[|op ops]|]|] eqn:E; try done.
    by destruct (Hno op ops).
  - done.
  - done.
  - intros r. unfold r.
    destruct (batchRoute_cases sched (JObj fields) s) as [(s' & results & ->)|(msg & ->)].
    + by left.
    + by right.
Qed.

Lemma spawn_settled {A} (calls : list (Async A)) (os : list (Outcome A)) s :
  Forall2 (fun m o => m s = (s, Done o)) calls os ->
  spawn calls s = (s, map Done os).
Proof.
  induction 1 as [|m o calls os Hm _ IH]; [done|].
  simpl. by rewrite Hm, IH.
Qed.

Lemma interleave_settled {A} sched (os : list (Outcome A)) s :
  interleave sched (map Done os) s = (s, map Done os).
Proof.
  induction sched as [|i sched IH]; [done|]. simpl. unfold resume.
  rewrite list_lookup_fmap. by destruct (os !! i).
Qed.

Lemma drain_settled {A} (os : list (Outcome A)) s :
  drain (map Done os) s = (s, os).
Proof. induction os as [|o os IH]; [done|]. simpl. by rewrite IH. Qed.

(** X15: sub-operations of a type the batch does not know cost nothing.
    A batch of one to ten objects whose [type] is neither ["resolve"] nor
    ["reverse"] answers 200 with one [rejected] entry per object, each with
    the error "Invalid operation type", and leaves the state as it was: no
    cache access, no provider call. *)
Theorem batch_unknown_types_rejected (sched : list nat) (ops : list json) (s : State) :
  (1 <= length ops <= 10)%nat ->
  Forall (fun op => exists fields, op = JObj fields /\
            isString "resolve" (getField "type" fields) = false /\
            isString "reverse" (getField "type" fields) = false) ops ->
  batchRoute sched (JObj [("operations", JArr ops)]) s =
  (s, Returned (JObj [("results",
        JArr (imap (fun i _ =>
                JObj [("index", JNum (Z.of_nat i)); ("status", JStr "rejected");
                      ("data", JNull); ("error", JStr "Invalid operation type")])
              ops))])).
Proof.
  intros [Hlo Hhi] Hops. unfold batchRoute. cbn [bodyOperations getField String.eqb].
  change (Ascii.eqb _ _) with true. cbn iota.
  destruct ops as [|op ops]; [simpl in Hlo; lia|].
  destruct (10 <? length (op :: ops))%nat eqn:E; [apply Nat.ltb_lt in E; lia|].
  set (os := map (fun _ : json => Thrown (A:=json) (newError "Invalid operation type"))
                 (op :: ops)).
  assert (Hspawn : Forall2 (fun m o => m s = (s, Done o))
                     (map batchOperation (op :: ops)) os).
  { unfold os. change (map batchOperation (op :: ops)) with (batchOperation <$> op :: ops).
    apply Forall2_fmap, Forall2_same_length_lookup_2; [done|].
    intros i x y Hx Hy. rewrite Hx in Hy. injection Hy as <-.
    rewrite Forall_forall in Hops.
    destruct (Hops x) as (fields & -> & H1 & H2); [by eapply list_elem_of_lookup_2|].
    unfold batchOperation, bind, liftOutcome. cbn [property bindCo].
    by rewrite H1, H2. }
  unfold allSettled. rewrite (spawn_settled _ os) by done.
  rewrite interleave_settled, drain_settled.
  do 6 f_equal. unfold os.
  change (map ?f (op :: ops)) with (f <$> op :: ops). rewrite imap_fmap.
  by apply imap_ext.
Qed.

End BatchValidation.

(** ** The notifier's bookkeeping *)
Module BookkeepingProperties.
Import Notifier Bookkeeping NotifierProperties.

Lemma greeted_send msg k :
  (forall t, msg <> Welcome t) -> greeted k -> greeted (send msg k).
Proof.
  intros Hmsg. unfold send.
  destruct (readyState k) eqn:Hr; try done. unfold greeted. simpl.
  destruct (registered k).
  - intros (now & rest & -> & Hrest). exists now, (rest ++ [msg])%list. split; [done|].
    apply Forall_app. split; [done|]. by constructor.
  - intros (_ & Hno & _). by rewrite Hr in Hno.
Qed.

(** A handler that keeps whether the connection was accepted, whether it
    is closed, and the greeting, keeps the bookkeeping. *)
Section UpdateKeeps.
Variable f : Connection -> Connection.
Hypothesis f_registered : forall k, registered (f k) = registered k.
Hypothesis f_closed : forall k, readyState (f k) = CLOSED <-> readyState k = CLOSED.
Hypothesis f_greeted : forall k, greeted k -> greeted (f k).

Lemma update_wellFormed c sv : wellFormed sv -> wellFormed (update c f sv).
Proof.
  intros (Hnd & Hlen & Hmem & Hgreet). split_and!; [done|done| |].
  - intros c'. rewrite Hmem. unfold holds. rewrite update_lookup.
    destruct (decide (c = c')) as [->|Hne]; [|done].
    destruct (connections sv !! c') as [k|]; simpl.
    + split; intros (k' & [= <-] & Hreg & Hopen); eexists; (split; [done|]).
      * rewrite f_registered, f_closed. done.
      * rewrite f_registered, f_closed in *. done.
    + split; intros (k' & ? & _); done.
  - intros c' k. rewrite update_lookup.
    destruct (decide (c = c')) as [->|Hne]; [|apply Hgreet].
    destruct (connections sv !! c') as [k0|] eqn:E; simpl; [|done].
    intros [= <-]. eapply f_greeted, Hgreet, E.
Qed.

End UpdateKeeps.

Lemma broadcast_wellFormed blockNumber now sv :
  wellFormed sv -> wellFormed (broadcast blockNumber now sv).
Proof.
  unfold broadcast. generalize (connectedClients sv) at 1. intros clients.
  revert sv. induction clients as [|c clients IH]; intros sv H; [done|].
  simpl. apply IH. apply update_wellFormed; [| | |done].
  - intros k. apply send_fields.
  - intros k. by destruct (send_fields (BlockEvent blockNumber now) k) as (_ & _ & _ & ->).
  - intros k. by apply greeted_send.
Qed.

Lemma onConnection_wellFormed c now sv :
  wellFormed sv -> wellFormed (onConnection c now sv).
Proof.
  intros (Hnd & Hlen & Hmem & Hgreet). unfold onConnection.
  destruct (connections sv !! c) as [k0|] eqn:Hc; [done|].
  assert (Hnew : ~ In c (connectedClients sv)).
  { rewrite Hmem. intros (k & Hk & _). congruence. }
  destruct (CONFIG.WS_MAX_CLIENTS <=? length (connectedClients sv))%nat eqn:Hfull.
  - split_and!; simpl; [done|done| |].
    + intros c'. rewrite Hmem. unfold holds. simpl.
      destruct (decide (c = c')) as [<-|Hne].
      * rewrite lookup_insert_eq, Hc. split; intros (k & [= <-] & Hreg & _); done.
      * by rewrite lookup_insert_ne.
    + intros c' k. destruct (decide (c = c')) as [<-|Hne].
      * rewrite lookup_insert_eq. intros [= <-]. by unfold greeted.
      * rewrite lookup_insert_ne by done. apply Hgreet.
  - apply Nat.leb_gt in Hfull. split_and!; simpl.
    + apply NoDup_app. split_and!; [done| |apply NoDup_singleton].
      intros x Hx [->|[]]%list_elem_of_In. by apply Hnew, list_elem_of_In.
    + rewrite length_app. simpl. lia.
    + intros c'. rewrite in_app_iff, Hmem. unfold holds. simpl.
      destruct (decide (c = c')) as [<-|Hne].
      * rewrite lookup_insert_eq. split; [|by intros; right; left].
        intros _. eexists. split; [done|]. done.
      * rewrite lookup_insert_ne by done. split; [|by left].
        intros [H|[H|[]]]; [done|by destruct Hne].
    + intros c' k. destruct (decide (c = c')) as [<-|Hne].
      * rewrite lookup_insert_eq. intros [= <-]. unfold greeted. simpl.
        exists now, []. by split.
      * rewrite lookup_insert_ne by done. apply Hgreet.
Qed.

Lemma step_wellFormed sv ev : wellFormed sv -> wellFormed (step sv ev).
Proof.
  intros H. destruct ev as [c now|c|c|c parsed now|c|c|blockNumber now]; simpl.
  - by apply onConnection_wellFormed.
  - apply update_wellFormed; [| | |done]; intros k; unfold whenRegistered;
      destruct (registered k) eqn:Hr; try done.
  - apply update_wellFormed; [| | |done]; intros k;
      destruct (registered k) eqn:Hr; simpl; try done;
      destruct (heartbeat k); try done; unfold onHeartbeat, terminate;
      destruct (isAlive k); simpl; try done.
    + by destruct (readyState k).
    + destruct (readyState k) eqn:E; simpl; rewrite ?E; done.
    + unfold greeted. simpl. by rewrite Hr.
    + unfold greeted. destruct (readyState k); simpl; by rewrite Hr.
  - apply update_wellFormed; [| | |done]; intros k; unfold whenRegistered, onMessage;
      destruct (registered k) eqn:Hr; try done;
      destruct (subscribeChannel parsed); try done.
    + by rewrite (proj1 (send_fields _ _)).
    + by destruct (send_fields (Subscribed o now) k) as (_ & _ & _ & ->).
    + by apply greeted_send.
  - apply update_wellFormed; [| | |done]; intros k;
      destruct (readyState k) eqn:E; simpl; rewrite ?E; try done.
    unfold greeted. simpl. destruct (registered k); [done|].
    intros (_ & Hno & _). by rewrite E in Hno.
  - destruct H as (Hnd & Hlen & Hmem & Hgreet).
    destruct (connections sv !! c) as [k|] eqn:Hc; [|done].
    destruct (registered k) eqn:Hr.
    + split_and!; simpl.
      * by apply NoDup_filter.
      * etrans; [apply length_filter|done].
      * intros c'. rewrite <- list_elem_of_In, list_elem_of_filter, list_elem_of_In, Hmem.
        unfold holds. simpl. destruct (decide (c = c')) as [<-|Hne].
        -- rewrite lookup_insert_eq. split; [by intros [? _]|].
           by intros (k' & [= <-] & _ & Hno).
        -- rewrite lookup_insert_ne by done. split; [by intros [_ ?]|]. by split.
      * intros c' k'. destruct (decide (c = c')) as [<-|Hne].
        -- rewrite lookup_insert_eq. intros [= <-].
           specialize (Hgreet _ _ Hc). unfold greeted in *. simpl. by rewrite Hr in *.
        -- rewrite lookup_insert_ne by done. apply Hgreet.
    + split_and!; [done|done| |].
      * intros c'. cbn [connectedClients update]. rewrite Hmem. unfold holds.
        rewrite update_lookup.
        destruct (decide (c = c')) as [<-|Hne]; [|done]. rewrite Hc. simpl.
        split; intros (k' & [= <-] & Hreg & _); simpl in *; congruence.
      * intros c' k'. rewrite update_lookup.
        destruct (decide (c = c')) as [<-|Hne]; [|apply Hgreet].
        rewrite Hc. simpl. intros [= <-].
        specialize (Hgreet _ _ Hc). unfold greeted in *. simpl. rewrite Hr in *.
        destruct Hgreet as (? & ? & ? & ?). done.
  - by apply broadcast_wellFormed.
Qed.

Lemma steps_wellFormed evs : forall sv, wellFormed sv -> wellFormed (steps sv evs).
Proof.
  induction evs as [|ev evs IH]; intros sv H; [done|].
  rewrite steps_cons. by apply IH, step_wellFormed.
Qed.

Lemma empty_wellFormed : wellFormed empty.
Proof.
  split_and!; simpl; [apply NoDup_nil_2|lia| |done].
  intros c. split; [done|]. by intros (k & ? & _).
Qed.

(** X16: [connectedClients] is a bounded set of the live accepted
    sockets.  After any sequence of events on a fresh server it has no
    socket twice and at most 1000 of them; a socket is in it exactly when
    its connection was accepted and its [close] event has not been handled;
    every accepted connection was sent the welcome message first, and once;
    a refused one was sent nothing, is not open and has no interval. *)
Theorem connectedClients_bounded_set (evs : list Event) :
  let sv := steps empty evs in
  NoDup (connectedClients sv) /\
  (length (connectedClients sv) <= 1000)%nat /\
  (forall c, In c (connectedClients sv) <->
             exists k, connections sv !! c = Some k /\
                       registered k = true /\ readyState k <> CLOSED) /\
  (forall c k, connections sv !! c = Some k -> registered k = true ->
     exists now rest, sent k = Welcome now :: rest /\
       Forall (fun m => forall t, m <> Welcome t) rest) /\
  (forall c k, connections sv !! c = Some k -> registered k = false ->
     sent k = [] /\ readyState k <> OPEN /\ heartbeat k = false).
Proof.
  intros sv.
  destruct (steps_wellFormed evs empty empty_wellFormed) as (Hnd & Hlen & Hmem & Hgreet).
  fold sv in Hnd, Hlen, Hmem, Hgreet. split_and!; try done.
  - intros c k Hk Hr. specialize (Hgreet c k Hk). unfold greeted in Hgreet.
    by rewrite Hr in Hgreet.
  - intros c k Hk Hr. specialize (Hgreet c k Hk). unfold greeted in Hgreet.
    rewrite Hr in Hgreet. tauto.
Qed.


(** X17: a socket refused at the client limit is never served.  When a
    new socket connects while [connectedClients] holds 1000 sockets or
    more, then whatever events follow, nothing was ever sent to it (no
    welcome, no reply to a frame, no block, no ping), it is not open, and
    it is not in [connectedClients]. *)
Theorem refused_socket_gets_nothing (sv : Server) (c : nat) (now : Z)
    (evs : list Event) :
  wellFormed sv ->
  connections sv !! c = None ->
  (CONFIG.WS_MAX_CLIENTS <= length (connectedClients sv))%nat ->
  let sv' := steps (step sv (Connect c now)) evs in
  (exists k, connections sv' !! c = Some k /\
             sent k = [] /\ pings k = 0%nat /\ readyState k <> OPEN) /\
  ~ In c (connectedClients sv').
Proof.
  intros Hwf Hc Hfull sv'.
  pose proof (steps_wellFormed evs _ (step_wellFormed sv (Connect c now) Hwf)) as Hwf'.
  fold sv' in Hwf'.
  assert (H : holds (fun k => registered k = false /\ sent k = [] /\ pings k = 0%nat /\
                              readyState k <> OPEN /\ heartbeat k = false) c sv').
  { apply steps_holds.
    - intros msg k (? & ? & ? & Hno & ?). by rewrite send_not_open.
    - by intros k (? & ? & ? & ? & ?).
    - by intros k (? & ? & ? & ? & ?).
    - by intros k (? & ? & ? & ? & ?).
    - intros k (? & ? & ? & ? & Hh) Hh'. congruence.
    - by intros k _ (? & ? & ? & ? & ?).
    - simpl. unfold onConnection. rewrite Hc.
      apply Nat.leb_le in Hfull. rewrite Hfull.
      eexists. simpl. rewrite lookup_insert_eq. by split. }
  destruct H as (k & Hk & Hreg & Hsent & Hpings & Hno & _). split.
  - by exists k.
  - destruct Hwf' as (_ & _ & Hmem & _). rewrite Hmem.
    intros (k' & Hk' & Hreg' & _). congruence.
Qed.

Lemma foldl_update_lookup f (clients : list nat) sv c :
  NoDup clients ->
  connections (foldl (fun acc c' => update c' f acc) sv clients) !! c =
  if decide (c ∈ clients) then f <$> connections sv !! c else connections sv !! c.
Proof.
  revert sv. induction clients as [|c' clients IH]; intros sv Hnd; [done|].
  apply NoDup_cons in Hnd as [Hc' Hnd].
  simpl. rewrite IH by done. rewrite update_lookup.
  destruct (decide (c' = c)) as [->|Hne].
  - destruct (decide (c ∈ clients)); [done|].
    destruct (decide (c ∈ c :: clients)) as [|Hout]; [done|].
    destruct Hout. by left.
  - destruct (decide (c ∈ clients)) as [Hin|Hout];
      destruct (decide (c ∈ c' :: clients)) as [Hin'|Hout']; try done.
    + destruct Hout'. by right.
    + apply elem_of_cons in Hin' as [->|?]; done.
Qed.

Lemma broadcast_lookup blockNumber now sv c :
  NoDup (connectedClients sv) ->
  connections (broadcast blockNumber now sv) !! c =
  if decide (c ∈ connectedClients sv)
  then send (BlockEvent blockNumber now) <$> connections sv !! c
  else connections sv !! c.
Proof. apply foldl_update_lookup. Qed.

Lemma filter_isBlock_snoc l m :
  List.filter isBlock (l ++ [m]) =
  (List.filter isBlock l ++ if isBlock m then [m] else [])%list.
Proof. rewrite List.filter_app. simpl. by destruct (isBlock m). Qed.

(** One event keeps a live, answering connection live. *)
Lemma step_answered c ev alive sv k :
  wellFormed sv ->
  connections sv !! c = Some k ->
  registered k = true -> readyState k = OPEN ->
  (alive = true -> isAlive k = true) ->
  probesAnswered c alive [ev] ->
  exists k' alive',
    connections (step sv ev) !! c = Some k' /\
    registered k' = true /\ readyState k' = OPEN /\
    (alive' = true -> isAlive k' = true) /\
    (forall rest, probesAnswered c alive (ev :: rest) -> probesAnswered c alive' rest) /\
    List.filter isBlock (sent k') =
      (List.filter isBlock (sent k) ++ blockMessages [ev])%list.
Proof.
  intros Hwf Hk Hreg Hopen Halive Hev.
  destruct ev as [c' now|c'|c'|c' parsed now|c'|c'|blockNumber now];
    cbn [step probesAnswered blockMessages omap] in *; rewrite ?app_nil_r.
  - exists k, alive. split_and!; try done.
    unfold onConnection. destruct (connections sv !! c') eqn:Hc'; [done|].
    assert (c' <> c) by congruence.
    destruct (_ <=? _)%nat; simpl; by rewrite lookup_insert_ne.
  - rewrite update_lookup. destruct (decide (c' = c)) as [->|Hne].
    + exists (onPong k), true. rewrite Hk. cbn [fmap option_fmap option_map].
      unfold whenRegistered. rewrite Hreg.
      split_and!; try done.
    + exists k, alive. split_and!; done.
  - rewrite update_lookup. destruct (decide (c' = c)) as [->|Hne].
    + destruct Hev as [-> _]. rewrite Hk. cbn [fmap option_fmap option_map].
      rewrite Hreg. cbn [andb].
      destruct (heartbeat k) eqn:Hh.
      * exists (onHeartbeat k), false. unfold onHeartbeat.
        rewrite (Halive eq_refl). cbn [negb].
        split_and!; try done. by intros rest [_ ?].
      * exists k, false. split_and!; try done. by intros rest [_ ?].
    + exists k, alive. split_and!; done.
  - rewrite update_lookup. destruct (decide (c' = c)) as [->|Hne].
    + rewrite Hk. cbn [fmap option_fmap option_map]. unfold whenRegistered, onMessage.
      rewrite Hreg. destruct (subscribeChannel parsed) as [channel|].
      * exists (send (Subscribed channel now) k), alive.
        destruct (send_fields (Subscribed channel now) k) as (-> & -> & _ & ->).
        split_and!; try done. unfold send. rewrite Hopen. simpl.
        by rewrite filter_isBlock_snoc, app_nil_r.
      * exists k, alive. split_and!; done.
    + exists k, alive. split_and!; done.
  - destruct Hev as [Hne _]. rewrite update_lookup.
    destruct (decide (c' = c)); [done|].
    exists k, alive. split_and!; try done. by intros rest [_ ?].
  - destruct Hev as [Hne _]. exists k, alive.
    split_and!; try done; [|by intros rest [_ ?]].
    destruct (connections sv !! c') as [k0|]; [|done].
    destruct (registered k0).
    + cbn [connections]. by rewrite lookup_insert_ne.
    + rewrite update_lookup. by destruct (decide (c' = c)).
  - destruct Hwf as (Hnd & _ & Hmem & _).
    rewrite broadcast_lookup by done.
    destruct (decide (c ∈ connectedClients sv)) as [Hin|Hout].
    + exists (send (BlockEvent blockNumber now) k), alive. rewrite Hk.
      destruct (send_fields (BlockEvent blockNumber now) k) as (-> & -> & _ & ->).
      split_and!; try done. unfold send. rewrite Hopen. simpl.
      by rewrite filter_isBlock_snoc.
    + destruct Hout. apply list_elem_of_In, Hmem. exists k. split_and!; [done|done|].
      by rewrite Hopen.
Qed.

(** X18: a client that answers its probes receives every block.  For an
    accepted connection that is open, and a sequence of events in which its
    interval never fires while its last probe is unanswered and in which it
    is not closed: the connection is still open afterwards, and the block
    messages sent to it are those sent before and then one for each [Block]
    event of the sequence, in order. *)
Theorem answered_probes_keep_blocks_coming (sv : Server) (c : nat) (k : Connection)
    (evs : list Event) :
  wellFormed sv ->
  connections sv !! c = Some k ->
  registered k = true ->
  readyState k = OPEN ->
  probesAnswered c (isAlive k) evs ->
  (exists k', connections (steps sv evs) !! c = Some k' /\ readyState k' = OPEN) /\
  blocksSent c (steps sv evs) = (blocksSent c sv ++ blockMessages evs)%list.
Proof.
  intros Hwf Hk Hreg Hopen Hevs.
  assert (H : exists k', connections (steps sv evs) !! c = Some k' /\
                readyState k' = OPEN /\
                List.filter isBlock (sent k') =
                  (List.filter isBlock (sent k) ++ blockMessages evs)%list).
  { assert (Halive : isAlive k = true -> isAlive k = true) by done.
    revert Halive Hevs. generalize (isAlive k) at 1 3. intros alive Halive Hevs.
    revert sv k alive Hwf Hk Hreg Hopen Halive Hevs.
    induction evs as [|ev evs IH]; intros sv k alive Hwf Hk Hreg Hopen Halive Hevs.
    - exists k. by rewrite app_nil_r.
    - destruct (step_answered c ev alive sv k) as
        (k1 & alive1 & Hk1 & Hreg1 & Hopen1 & Halive1 & Hnext & Hsent1); try done.
      { destruct ev; cbn [probesAnswered] in *; try done;
          repeat case_decide; tauto. }
      destruct (IH (step sv ev) k1 alive1) as (k2 & Hk2 & Hopen2 & Hsent2); try done.
      { by apply step_wellFormed. }
      { by apply Hnext. }
      exists k2. rewrite steps_cons. split_and!; try done.
      rewrite Hsent2, Hsent1, <- app_assoc. f_equal.
      unfold blockMessages. simpl. by destruct ev. }
  destruct H as (k' & Hk' & Hopen' & Hsent'). split; [by exists k'|].
  unfold blocksSent. by rewrite Hk', Hk.
Qed.

End BookkeepingProperties.

(** ** Invalidation *)
Section InvalidateProperties.
Context {R : Runtime}.
Variable redisKeys : string -> World -> Outcome (list string) * World.
Variable redisDel : list string -> World -> Outcome Z * World.

Lemma includes_empty key : includes key "" = true.
Proof. by destruct key. Qed.

Lemma foldl_del_lookup (pattern : string) (keys : list string) (c : NodeCache.cache)
    (key : string) :
  NodeCache.data
    (foldl (fun acc k => if includes k pattern then NodeCache_del k acc else acc) c keys)
    !! key =
  if decide (key ∈ keys) then
    if includes key pattern then None else NodeCache.data c !! key
  else NodeCache.data c !! key.
Proof.
  revert c. induction keys as [|k keys IH]; intros c; [done|].
  simpl. rewrite IH. destruct (decide (k = key)) as [->|Hne].
  - destruct (decide (key ∈ key :: keys)) as [_|Hout]; [|destruct Hout; by left].
    destruct (includes key pattern); simpl.
    + rewrite lookup_delete_eq. by destruct (decide (key ∈ keys)).
    + by destruct (decide (key ∈ keys)).
  - assert (Heq : NodeCache.data (if includes k pattern then NodeCache_del k c else c)
                    !! key = NodeCache.data c !! key).
    { destruct (includes k pattern); [|done]. simpl. by rewrite lookup_delete_ne. }
    rewrite Heq.
    destruct (decide (key ∈ keys)) as [Hin|Hout];
      destruct (decide (key ∈ k :: keys)) as [Hin'|Hout']; try done.
    + destruct Hout'. by right.
    + apply elem_of_cons in Hin' as [->|?]; done.
Qed.

Lemma memoryInvalidate_lookup pattern c key :
  NodeCache.data (memoryInvalidate pattern c) !! key =
  if includes key pattern then None else NodeCache.data c !! key.
Proof.
  unfold memoryInvalidate. rewrite foldl_del_lookup.
  destruct (decide (key ∈ NodeCache.keys c)) as [Hin|Hout]; [done|].
  destruct (NodeCache.data c !! key) as [e|] eqn:E; [|by destruct (includes _ _)].
  destruct Hout. unfold NodeCache.keys. apply list_elem_of_fmap.
  exists (key, e). split; [done|]. by apply elem_of_map_to_list.
Qed.

(** X19: [invalidate(pattern)] removes from the memory cache exactly the
    entries whose key contains [pattern] and keeps every other entry as it
    is; with the empty pattern it removes them all.  It never throws,
    whatever Redis does, and changes neither the counters nor the provider
    manager; without a Redis client it does not touch the world. *)
Theorem invalidate_removes_matching_keys (pattern : string) (s : State) :
  exists s' logged,
    run (CacheManager_invalidate redisKeys redisDel pattern) s = (s', Returned logged) /\
    (forall key,
       NodeCache.data (memoryCache (cache s')) !! key =
       if includes key pattern then None
       else NodeCache.data (memoryCache (cache s)) !! key) /\
    (pattern = "" -> NodeCache.data (memoryCache (cache s')) = ∅) /\
    stats (cache s') = stats (cache s) /\
    providerManager s' = providerManager s /\
    trace s' = trace s /\
    (redisClient (cache s) = false -> world s' = world s /\ logged = None).
Proof.
  unfold CacheManager_invalidate.
  rewrite run_bind, run_modify. cbn iota. rewrite run_bind, run_gets. cbn iota.
  cbn [cache withCache redisClient withMemoryCache].
  assert (Hall : forall s' : State,
            memoryCache (cache s') = memoryInvalidate pattern (memoryCache (cache s)) ->
            (forall key,
               NodeCache.data (memoryCache (cache s')) !! key =
               if includes key pattern then None
               else NodeCache.data (memoryCache (cache s)) !! key) /\
            (pattern = "" -> NodeCache.data (memoryCache (cache s')) = ∅)).
  { intros s' ->. split; [intros key; apply memoryInvalidate_lookup|].
    intros ->. apply map_eq. intros key.
    by rewrite memoryInvalidate_lookup, includes_empty, lookup_empty. }
  destruct (redisClient (cache s)) eqn:Hredis.
  - rewrite run_tryCatch, run_bind, run_awaitWorld. cbn [world withCache].
    destruct (redisKeys _ (world s)) as [[[|k keys]|e] w]; cbn [fst snd]; cbn iota.
    + rewrite !run_ret. eexists _, _. split; [reflexivity|].
      destruct (Hall (withWorld w (withCache (withMemoryCache
                  (memoryInvalidate pattern (memoryCache (cache s))) (cache s)) s)))
        as [H1 H2]; [done|].
      split_and!; done.
    + rewrite run_bind, run_awaitWorld. cbn [world withWorld].
      destruct (redisDel _ w) as [[n|e] w']; cbn [fst snd]; cbn iota; rewrite !run_ret.
      * eexists _, _. split; [reflexivity|].
        destruct (Hall (withWorld w' (withWorld w (withCache (withMemoryCache
                    (memoryInvalidate pattern (memoryCache (cache s))) (cache s)) s))))
          as [H1 H2]; [done|].
        split_and!; done.
      * eexists _, _. split; [reflexivity|].
        destruct (Hall (withWorld w' (withWorld w (withCache (withMemoryCache
                    (memoryInvalidate pattern (memoryCache (cache s))) (cache s)) s))))
          as [H1 H2]; [done|].
        split_and!; done.
    + rewrite run_ret. eexists _, _. split; [reflexivity|].
      destruct (Hall (withWorld w (withCache (withMemoryCache
                  (memoryInvalidate pattern (memoryCache (cache s))) (cache s)) s)))
        as [H1 H2]; [done|].
      split_and!; done.
  - rewrite run_ret. eexists _, _. split; [reflexivity|].
    destruct (Hall (withCache (withMemoryCache
                (memoryInvalidate pattern (memoryCache (cache s))) (cache s)) s))
      as [H1 H2]; [done|].
    split_and!; done.
Qed.


(** X20: with a Redis client, [invalidate(pattern)] asks Redis for
    [KEYS *pattern*] and deletes what it gets in one [DEL]; no [DEL] is sent
    when no key matches.  When [KEYS] or [DEL] rejects, the error is logged
    and the call still returns; the memory cache has been cleaned before. *)
Theorem invalidate_redis_best_effort (pattern : string) (s : State) :
  let glob := "*" +:+ pattern +:+ "*" in
  let run_it := run (CacheManager_invalidate redisKeys redisDel pattern) s in
  redisClient (cache s) = true ->
  (forall w,
     redisKeys glob (world s) = (Returned [], w) ->
     snd run_it = Returned None /\ world (fst run_it) = w) /\
  (forall key keys n w w',
     redisKeys glob (world s) = (Returned (key :: keys), w) ->
     redisDel (key :: keys) w = (Returned n, w') ->
     snd run_it = Returned None /\ world (fst run_it) = w') /\
  (forall key keys e w w',
     redisKeys glob (world s) = (Returned (key :: keys), w) ->
     redisDel (key :: keys) w = (Thrown e, w') ->
     snd run_it = Returned (Some e) /\ world (fst run_it) = w') /\
  (forall e w,
     redisKeys glob (world s) = (Thrown e, w) ->
     snd run_it = Returned (Some e) /\ world (fst run_it) = w) /\
  memoryCache (cache (fst run_it)) = memoryInvalidate pattern (memoryCache (cache s)).
Proof.
  intros glob run_it Hredis.
  assert (Hrun : run_it =
    let s0 := withCache (withMemoryCache
                (memoryInvalidate pattern (memoryCache (cache s))) (cache s)) s in
    match redisKeys glob (world s) with
    | (Returned [], w) => (withWorld w s0, Returned None)
    | (Returned (key :: keys), w) =>
        match redisDel (key :: keys) w with
        | (Returned _, w') => (withWorld w' (withWorld w s0), Returned None)
        | (Thrown e, w') => (withWorld w' (withWorld w s0), Returned (Some e))
        end
    | (Thrown e, w) => (withWorld w s0, Returned (Some e))
    end).
  { unfold run_it, CacheManager_invalidate.
    rewrite run_bind, run_modify. cbn iota. rewrite run_bind, run_gets. cbn iota.
    cbn [cache withCache redisClient withMemoryCache]. rewrite Hredis.
    rewrite run_tryCatch, run_bind, run_awaitWorld. cbn [world withCache]. fold glob.
    destruct (redisKeys glob (world s)) as [[[|k keys]|e] w]; cbn [fst snd]; cbn iota.
    - by rewrite !run_ret.
    - rewrite run_bind, run_awaitWorld. cbn [world withWorld].
      destruct (redisDel _ w) as [[n|e] w']; cbn [fst snd]; cbn iota; by rewrite !run_ret.
    - by rewrite run_ret. }
  rewrite Hrun. cbn zeta. split_and!.
  - by intros w ->.
  - by intros key keys n w w' -> ->.
  - by intros key keys e w w' -> ->.
  - by intros e w ->.
  - destruct (redisKeys glob (world s)) as [[[|k keys]|e] w]; [done| |done].
    by destruct (redisDel _ w) as [[n|e] w'].
Qed.

End InvalidateProperties.

(** ** The health check *)
Section HealthProperties.
Context {R : Runtime}.
Variable getBlockNumber : string -> World -> Outcome Z * World.
Variable getNetworkName : string -> World -> Outcome string * World.
Variable process_uptime : World -> json.

Lemma run_healthRoute s :
  run (healthRoute getBlockNumber getNetworkName process_uptime) s =
  let provider := getProvider (providerManager s) in
  match onProvider provider "getBlockNumber" getBlockNumber (world s) with
  | (Returned blockNumber, w1) =>
      match onProvider provider "getNetwork" getNetworkName w1 with
      | (Returned network, w2) =>
          (withWorld w2 (withWorld w1 s),
           Returned (Healthy (process_uptime w1) (toISOString (Date_now w1))
                       blockNumber network (Stats.getStats (cache s))
                       (providerStats (providerManager s))))
      | (Thrown e, w2) =>
          (withWorld w2 (withWorld w1 s), Returned (Unhealthy (message e)))
      end
  | (Thrown e, w1) => (withWorld w1 s, Returned (Unhealthy (message e)))
  end.
Proof.
  unfold healthRoute. rewrite run_tryCatch, run_bind, run_gets. cbn iota zeta.
  rewrite run_bind, run_awaitWorld.
  destruct (onProvider _ "getBlockNumber" _ (world s)) as [[blockNumber|e] w1];
    cbn [fst snd]; cbn iota; [|by rewrite run_ret].
  rewrite run_bind, run_gets. cbn iota. unfold timestamp.
  rewrite run_bind, run_gets. cbn iota. rewrite run_bind, run_awaitWorld.
  cbn [world withWorld providerManager].
  destruct (onProvider _ "getNetwork" _ w1) as [[network|e] w2];
    cbn [fst snd]; cbn iota; [|by rewrite run_ret].
  rewrite run_bind, run_gets. cbn iota. rewrite run_bind, run_gets. cbn iota.
  by rewrite run_ret.
Qed.

(** X21: the health check looks at the current provider only.  It always
    answers, with status 200 or 503, and never goes through
    [executeWithFallback]: the cursor and the failure counters, the cache
    and the log are as before.  When the call on the current provider
    fails, the answer is 503 with the message of that error, whatever the
    other providers would say; with no provider under the cursor it is 503
    as well. *)
Theorem health_check_current_provider_only (s : State) :
  let result := run (healthRoute getBlockNumber getNetworkName process_uptime) s in
  (exists answer,
     snd result = Returned answer /\
     (healthStatus answer = 200 \/ healthStatus answer = 503)) /\
  providerManager (fst result) = providerManager s /\
  cache (fst result) = cache s /\
  trace (fst result) = trace s /\
  (forall url e w,
     getProvider (providerManager s) = Some url ->
     getBlockNumber url (world s) = (Thrown e, w) ->
     snd result = Returned (Unhealthy (message e))) /\
  (forall url blockNumber e w1 w2,
     getProvider (providerManager s) = Some url ->
     getBlockNumber url (world s) = (Returned blockNumber, w1) ->
     getNetworkName url w1 = (Thrown e, w2) ->
     snd result = Returned (Unhealthy (message e))) /\
  (forall url blockNumber network w1 w2,
     getProvider (providerManager s) = Some url ->
     getBlockNumber url (world s) = (Returned blockNumber, w1) ->
     getNetworkName url w1 = (Returned network, w2) ->
     snd result =
       Returned (Healthy (process_uptime w1) (toISOString (Date_now w1)) blockNumber
                   network (Stats.getStats (cache s))
                   (providerStats (providerManager s)))) /\
  (getProvider (providerManager s) = None ->
   snd result =
     Returned (Unhealthy "Cannot read properties of undefined (reading 'getBlockNumber')")).
Proof.
  intros result. unfold result. rewrite run_healthRoute. cbn zeta. split_and!.
  - destruct (onProvider _ _ _ _) as [[blockNumber|e] w1];
      [destruct (onProvider _ _ _ _) as [[network|e] w2]|];
      eexists; (split; [reflexivity|]); simpl; auto.
  - destruct (onProvider _ _ _ _) as [[blockNumber|e] w1];
      [destruct (onProvider _ _ _ _) as [[network|e] w2]|]; done.
  - destruct (onProvider _ _ _ _) as [[blockNumber|e] w1];
      [destruct (onProvider _ _ _ _) as [[network|e] w2]|]; done.
  - destruct (onProvider _ _ _ _) as [[blockNumber|e] w1];
      [destruct (onProvider _ _ _ _) as [[network|e] w2]|]; done.
  - intros url e w -> Hb. cbn [onProvider]. by rewrite Hb.
  - intros url blockNumber e w1 w2 -> Hb Hn. cbn [onProvider]. by rewrite Hb, Hn.
  - intros url blockNumber network w1 w2 -> Hb Hn. cbn [onProvider]. by rewrite Hb, Hn.
  - by intros ->.
Qed.

End HealthProperties.

(** ** The hit rate at its ends *)
Module HitRateEnds.
Import Stats StatsProperties.

(** A positive number divided by itself is one. *)
Lemma SFdiv_self m e :
  SFdiv prec emax (S754_finite false m e) (S754_finite false m e) =
  S754_finite false 4503599627370496 (-52).
Proof.
  unfold SFdiv, SFdiv_core_binary.
  rewrite !Z.sub_diag. change (fexp prec emax 0) with (-53).
  change (Z.min (-53) 0) with (-53). change (0 - -53) with 53.
  cbv beta iota zeta. rewrite Z.shiftl_mul_pow2 by lia.
  change (2 ^ 53) with 9007199254740992. set (P := 9007199254740992).
  assert (Hd : Z.div_eucl (Z.pos m * P) (Z.pos m) = (P, 0)).
  { pose proof (Z.div_mul P (Z.pos m) ltac:(lia)) as H1.
    pose proof (Z.mod_mul P (Z.pos m) ltac:(lia)) as H2.
    rewrite (Z.mul_comm P) in H1, H2. unfold Z.div, Z.modulo in H1, H2.
    destruct (Z.div_eucl _ _) as [q r]. simpl in *. by subst. }
  rewrite Hd.
  unfold new_location. destruct (Z.even (Z.pos m)); reflexivity.
Qed.

(** X22: with lookups but no hit the hit rate is ["0.00%"], and with
    hits but no miss it is ["100.00%"], for counters below [2^53]. *)
Theorem hitRate_ends (n k : nat) :
  (0 < n)%nat ->
  Z.of_nat n < 2 ^ 53 ->
  hitRate {| hits := 0; misses := n; sets := k |} = "0.00%" /\
  hitRate {| hits := n; misses := 0; sets := k |} = "100.00%".
Proof.
  intros Hpos Hlt.
  destruct (number_counter n Hpos Hlt) as (Hsign & _).
  unfold hitRate. cbn [hits misses]. rewrite number_zero.
  destruct (number n) as [| | |sx m e]; try done. simpl in Hsign. subst sx. split.
  - reflexivity.
  - cbn [Number_add SFadd Number_gt SFltb SFcompare]. cbn iota.
    unfold Number_div. rewrite SFdiv_self. reflexivity.
Qed.

End HitRateEnds.

(** ** The further properties at concrete inputs *)
Section MoreWitnesses.
Import Reference Examples.

Lemma state0_cursorValid useRedis w :
  cursorValid CONFIG.RPC_PROVIDERS (providerManager (state0 useRedis w)).
Proof.
  split_and!; [reflexivity|simpl; lia|].
  intros i [x Hx]. simpl in Hx. by rewrite lookup_empty in Hx.
Qed.

Lemma cursor_stays_valid_witness :
  cursorValid CONFIG.RPC_PROVIDERS
    (providerManager (fst (run (recordsRoute "nobody.eth") (state0 true world0)))) /\
  cursorValid CONFIG.RPC_PROVIDERS
    (providerManager (fst (searchRoute [2; 0; 1; 1]%nat "vitalik" (state0 true world0)))).
Proof.
  destruct (cursor_stays_valid CONFIG.RPC_PROVIDERS "nobody.eth" [] JNull
              (state0 true world0) (state0_cursorValid true world0))
    as (_ & _ & _ & Hrecords & _).
  destruct (cursor_stays_valid CONFIG.RPC_PROVIDERS "vitalik" [2; 0; 1; 1]%nat JNull
              (state0 true world0) (state0_cursorValid true world0))
    as (_ & _ & _ & _ & _ & Hsearch).
  split; [exact Hrecords|exact Hsearch].
Defined.

Lemma searchRoute_never_fails_witness :
  (exists s' steps o1,
     chained (state0 true world0) steps s' /\
     executes (await (executeWithFallback (resolveNameOp "vitalik.eth") 3))
              (piecesOf 0 steps) o1 /\
     fst (searchRoute [2; 0; 1; 1]%nat " Vitalik " (state0 true world0)) = s' /\
     cache s' = cache (state0 true world0)) /\
  snd (searchRoute [2; 0; 1; 1]%nat " Vitalik " (state0 true world0)) =
    Returned (JObj [("query", JStr "vitalik");
                    ("suggestions", JArr [JStr "vitalik.eth"; JStr "vitalik-dao.eth";
                                          JStr "vitalik-nft.eth"]);
                    ("found", JArr [JObj [("name", JStr "vitalik.eth");
                                          ("address", JStr vitalik);
                                          ("available", JBool false)]])]) /\
  snd (searchRoute [] "ab" (state0 true world0)) =
    Thrown (createError "Query must be at least 3 characters" 400) /\
  snd (searchRoute [] "éa" (state0 true world0)) =
    Thrown (createError "Query must be at least 3 characters" 400).
Proof.
  split_and!.
  - destruct (proj1 (searchRoute_never_fails [2; 0; 1; 1]%nat " Vitalik "
                       (state0 true world0)))
      as (s' & steps & o1 & o2 & o3 & Hch & _ & H1 & _ & _ & Hrun & Hcache & _).
    + vm_compute. lia.
    + exists s', steps, o1. split_and!; [exact Hch|exact H1| |exact Hcache].
      by rewrite Hrun.
  - vm_compute. reflexivity.
  - destruct (proj2 (searchRoute_never_fails [] "ab" (state0 true world0))) as [Hrun _].
    + vm_compute. lia.
    + by rewrite Hrun.
  - destruct (proj2 (searchRoute_never_fails [] "éa" (state0 true world0))) as [Hrun _].
    + vm_compute. lia.
    + by rewrite Hrun.
Defined.


Lemma CacheManager_get_redis_failure_witness :
  (exists s',
     run (CacheManager_get "k") (state0 true redisLost) = (s', Returned JNull) /\
     trace s' = [RedisSent (GET "k"); RedisGetError (newError "Connection is closed.")] /\
     stats (cache s') = {| hits := 0; misses := 1; sets := 0 |}) /\
  (exists s',
     run (CacheManager_get "k")
         (state0 true (withRedisData {[ "k" := ("{oops", None) ]} world0)) =
       (s', Returned JNull) /\
     trace s' = [RedisSent (GET "k"); RedisGetError (newError "Unexpected token in JSON")]).
Proof.
  split.
  - edestruct (proj1 (CacheManager_get_redis_failure "k" (state0 true redisLost)
                        eq_refl eq_refl))
      as (s' & Hrun & Htrace & Hstats & _).
    + vm_compute. reflexivity.
    + exists s'. split_and!; [exact Hrun|exact Htrace|exact Hstats].
  - edestruct (proj1 (proj2 (CacheManager_get_redis_failure "k"
                 (state0 true (withRedisData {[ "k" := ("{oops", None) ]} world0))
                 eq_refl eq_refl)))
      as (s' & Hrun & Htrace & _).
    + vm_compute. reflexivity.
    + discriminate.
    + vm_compute. reflexivity.
    + exists s'. split; [exact Hrun|exact Htrace].
Defined.

Lemma set_then_get_until_expiry_witness :
  (let s1 := withWorld (elapse 300000 world0)
               (fst (run (CacheManager_set "k" (JStr "v") None) (state0 false world0))) in
   run (CacheManager_get "k") s1 = (withCache (hitsIncr (cache s1)) s1, Returned (JStr "v"))) /\
  (let s1 := withWorld (elapse 300001 world0)
               (fst (run (CacheManager_set "k" (JStr "v") None) (state0 false world0))) in
   exists s2,
     run (CacheManager_get "k") s1 = (s2, Returned JNull) /\
     NodeCache.data (memoryCache (cache s2)) !! "k" = None).
Proof.
  split.
  - intros s1.
    apply (proj1 (set_then_get_until_expiry "k" (JStr "v") None (state0 false world0)
                    (elapse 300000 world0))).
    right. apply Z.leb_le. vm_compute. reflexivity.
  - intros s1.
    destruct (proj1 (proj2 (set_then_get_until_expiry "k" (JStr "v") None
                              (state0 false world0) (elapse 300001 world0))))
      as (s2 & Hrun & Hgone & _).
    + vm_compute. discriminate.
    + apply Z.ltb_lt. vm_compute. reflexivity.
    + reflexivity.
    + exists s2. split; [exact Hrun|exact Hgone].
Defined.

Lemma isValidENSName_one_label_witness :
  (exists label,
     String_toLowerCase "Vitalik-1.ETH" = label +:+ ".eth" /\ label <> "" /\
     forallb isLabelChar (String.list_ascii_of_string label) = true) /\
  isValidENSName "pay.vitalik.eth" = false /\
  isValidENSName ".eth" = false.
Proof.
  split_and!.
  - apply (proj1 (isValidENSName_one_label "Vitalik-1.ETH")). vm_compute. reflexivity.
  - vm_compute. reflexivity.
  - vm_compute. reflexivity.
Defined.

Lemma cached_answer_skips_upstream_witness :
  let s := fst (run (resolveRoute "vitalik.eth") (state0 false world0)) in
  run (resolveRoute " Vitalik.eth") s =
    (withCache (hitsIncr (cache s)) s,
     Returned (JObj [("name", JStr "vitalik.eth"); ("address", JStr vitalik);
                     ("timestamp", JStr "T+1000ms"); ("cached", JBool true)])).
Proof.
  intros s.
  apply (proj1 (cached_answer_skips_upstream " Vitalik.eth" s
           (NodeCache.mkEntry
              (JObj [("name", JStr "vitalik.eth"); ("address", JStr vitalik);
                     ("timestamp", JStr "T+1000ms")]) 301000)
           ltac:(vm_compute; reflexivity) eq_refl)).
  - vm_compute. reflexivity.
  - vm_compute. reflexivity.
Defined.

Lemma resolve_then_cached_witness :
  snd (run (resolveRoute "vitalik.eth") (state0 true world0)) =
    Returned (JObj [("name", JStr "vitalik.eth"); ("address", JStr vitalik);
                    ("timestamp", JStr "T+1000ms"); ("cached", JBool false)]) /\
  snd (run (resolveRoute "vitalik.eth")
         (withWorld (elapse 300000 world0)
            (fst (run (resolveRoute "vitalik.eth") (state0 true world0))))) =
    Returned (JObj [("name", JStr "vitalik.eth"); ("address", JStr vitalik);
                    ("timestamp", JStr "T+1000ms"); ("cached", JBool true)]).
Proof.
  edestruct resolve_then_cached
    with (param := "vitalik.eth") (s := state0 true world0) (addr := vitalik)
         (later := elapse 300000 world0)
    as (Hfirst & Hagain).
  - vm_compute. reflexivity.
  - apply outcome_eq. vm_compute. reflexivity.
  - reflexivity.
  - apply outcome_eq. vm_compute. reflexivity.
  - discriminate.
  - vm_compute. reflexivity.
  - apply Z.leb_le. vm_compute. reflexivity.
  - split.
    + rewrite Hfirst. vm_compute. reflexivity.
    + rewrite Hfirst. cbn [fst]. rewrite Hagain. vm_compute. reflexivity.
Defined.

Lemma upstream_outage_is_500_witness :
  exists s2 e,
    run (reverseRoute vitalik) (state0 false blackout) = (s2, Thrown e) /\
    respond (Thrown e) "r1" 2000 = internalServerError "r1" 2000 /\
    cache s2 = cache (fst (run (CacheManager_get ("reverse:" +:+ vitalik))
                             (state0 false blackout))).
Proof.
  edestruct (upstream_outage_is_500 vitalik (state0 false blackout))
    with (cached := JNull) (requestId := "r1") (now := 2000)
    as (_ & Hreverse & _); [reflexivity|].
  edestruct Hreverse as (s2 & e & Hrun & Hanswer & Hcache & _).
  - vm_compute. reflexivity.
  - apply outcome_eq. vm_compute. reflexivity.
  - vm_compute. reflexivity.
  - exists s2, e. split_and!; [exact Hrun|exact Hanswer|exact Hcache].
Defined.

Lemma records_without_resolver_witness :
  exists s2,
    run (recordsRoute "nobody.eth") (state0 false redisLost) =
      (s2, Thrown (newError
                     "All providers failed after 3 attempts: ENS resolver not found")) /\
    currentIndex (providerManager s2) = 3%nat /\
    length (trace s2) = 3%nat.
Proof.
  edestruct records_without_resolver
    with (param := "nobody.eth") (s := state0 false redisLost) (requestId := "r1")
         (now := 2000)
    as (s2 & Hrun & _ & Htrace & Hcursor & _).
  - vm_compute. reflexivity.
  - apply outcome_eq. vm_compute. reflexivity.
  - reflexivity.
  - vm_compute. reflexivity.
  - vm_compute. reflexivity.
  - vm_compute. reflexivity.
  - vm_compute. reflexivity.
  - vm_compute. reflexivity.
  - vm_compute. reflexivity.
  - exists s2. split_and!; [exact Hrun| |].
    + rewrite Hcursor. vm_compute. reflexivity.
    + rewrite Htrace. vm_compute. reflexivity.
Defined.

Lemma avatar_without_resolver_witness :
  snd (run (avatarRoute "nobody.eth") (state0 false redisLost)) =
    Returned (JObj [("name", JStr "nobody.eth"); ("avatar", JNull);
                    ("timestamp", JStr "T+1000ms"); ("cached", JBool false)]).
Proof.
  edestruct avatar_without_resolver
    with (param := "nobody.eth") (s := state0 false redisLost) (requestId := "r1")
         (now := 2000)
    as (Hrun & _).
  - vm_compute. reflexivity.
  - apply outcome_eq. vm_compute. reflexivity.
  - reflexivity.
  - vm_compute. reflexivity.
  - vm_compute. reflexivity.
  - rewrite Hrun. vm_compute. reflexivity.
Defined.

Lemma records_of_resolver_witness :
  exists entries w2,
    recordsOp "vitalik.eth" (Some "https://eth.llamarpc.com") redisLost =
      (Returned (JObj entries), w2) /\
    length entries = 8%nat.
Proof.
  edestruct (records_of_resolver "vitalik.eth" "https://eth.llamarpc.com")
    with (w := redisLost)
    as (entries & w2 & Hop & Hkeys & _).
  - vm_compute. reflexivity.
  - exists entries, w2. split; [exact Hop|].
    rewrite <- (length_fmap fst), Hkeys. reflexivity.
Defined.

Lemma batchRoute_200_or_400_witness :
  batchRoute [1; 0]%nat (JObj [("operations", JStr "resolve")]) (state0 true world0) =
    (state0 true world0, Thrown (createError "Invalid batch request format" 400)) /\
  batchRoute [1; 0]%nat (JObj [("operations", JArr [])]) (state0 true world0) =
    (state0 true world0, Thrown (createError "Invalid batch request format" 400)).
Proof.
  split.
  - by apply (proj1 (batchRoute_200_or_400 [1; 0]%nat [("operations", JStr "resolve")] []
                       (state0 true world0) "r1" 2000)).
  - by apply (proj1 (batchRoute_200_or_400 [1; 0]%nat [("operations", JArr [])] []
                       (state0 true world0) "r1" 2000)).
Defined.

Lemma batch_unknown_types_rejected_witness :
  batchRoute [1; 0; 1]%nat
    (JObj [("operations", JArr [JObj [("type", JStr "transfer")]; JObj []])])
    (state0 true world0) =
  (state0 true world0,
   Returned (JObj [("results", JArr
     [ JObj [("index", JNum 0); ("status", JStr "rejected"); ("data", JNull);
             ("error", JStr "Invalid operation type")];
       JObj [("index", JNum 1); ("status", JStr "rejected"); ("data", JNull);
             ("error", JStr "Invalid operation type")] ])])).
Proof.
  apply (batch_unknown_types_rejected [1; 0; 1]%nat
           [JObj [("type", JStr "transfer")]; JObj []] (state0 true world0)).
  - simpl. lia.
  - repeat constructor; eexists; split_and!; reflexivity.
Defined.

Lemma refused_socket_gets_nothing_witness :
  let full := Notifier.steps Notifier.empty
                (map (fun c => Notifier.Connect c 0) (seq 0 1000)) in
  let sv' := Notifier.steps (Notifier.step full (Notifier.Connect 1000 1))
               [Notifier.Block 100 2; Notifier.Frame 1000 None 3; Notifier.Tick 1000] in
  (exists k, Notifier.connections sv' !! 1000%nat = Some k /\
             Notifier.sent k = [] /\ Notifier.pings k = 0%nat /\
             Notifier.readyState k <> Notifier.OPEN) /\
  ~ In 1000%nat (Notifier.connectedClients sv').
Proof.
  intros full sv'.
  apply (BookkeepingProperties.refused_socket_gets_nothing full 1000 1).
  - apply BookkeepingProperties.steps_wellFormed, BookkeepingProperties.empty_wellFormed.
  - vm_compute. reflexivity.
  - apply Nat.leb_le. vm_compute. reflexivity.
Defined.

Lemma answered_probes_keep_blocks_coming_witness :
  let evs := [Notifier.Tick 7; Notifier.Block 101 2; Notifier.Pong 7; Notifier.Tick 7;
              Notifier.Frame 7 None 3; Notifier.Block 102 4] in
  Notifier.blocksSent 7 (Notifier.steps oneSubscriber evs) =
    [Notifier.BlockEvent 100 1; Notifier.BlockEvent 101 2; Notifier.BlockEvent 102 4].
Proof.
  intros evs.
  edestruct (BookkeepingProperties.answered_probes_keep_blocks_coming oneSubscriber 7)
    with (evs := evs) as (_ & Hblocks).
  - apply BookkeepingProperties.steps_wellFormed, BookkeepingProperties.empty_wellFormed.
  - vm_compute. reflexivity.
  - reflexivity.
  - reflexivity.
  - vm_compute. tauto.
  - rewrite Hblocks. vm_compute. reflexivity.
Defined.

Lemma invalidate_redis_best_effort_witness :
  let down := fun (_ : string) (w : World) =>
                (Thrown (A:=list string) (newError "Connection is closed."), w) in
  let del := fun (_ : list string) (w : World) => (Returned (A:=Z) 0, w) in
  let s := fst (run (CacheManager_set "resolve:vitalik.eth" (JStr "v") None)
                  (state0 true redisLost)) in
  snd (run (CacheManager_invalidate down del "resolve:") s) =
    Returned (Some (newError "Connection is closed.")) /\
  NodeCache.data (memoryCache (cache (fst (run (CacheManager_invalidate down del "resolve:") s))))
    !! "resolve:vitalik.eth" = None.
Proof.
  intros down del s.
  destruct (invalidate_redis_best_effort down del "resolve:" s eq_refl)
    as (_ & _ & _ & Hfail & Hmemory).
  split.
  - by apply (Hfail (newError "Connection is closed.") (world s)).
  - rewrite Hmemory. vm_compute. reflexivity.
Defined.

Lemma health_check_current_provider_only_witness :
  let blockNumber := fun (url : string) (w : World) =>
        if existsb (String.eqb url) (deadEndpoints w)
        then (Thrown (A:=Z) (newError ("could not detect network: " +:+ url)), w)
        else (Returned 19000000, w) in
  let network := fun (_ : string) (w : World) => (Returned (A:=string) "mainnet", w) in
  let uptime := fun w : World => JNum (now w / 1000) in
  snd (run (healthRoute blockNumber network uptime) (state0 false world0)) =
    Returned (Unhealthy "could not detect network: https://eth.llamarpc.com") /\
  providerManager (fst (run (healthRoute blockNumber network uptime) (state0 false world0))) =
    providerManager (state0 false world0).
Proof.
  intros blockNumber network uptime.
  destruct (health_check_current_provider_only blockNumber network uptime
              (state0 false world0))
    as (_ & Hpm & _ & _ & Hdown & _).
  split; [|exact Hpm].
  apply (Hdown "https://eth.llamarpc.com"
               (newError "could not detect network: https://eth.llamarpc.com") world0).
  - reflexivity.
  - vm_compute. reflexivity.
Defined.

Lemma hitRate_ends_witness :
  Stats.hitRate {| hits := 0; misses := 12; sets := 3 |} = "0.00%" /\
  Stats.hitRate {| hits := 12; misses := 0; sets := 3 |} = "100.00%".
Proof. apply (HitRateEnds.hitRate_ends 12 3); [lia|reflexivity]. Defined.

End MoreWitnesses.

(** ** What the routes leave in the cache *)
Section WriteThrough.
Context {R : Runtime}.

Lemma getField_setField k v fields : getField k (setField k v fields) = Some v.
Proof.
  induction fields as [|[k' v'] fields IH]; simpl.
  - by rewrite String.eqb_refl.
  - destruct (String.eqb k' k) eqn:E; simpl; [by rewrite String.eqb_refl|by rewrite E].
Qed.

Lemma run_get_returns key s :
  exists s1 cached, run (CacheManager_get key) s = (s1, Returned cached).
Proof.
  pose proof (post_run _ _ (returns_CacheManager_get key) s) as H.
  destruct (run (CacheManager_get key) s) as [s1 [cached|e]]; [by eexists _, _|done].
Qed.

Ltac fresh_answer Hrun Hflag :=
  match type of Hrun with
  | context [run (bind (await (CacheManager_get ?key)) _) ?s] =>
      let s1 := fresh "s1" in let cached := fresh "cached" in let Hget := fresh "Hget" in
      destruct (run_get_returns key s) as (s1 & cached & Hget);
      rewrite run_bind, run_await, Hget in Hrun; cbn iota in Hrun;
      destruct (truthy cached);
      [ rewrite run_ret in Hrun; injection Hrun as _ <-;
        unfold withCachedFlag in Hflag; by rewrite getField_setField in Hflag
      | rewrite run_bind, run_await in Hrun ]
  end.

(** X23: an answer with [cached: false] has been written to the cache.
    Whenever a lookup route answers 200 with a body whose [cached] field is
    [false], the memory cache holds, under the key of the request, exactly
    that body without the [cached] field. *)
Theorem fresh_answers_are_cached (param : string) (s s' : State)
    (fields : list (string * json)) :
  let arg := sanitizeInput param in
  let stored key :=
    exists result,
      JObj fields = withCachedFlag false result /\
      NodeCache.v <$> NodeCache.data (memoryCache (cache s')) !! key = Some result in
  getField "cached" fields = Some (JBool false) ->
  (run (resolveRoute param) s = (s', Returned (JObj fields)) -> stored ("resolve:" +:+ arg)) /\
  (run (reverseRoute param) s = (s', Returned (JObj fields)) -> stored ("reverse:" +:+ arg)) /\
  (run (avatarRoute param) s = (s', Returned (JObj fields)) -> stored ("avatar:" +:+ arg)) /\
  (run (recordsRoute param) s = (s', Returned (JObj fields)) -> stored ("records:" +:+ arg)).
Proof.
  intros arg stored Hflag. unfold stored. split_and!; intros Hrun.
  - unfold resolveRoute in Hrun. fold arg in Hrun.
    destruct (isValidENSName arg); cbn [negb] in Hrun; [|by rewrite run_throw in Hrun].
    fresh_answer Hrun Hflag.
    destruct (run (executeWithFallback _ _) s1) as [s2 [address|e]]; cbn iota in Hrun; [|done].
    destruct (truthy (ofNullable address)); cbn [negb] in Hrun;
      [|by rewrite run_throw in Hrun].
    unfold timestamp in Hrun. rewrite run_bind, run_gets in Hrun. cbn iota in Hrun.
    rewrite run_bind, run_await, run_CacheManager_set in Hrun. cbn iota in Hrun.
    rewrite run_ret in Hrun. injection Hrun as <- <-.
    eexists. split; [|by rewrite afterSet_entry]. reflexivity.
  - unfold reverseRoute in Hrun. fold arg in Hrun.
    destruct (isValidAddress arg); cbn [negb] in Hrun; [|by rewrite run_throw in Hrun].
    fresh_answer Hrun Hflag.
    destruct (run (executeWithFallback _ _) s1) as [s2 [name|e]]; cbn iota in Hrun; [|done].
    unfold timestamp in Hrun. rewrite run_bind, run_gets in Hrun. cbn iota in Hrun.
    rewrite run_bind, run_await, run_CacheManager_set in Hrun. cbn iota in Hrun.
    rewrite run_ret in Hrun. injection Hrun as <- <-.
    eexists. split; [|by rewrite afterSet_entry]. reflexivity.
  - unfold avatarRoute in Hrun. fold arg in Hrun.
    destruct (isValidENSName arg); cbn [negb] in Hrun; [|by rewrite run_throw in Hrun].
    fresh_answer Hrun Hflag.
    destruct (run (executeWithFallback _ _) s1) as [s2 [avatar|e]]; cbn iota in Hrun; [|done].
    unfold timestamp in Hrun. rewrite run_bind, run_gets in Hrun. cbn iota in Hrun.
    rewrite run_bind, run_await, run_CacheManager_set in Hrun. cbn iota in Hrun.
    rewrite run_ret in Hrun. injection Hrun as <- <-.
    eexists. split; [|by rewrite afterSet_entry]. reflexivity.
  - unfold recordsRoute in Hrun. fold arg in Hrun.
    destruct (isValidENSName arg); cbn [negb] in Hrun; [|by rewrite run_throw in Hrun].
    fresh_answer Hrun Hflag.
    destruct (run (executeWithFallback _ _) s1) as [s2 [records|e]]; cbn iota in Hrun; [|done].
    unfold timestamp in Hrun. rewrite run_bind, run_gets in Hrun. cbn iota in Hrun.
    rewrite run_bind, run_await, run_CacheManager_set in Hrun. cbn iota in Hrun.
    rewrite run_ret in Hrun. injection Hrun as <- <-.
    eexists. split; [|by rewrite afterSet_entry]. reflexivity.
Qed.


(** X24: a value found in Redis is served from memory afterwards.  After
    a [get] that missed the memory cache and found the key in Redis, a
    second [get] of the key, in whatever world, before the promoted entry
    expires (the default time to live after the Redis reply) returns the
    same value as a hit and sends nothing to Redis. *)
Theorem promoted_value_is_served_locally (key : string) (s : State)
    (text : string) (parsed : json) (w later : World) :
  let local := NodeCache.get (Date_now (world s)) key (memoryCache (cache s)) in
  let expiry := NodeCache.livetime (Date_now w) (memoryCache (cache s)) None in
  let s1 := withWorld later (fst (run (CacheManager_get key) s)) in
  fst local = None ->
  redisClient (cache s) = true ->
  redis (GET key) (world s) = (Returned (Some text), w) ->
  text <> "" ->
  JSON_parse text = Returned parsed ->
  expiry = 0 \/ Date_now later <= expiry ->
  snd (run (CacheManager_get key) s) = Returned parsed /\
  run (CacheManager_get key) s1 = (withCache (hitsIncr (cache s1)) s1, Returned parsed) /\
  trace (fst (run (CacheManager_get key) s1)) = (trace s ++ [RedisSent (GET key)])%list.
Proof.
  intros local expiry s1 Hlocal Hredis Hget Htext Hparse Hlive.
  assert (Hfirst : run (CacheManager_get key) s =
    (let s0 := withWorld w (emit (RedisSent (GET key))
                 (withCache (withMemoryCache (snd local) (cache s)) s)) in
     let s2 := withCache (withMemoryCache
                 (NodeCache.set (Date_now w) key parsed None (snd local)) (cache s0)) s0 in
     (withCache (hitsIncr (cache s2)) s2, Returned parsed))).
  { rewrite run_CacheManager_get. cbn zeta. fold local.
    rewrite Hlocal, Hredis, Hget. cbn [fst snd nonEmpty].
    destruct (String.eqb_spec text ""); [done|]. by rewrite Hparse. }
  assert (Hhit : run (CacheManager_get key) s1 =
                 (withCache (hitsIncr (cache s1)) s1, Returned parsed)).
  { apply (run_get_hit key s1 (NodeCache.mkEntry parsed expiry)).
    - unfold s1. rewrite Hfirst. cbn. rewrite lookup_insert_eq. do 2 f_equal.
      unfold expiry, NodeCache.livetime. unfold local, NodeCache.get.
      destruct (NodeCache.data (memoryCache (cache s)) !! key) as [e|].
      + by destruct (NodeCache.expired _ e).
      + by destruct (NodeCache.inherited key).
    - unfold NodeCache.expired. cbn [NodeCache.t]. change (world s1) with later.
      destruct Hlive as [->|Hle]; [done|].
      apply andb_false_iff. right. by apply Z.ltb_ge. }
  split_and!.
  - by rewrite Hfirst.
  - exact Hhit.
  - rewrite Hhit. unfold s1. by rewrite Hfirst.
Qed.

End WriteThrough.

Section WriteThroughWitnesses.
Import Reference Examples.

Lemma fresh_answers_are_cached_witness :
  exists result,
    JObj [("name", JStr "vitalik.eth"); ("address", JStr vitalik);
          ("timestamp", JStr "T+1000ms"); ("cached", JBool false)] =
      withCachedFlag false result /\
    NodeCache.v <$>
      NodeCache.data (memoryCache (cache
        (fst (run (resolveRoute "vitalik.eth") (state0 false world0)))))
      !! "resolve:vitalik.eth" = Some result.
Proof.
  apply (proj1 (fresh_answers_are_cached "vitalik.eth" (state0 false world0)
                  (fst (run (resolveRoute "vitalik.eth") (state0 false world0)))
                  [("name", JStr "vitalik.eth"); ("address", JStr vitalik);
                   ("timestamp", JStr "T+1000ms"); ("cached", JBool false)]
                  eq_refl)).
  apply outcome_eq. vm_compute. reflexivity.
Defined.

Lemma promoted_value_is_served_locally_witness :
  let key := "resolve:vitalik.eth" in
  let s1 := withWorld (elapse 300000 (world restarted))
              (fst (run (CacheManager_get key) restarted)) in
  trace (fst (run (CacheManager_get key) s1)) = (trace restarted ++ [RedisSent (GET key)])%list /\
  snd (run (CacheManager_get key) s1) =
    Returned (JObj [("name", JStr "vitalik.eth"); ("address", JStr vitalik);
                    ("timestamp", JStr "T+1000ms")]).
Proof.
  intros key s1.
  edestruct (promoted_value_is_served_locally key restarted)
    with (later := elapse 300000 (world restarted))
    as (_ & Hhit & Htrace).
  - vm_compute. reflexivity.
  - reflexivity.
  - vm_compute. reflexivity.
  - vm_compute. discriminate.
  - vm_compute. reflexivity.
  - right. apply Z.leb_le. vm_compute. reflexivity.
  - fold s1 in Hhit, Htrace. split; [exact Htrace|]. by rewrite Hhit.
Defined.

End WriteThroughWitnesses.
